(** * Remote commit-log provider: logs, pagination and the path-log cache

    A shallow embedding of [CommitsGitSubProvider] (the GitHub commits
    sub-provider): [getCommit], [getLog] and its [more] continuation,
    [getLogForPath] with its per-document cache, [getLogForPathCore] and
    its continuation, [isAncestorOf] and [searchCommits].

    Reading conventions.
    - A JS [Map] is an insertion-ordered list of entries with the
      operations of [JsMap]; [set] on a key that is present replaces the
      value where it stands.
    - [x | undefined] is [option x]; numbers are integers ([Z]). Where
      the code tells null from undefined (the default of a
      destructured [viewer]) or a key that is absent from one that is
      present and undefined (the spread of a search query), the model
      keeps them apart: [Viewer], [Property].
    - A string is a sequence of code units below 256.
    - An [async] method is a computation over a [World]: the tracked
      documents with their log caches, and the list of requests sent to
      the remote client so far. A rejected promise is [Throw]. Calls run
      one after the other, so a promise stored in the cache is
      identified with the value it settles to.
    - Closures stored in a log ([more], [query]) are records of what
      they capture. *)

From Stdlib Require Import ZArith.
From stdpp Require Import base option list strings pretty gmap.

Local Open Scope Z_scope.
Local Open Scope string_scope.
Local Open Scope list_scope.

(** ** JS [Map] with string keys *)

Module JsMap.

Definition t (V : Type) : Type := list (string * V).

Definition empty {V} : t V := [].

Fixpoint get {V} (k : string) (m : t V) : option V :=
  match m with
  | [] => None
  | (k', v) :: m' => if decide (k = k') then Some v else get k m'
  end.

Definition has {V} (k : string) (m : t V) : bool :=
  match get k m with Some _ => true | None => false end.

(** [m.set(k, v)]: a present key keeps its place and takes the new
    value; a new key goes to the end. *)
Fixpoint set {V} (k : string) (v : V) (m : t V) : t V :=
  match m with
  | [] => [(k, v)]
  | (k', v') :: m' =>
      if decide (k = k') then (k, v) :: m' else (k', v') :: set k v m'
  end.

Fixpoint delete {V} (k : string) (m : t V) : t V :=
  match m with
  | [] => []
  | (k', v') :: m' =>
      if decide (k = k') then m' else (k', v') :: delete k m'
  end.

Definition size {V} (m : t V) : Z := Z.of_nat (length m).

Definition entries {V} (m : t V) : list (string * V) := m.

Definition keys {V} (m : t V) : list string := m.*1.

Definition values {V} (m : t V) : list V := m.*2.

(** [new Map(iterable)]: the entries are [set] one after the other. *)
Definition of_entries {V} (es : list (string * V)) : t V :=
  foldl (fun m e => set e.1 e.2 m) empty es.

End JsMap.

(** ** Iterable helpers ([system/iterable]) *)

Definition some {A} (source : list A) (predicate : A -> bool) : bool :=
  existsb predicate source.

(** [last(map)] over a [Map] yields its last entry. *)
Definition last_entry {A} (source : list A) : option A := last source.

(** [filterMap] with a callback that carries its own mutable variables:
    [f] takes the variables and an item, and gives the variables after
    the call with the mapped item ([None] for [undefined], dropped). *)
Fixpoint filterMap {S A B} (f : S -> A -> S * option B) (s : S)
    (source : list A) : list B :=
  match source with
  | [] => []
  | x :: rest =>
      let '(s', r) := f s x in
      match r with
      | Some y => y :: filterMap f s' rest
      | None => filterMap f s' rest
      end
  end.

(** ** JS strings *)

Definition newline : Ascii.ascii := Ascii.ascii_of_nat 10.

(** [s.split('\n', 1)[0]] *)
Fixpoint firstLine (s : string) : string :=
  match s with
  | EmptyString => EmptyString
  | String c rest =>
      if decide (c = newline) then EmptyString else String c (firstLine rest)
  end.

(** The white space [String.prototype.trim] strips, among the code
    units below 256: tab to carriage return, space, no-break space. *)
Definition isWhitespace (c : Ascii.ascii) : bool :=
  let n := Ascii.nat_of_ascii c in
  bool_decide (n = 32 ∨ (9 <= n ∧ n <= 13) ∨ n = 160)%nat.

Fixpoint trimStart (s : string) : string :=
  match s with
  | EmptyString => EmptyString
  | String c rest => if isWhitespace c then trimStart rest else s
  end.

Fixpoint trimEnd (s : string) : string :=
  match s with
  | EmptyString => EmptyString
  | String c rest =>
      match trimEnd rest with
      | EmptyString => if isWhitespace c then EmptyString else String c EmptyString
      | r => String c r
      end
  end.

Definition trim (s : string) : string := trimEnd (trimStart s).

Fixpoint join (sep : string) (parts : list string) : string :=
  match parts with
  | [] => ""
  | [p] => p
  | p :: rest => p +:+ sep +:+ join sep rest
  end.

(** Truthiness of a string: the empty string is falsy. *)
Definition truthy (s : string) : bool := negb (bool_decide (s = "")).

(** Truthiness of [string | undefined]. *)
Definition truthyOpt (s : option string) : bool :=
  match s with Some x => truthy x | None => false end.

(** ** Commit model ([git/models]) *)

(** Modelled from the spec: the enum [GitFileIndexStatus] is not under
    src/; section 3 lists a file change's status as Added, Modified,
    Deleted, Renamed, Copied. *)
Inductive GitFileIndexStatus :=
  | Modified | Added | Deleted | Renamed | Copied.

Module GitCommitIdentity.
Record t := mk {
  name : string;
  email : option string;
  date : string;
  avatarUrl : option string;
}.
End GitCommitIdentity.

Module GitFileChangeStats.
Record t := mk { additions : Z; deletions : Z; changes : Z }.
End GitFileChangeStats.

Module GitFileChange.
Record t := mk {
  repoPath : string;
  path : string;
  status : GitFileIndexStatus;
  originalPath : option string;
  previousSha : option string;
  stats : option GitFileChangeStats.t;
}.
End GitFileChange.

Module GitCommitStats.
Record t := mk { files : Z; additions : Z; deletions : Z }.
End GitCommitStats.

Module GitCommitFileset.
Record filtered_t := mkFiltered {
  filtered_files : option (list GitFileChange.t);
  pathspec : string;
}.
Record t := mk {
  files : option (list GitFileChange.t);
  filtered : option filtered_t;
}.
End GitCommitFileset.

Module GitCommit.
Record t := mk {
  repoPath : string;
  sha : string;
  author : GitCommitIdentity.t;
  committer : GitCommitIdentity.t;
  summary : string;
  parents : list string;
  message : string;
  fileset : option GitCommitFileset.t;
  stats : GitCommitStats.t;
  tips : list string;
}.

(** Modelled from the spec: class [GitCommit] is not under src/; section
    3 gives a commit one identity, its id, so [ref] reads the [sha] the
    constructor was given. *)
Definition ref (c : t) : string := sha c.
End GitCommit.

(** ** Records of the remote API (declared outside src/, fields as the
    code reads them) *)

Module GitHubIdentity.
Record t := mk {
  name : string;
  email : option string;
  date : string;
  avatarUrl : option string;
}.
End GitHubIdentity.

Module GitHubFile.
Record t := mk {
  filename : option string;
  status : option string;
  previous_filename : option string;
  additions : option Z;
  deletions : option Z;
  changes : option Z;
}.
End GitHubFile.

(** The [viewer] of an answer of the remote: left out (undefined),
    null, or a name. *)
Inductive Viewer :=
  | ViewerUndefined
  | ViewerNull
  | ViewerName (name : string).

Module GitHubCommit.
Record t := mk {
  oid : string;
  author : GitHubIdentity.t;
  committer : GitHubIdentity.t;
  message : string;
  parents : list string;
  files : option (list GitHubFile.t);
  changedFiles : option Z;
  additions : option Z;
  deletions : option Z;
  viewer : Viewer;
}.
End GitHubCommit.

Module Paging.
Record t := mk { more : bool; cursor : option string }.
End Paging.

Module CommitsResult.
Record t := mk {
  values : list GitHubCommit.t;
  paging : option Paging.t;
  viewer : Viewer;
}.
End CommitsResult.

Module PageInfo.
Record t := mk { hasNextPage : bool; endCursor : option string }.
End PageInfo.

Module SearchResult.
Record t := mk {
  values : list GitHubCommit.t;
  pageInfo : option PageInfo.t;
}.
End SearchResult.

Module Comparison.
Record t := mk { status : option string; ahead_by : Z; behind_by : Z }.
End Comparison.

(** ** Options *)

(** [merges?: boolean | 'first-parent'] *)
Inductive MergesOption := MergesFlag (b : bool) | MergesFirstParent.

Definition mergesTruthy (m : option MergesOption) : bool :=
  match m with
  | Some (MergesFlag b) => b
  | Some MergesFirstParent => true
  | None => false
  end.

Definition mergesToString (m : MergesOption) : string :=
  match m with
  | MergesFlag true => "true"
  | MergesFlag false => "false"
  | MergesFirstParent => "first-parent"
  end.

Module GitLogOptions.
Record t := mk {
  all : option bool;
  authors : option (list string);
  cursor : option string;
  limit : option Z;
  merges : option MergesOption;
  ordering : option string;
  since : option string;
}.
Definition none : t := mk None None None None None None None.
(** [{ ...options, limit: l, cursor: c }] *)
Definition with_limit_cursor (o : t) (l : option Z) (c : option string) : t :=
  mk (all o) (authors o) c l (merges o) (ordering o) (since o).
End GitLogOptions.

Module GitLogForPathOptions.
Record t := mk {
  all : option bool;
  authors : option (list string);
  cursor : option string;
  filters : option (list string);
  isFolder : option bool;
  limit : option Z;
  merges : option MergesOption;
  ordering : option string;
  range : option (Z * Z);
  renames : option bool;
  since : option string;
  until : option string;
}.
Definition none : t :=
  mk None None None None None None None None None None None None.
(** [{ ...options, all: a, limit: l, renames: r }] *)
Definition with_all_limit_renames (o : t) (a : option bool) (l : option Z)
    (r : option bool) : t :=
  mk a (authors o) (cursor o) (filters o) (isFolder o) l (merges o)
     (ordering o) (range o) r (since o) (until o).
(** [options.isFolder = b] *)
Definition with_isFolder (o : t) (b : option bool) : t :=
  mk (all o) (authors o) (cursor o) (filters o) b (limit o) (merges o)
     (ordering o) (range o) (renames o) (since o) (until o).
(** [{ ...options, limit: l }] *)
Definition with_limit (o : t) (l : option Z) : t :=
  mk (all o) (authors o) (cursor o) (filters o) (isFolder o) l (merges o)
     (ordering o) (range o) (renames o) (since o) (until o).
(** [{ ...options, limit: l, cursor: c }] *)
Definition with_limit_cursor (o : t) (l : option Z) (c : option string) : t :=
  mk (all o) (authors o) c (filters o) (isFolder o) l (merges o)
     (ordering o) (range o) (renames o) (since o) (until o).
End GitLogForPathOptions.

Module GitSearchCommitsOptions.
Record t := mk {
  cursor : option string;
  limit : option Z;
  ordering : option string;
}.
Definition none : t := mk None None None.
(** [{ ...options, limit: l, cursor: c }] *)
Definition with_limit_cursor (o : t) (l : option Z) (c : option string) : t :=
  mk c l (ordering o).
End GitSearchCommitsOptions.

(** [naturalLanguage?: boolean | { query, processedQuery? }] *)
Inductive NaturalLanguage :=
  | NLFlag (b : bool)
  | NLObject (processedQuery : option string).

(** A property of an object that may be left out: the key is absent, or
    it is present with a value, which may be undefined. *)
Inductive Property (A : Type) :=
  | Absent
  | Present (value : option A).
Arguments Absent {A}.
Arguments Present {A} value.

Module SearchQuery.
Record t := mk {
  query : string;
  matchAll : Property bool;
  matchCase : Property bool;
  matchRegex : Property bool;
  matchWholeWord : Property bool;
  naturalLanguage : Property NaturalLanguage;
}.
End SearchQuery.

(** ** Logs *)

(** The [query] closure of a log, as what it captures. *)
Inductive QueryFn :=
  | QueryLog (repoPath : string) (rev : option string)
      (options : option GitLogOptions.t)
  | QueryLogForPath (repoPath : string) (pathOrUri : string)
      (rev : option string) (options : GitLogForPathOptions.t)
  | QuerySearch (repoPath : string)
      (options : option GitSearchCommitsOptions.t).

Module GitLog.

(** Every field of [GitLog] but [more]. *)
Record core := mkCore {
  repoPath : string;
  commits : JsMap.t GitCommit.t;
  sha : option string;
  count : Z;
  limit : option Z;
  hasMore : bool;
  startingCursor : option string;
  endingCursor : option string;
  pagedCommits : option (JsMap.t GitCommit.t);
  query : option QueryFn;
}.

(** A [more] closure, as what it captures: the log it was made for and
    the arguments of the method that made it. *)
Inductive MoreFn :=
  | LogMoreFn (log : core) (rev : option string)
      (options : option GitLogOptions.t)
  | LogForPathMoreFn (log : core) (relativePath : string)
      (rev : option string) (options : GitLogForPathOptions.t)
  | SearchMoreFn (log : core) (search : SearchQuery.t) (source : string)
      (options : option GitSearchCommitsOptions.t).

Record t := mk {
  base : core;
  more : option MoreFn;
}.

(** [{ ...log, hasMore: h }] on the fields of [core]. *)
Definition with_hasMore (l : core) (h : bool) : core :=
  mkCore (repoPath l) (commits l) (sha l) (count l) (limit l) h
    (startingCursor l) (endingCursor l) (pagedCommits l) (query l).

(** The log a closure captured. [log.more = fn] is assigned right after
    the closure is made, so the captured object carries the closure. *)
Definition captured (fn : MoreFn) : t :=
  match fn with
  | LogMoreFn log _ _ => mk log (Some fn)
  | LogForPathMoreFn log _ _ _ => mk log (Some fn)
  | SearchMoreFn log _ _ _ => mk log (Some fn)
  end.

End GitLog.

Coercion GitLog.base : GitLog.t >-> GitLog.core.

(** The argument of [more]: [number | { until: string } | undefined]. *)
Inductive MoreArg :=
  | MoreLimit (limit : Z)
  | MoreUntil (until : string).

(** ** The path-log cache ([trackers/trackedDocument]) *)

(** [CachedLog]: [item] is the promise, read as the value it settles to
    ([None] for [undefined], which is what [emptyPromise] holds). *)
Module CachedLog.
Record t := mk {
  item : option GitLog.t;
  errorMessage : option string;
}.
End CachedLog.

(** [emptyPromise = Promise.resolve(undefined)] *)
Definition emptyPromise : option GitLog.t := None.

(** ** Requests to the remote client *)

Module CommitsRequest.
Record t := mk {
  accessToken : string;
  owner : string;
  repo : string;
  ref : string;
  all : option bool;
  authors : option (list string);
  after : option string;
  path : option string;
  limit : option Z;
  since : option string;
}.
End CommitsRequest.

Module SearchRequest.
Record t := mk {
  accessToken : string;
  query : string;
  cursor : option string;
  limit : option Z;
  sort : option string;
}.
End SearchRequest.

Inductive RemoteCall :=
  | CallGetCommit (accessToken owner repo ref : string)
  | CallGetCommits (request : CommitsRequest.t)
  | CallGetComparison (accessToken owner repo range : string)
  | CallSearchCommits (request : SearchRequest.t).

(** ** Asynchronous computations *)

Inductive Outcome (A : Type) :=
  | Returns (a : A)
  | Throws (ex : string).
Arguments Returns {A} a.
Arguments Throws {A} ex.

(** Modelled from the spec: the document tracker is not under src/;
    section 3 scopes a document's cache to a (repository, path) pair.
    A pair without an entry is a tracked document whose [state] is
    null; a document's state is its keyed store of cached logs. *)
Record World := mkWorld {
  documents : gmap (string * string) (gmap string CachedLog.t);
  requests : list RemoteCall;
}.

Definition Async (A : Type) : Type := World -> Outcome A * World.

Definition ret {A} (a : A) : Async A := fun w => (Returns a, w).

Definition throw {A} (ex : string) : Async A := fun w => (Throws ex, w).

Definition bind {A B} (c : Async A) (k : A -> Async B) : Async B :=
  fun w =>
    match c w with
    | (Returns a, w') => k a w'
    | (Throws ex, w') => (Throws ex, w')
    end.

(** [try { c } catch (ex) { handler(ex) }], also [promise.catch(handler)] *)
Definition tryCatch {A} (c : Async A) (handler : string -> Async A) : Async A :=
  fun w =>
    match c w with
    | (Returns a, w') => (Returns a, w')
    | (Throws ex, w') => handler ex w'
    end.

(** Awaiting a collaborator that keeps no state of its own here. *)
Definition await {A} (o : Outcome A) : Async A := fun w => (o, w).

(** A request to the remote client: it is recorded, and the answer may
    depend on everything requested before. *)
Definition remote {A} (call : RemoteCall)
    (answer : list RemoteCall -> Outcome A) : Async A :=
  fun w =>
    (answer (requests w), mkWorld (documents w) (requests w ++ [call])).

Declare Scope async_scope.
Delimit Scope async_scope with async.
Notation "x <- c ;; k" := (bind c (fun x => k))
  (at level 100, c at next level, right associativity) : async_scope.
Notation "c ;;; k" := (bind c (fun _ => k))
  (at level 100, right associativity) : async_scope.

(** [doc.state?.getLog(key)] on the document of a (repository, path) pair *)
Definition getCachedLog (doc : string * string) (key : string) (w : World)
    : option CachedLog.t :=
  match documents w !! doc with
  | Some state => state !! key
  | None => None
  end.

(** [doc.state ??= new GitDocumentState()] *)
Definition ensureState (doc : string * string) : Async unit :=
  fun w =>
    match documents w !! doc with
    | Some _ => (Returns tt, w)
    | None => (Returns tt, mkWorld (<[doc := ∅]> (documents w)) (requests w))
    end.

(** [if (doc?.state != null) doc.state.setLog(key, value)] *)
Definition setLogEntry (doc : string * string) (key : string)
    (value : CachedLog.t) : Async unit :=
  fun w =>
    match documents w !! doc with
    | Some state =>
        (Returns tt,
         mkWorld (<[doc := <[key := value]> state]> (documents w)) (requests w))
    | None => (Returns tt, w)
    end.

(** ** Collaborators outside src/ *)

Module RepositoryContext.
Record t := mk {
  owner : string;
  name : string;
  accessToken : string;
  (** [session.account.label] *)
  accountLabel : option string;
  (** [(await metadata.getRevision()).revision] *)
  getRevision : Outcome string;
}.
End RepositoryContext.

(** The provider, the path helpers, the search helpers and the remote
    client: none of them is under src/, so they are taken as given. The
    remote client answers from the requests recorded so far. *)
Record Collaborators := mkCollaborators {
  getPagingLimit : option Z -> Z;
  getRelativePath : string -> string -> string;
  getAbsoluteUri : string -> string -> string;
  getProviderRootUri : string -> string;
  stripOrigin : string -> string;
  isFolderGlob : string -> bool;
  stripFolderGlob : string -> string;
  (** [tree?.type] of [revision.getTreeEntryForRevision] *)
  getTreeEntryForRevision : string -> string -> string -> Outcome (option string);
  ensureRepositoryContext : string -> Outcome RepositoryContext.t;
  getCurrentUser : string -> Outcome (option string);
  isUncommitted : string -> bool -> bool;
  createUncommittedChangesCommit : string -> string -> option string -> GitCommit.t;
  fromCommitFileStatus : option string -> option GitFileIndexStatus;
  createRevisionRange : string -> string -> string -> string;
  parseSearchQuery : SearchQuery.t -> list (string * list string);
  getQueryArgsFromSearchQuery :
    SearchQuery.t -> list (string * list string) -> string -> Outcome (list string);
  processNaturalLanguageToSearchQuery :
    SearchQuery.t -> string -> Outcome SearchQuery.t;
  github_getCommit :
    list RemoteCall -> string -> string -> string -> string ->
    Outcome (option GitHubCommit.t);
  github_getCommits :
    list RemoteCall -> CommitsRequest.t -> Outcome CommitsResult.t;
  github_getComparison :
    list RemoteCall -> string -> string -> string -> string ->
    Outcome (option Comparison.t);
  github_searchCommits :
    list RemoteCall -> SearchRequest.t -> Outcome (option SearchResult.t);
}.

(** ** The commits sub-provider *)

Section CommitsGitSubProvider.

Context (P : Collaborators).

Local Open Scope async_scope.

(** [viewer != null && name === viewer ? 'You' : name] *)
Definition displayName (viewer : option string) (name : string) : string :=
  match viewer with
  | Some v => if decide (name = v) then "You" else name
  | None => name
  end.

(** [const { viewer = label } = x]: the default stands in for undefined
    only, and null stays null. What comes out is tested with
    [viewer != null], which null and undefined fail alike. *)
Definition viewerOr (viewer : Viewer) (label : option string) : option string :=
  match viewer with
  | ViewerName v => Some v
  | ViewerNull => None
  | ViewerUndefined => label
  end.

(** [new GitFileChange(container, repoPath, f.filename ?? '', ...)] *)
Definition toFileChange (repoPath : string) (f : GitHubFile.t) : GitFileChange.t :=
  GitFileChange.mk repoPath
    (default "" (GitHubFile.filename f))
    (default Modified (fromCommitFileStatus P (GitHubFile.status f)))
    (GitHubFile.previous_filename f)
    None
    (Some (GitFileChangeStats.mk
             (default 0 (GitHubFile.additions f))
             (default 0 (GitHubFile.deletions f))
             (default 0 (GitHubFile.changes f)))).

(** [new GitCommit(container, repoPath, commit.oid, author, committer,
    summary, parents, message, fileset, stats, [])] *)
Definition toCommit (repoPath : string) (viewer : option string)
    (commit : GitHubCommit.t) (fileset : option GitCommitFileset.t)
    : GitCommit.t :=
  let a := GitHubCommit.author commit in
  let c := GitHubCommit.committer commit in
  GitCommit.mk repoPath (GitHubCommit.oid commit)
    (GitCommitIdentity.mk (displayName viewer (GitHubIdentity.name a))
       (GitHubIdentity.email a) (GitHubIdentity.date a)
       (GitHubIdentity.avatarUrl a))
    (GitCommitIdentity.mk (displayName viewer (GitHubIdentity.name c))
       (GitHubIdentity.email c) (GitHubIdentity.date c) None)
    (firstLine (GitHubCommit.message commit))
    (GitHubCommit.parents commit)
    (GitHubCommit.message commit)
    fileset
    (GitCommitStats.mk
       (default 0 (GitHubCommit.changedFiles commit))
       (default 0 (GitHubCommit.additions commit))
       (default 0 (GitHubCommit.deletions commit)))
    [].

(** [!rev || rev === 'HEAD' ? (await metadata.getRevision()).revision : rev] *)
Definition resolveRevision (ctx : RepositoryContext.t) (rev : option string)
    : Async string :=
  match rev with
  | Some r =>
      if truthy r && negb (bool_decide (r = "HEAD")) then ret r
      else await (RepositoryContext.getRevision ctx)
  | None => await (RepositoryContext.getRevision ctx)
  end.

(** [options.since ? new Date(options.since) : undefined] *)
Definition sinceDate (since : option string) : option string :=
  if truthyOpt since then since else None.

(** [getCommit] *)
Definition getCommit (repoPath : option string) (rev : string)
    : Async (option GitCommit.t) :=
  match repoPath with
  | None => ret None
  | Some repoPath =>
      tryCatch
        (if isUncommitted P rev true then
           user <- await (getCurrentUser P repoPath) ;;
           ret (Some (createUncommittedChangesCommit P repoPath rev user))
         else
           ctx <- await (ensureRepositoryContext P repoPath) ;;
           let token := RepositoryContext.accessToken ctx in
           let owner := RepositoryContext.owner ctx in
           let name := RepositoryContext.name ctx in
           commit <- remote (CallGetCommit token owner name (stripOrigin P rev))
                       (fun h => github_getCommit P h token owner name
                                   (stripOrigin P rev)) ;;
           match commit with
           | None => ret None
           | Some commit =>
               let viewer := viewerOr (GitHubCommit.viewer commit)
                               (RepositoryContext.accountLabel ctx) in
               ret (Some (toCommit repoPath viewer commit
                            (Some (GitCommitFileset.mk
                                     (map (toFileChange repoPath)
                                        <$> GitHubCommit.files commit)
                                     None))))
           end)
        (fun _ => ret None)
  end.

(** The loop of [getLog] and [searchCommits] over a page: the first
    record of an id is kept. *)
Definition collectCommits (repoPath : string) (viewer : option string)
    (values : list GitHubCommit.t) : JsMap.t GitCommit.t :=
  foldl
    (fun commits commit =>
       match JsMap.get (GitHubCommit.oid commit) commits with
       | None =>
           JsMap.set (GitHubCommit.oid commit)
             (toCommit repoPath viewer commit
                (match GitHubCommit.files commit with
                 | Some files =>
                     Some (GitCommitFileset.mk
                             (Some (map (toFileChange repoPath) files)) None)
                 | None => None
                 end))
             commits
       | Some _ => commits
       end)
    JsMap.empty values.

(** [if (log.hasMore) log.more = fn] *)
Definition attachMore (log : GitLog.core) (fn : GitLog.MoreFn) : GitLog.t :=
  GitLog.mk log (if GitLog.hasMore log then Some fn else None).

(** [getLog] *)
Definition getLog (repoPath : option string) (rev : option string)
    (options : option GitLogOptions.t) : Async (option GitLog.t) :=
  match repoPath with
  | None => ret None
  | Some repoPath =>
      let limit := getPagingLimit P (options ≫= GitLogOptions.limit) in
      tryCatch
        (ctx <- await (ensureRepositoryContext P repoPath) ;;
         rev <- resolveRevision ctx rev ;;
         let request :=
           CommitsRequest.mk (RepositoryContext.accessToken ctx)
             (RepositoryContext.owner ctx) (RepositoryContext.name ctx)
             (stripOrigin P rev)
             (options ≫= GitLogOptions.all)
             (options ≫= GitLogOptions.authors)
             (options ≫= GitLogOptions.cursor)
             None
             (Some limit)
             (sinceDate (options ≫= GitLogOptions.since)) in
         result <- remote (CallGetCommits request)
                     (fun h => github_getCommits P h request) ;;
         let viewer := viewerOr (CommitsResult.viewer result)
                         (RepositoryContext.accountLabel ctx) in
         let commits := collectCommits repoPath viewer
                          (CommitsResult.values result) in
         let log :=
           GitLog.mkCore repoPath commits (Some rev) (JsMap.size commits)
             (Some limit)
             (default false (Paging.more <$> CommitsResult.paging result))
             None
             (CommitsResult.paging result ≫= Paging.cursor)
             None
             (Some (QueryLog repoPath (Some rev) options)) in
         ret (Some (attachMore log (GitLog.LogMoreFn log (Some rev) options))))
        (fun _ => ret None)
  end.

(** [limit != null && typeof limit === 'object' ? limit.until : undefined] *)
Definition moreUntilOf (limit : option MoreArg) : option string :=
  match limit with Some (MoreUntil u) => Some u | _ => None end.

(** [typeof limit === 'number' ? limit : undefined] *)
Definition moreLimitOf (limit : option MoreArg) : option Z :=
  match limit with Some (MoreLimit n) => Some n | _ => None end.

(** [moreUntil && some(log.commits.values(), c => c.ref === moreUntil)] *)
Definition untilReached (log : GitLog.core) (moreUntil : option string) : bool :=
  match moreUntil with
  | Some u =>
      truthy u &&
      some (JsMap.values (GitLog.commits log))
        (fun c => bool_decide (GitCommit.ref c = u))
  | None => false
  end.

(** [{ ...log, hasMore: false, more: undefined }] *)
Definition exhausted (log : GitLog.core) : GitLog.t :=
  GitLog.mk (GitLog.with_hasMore log false) None.

(** [new Map([...log.commits, ...moreLog.commits])] *)
Definition mergeCommits (log moreLog : JsMap.t GitCommit.t)
    : JsMap.t GitCommit.t :=
  JsMap.of_entries (JsMap.entries log ++ JsMap.entries moreLog).

(** What the [pagedCommits] thunk returns: the page's commits after
    [delete] of every key of the prior log. *)
Definition pagedCommitsOf (log moreLog : JsMap.t GitCommit.t)
    : JsMap.t GitCommit.t :=
  foldl (fun page sha => JsMap.delete sha page) moreLog (JsMap.keys log).

(** The closure returned by [getLogMoreFn(log, rev, options)] *)
Definition getLogMoreFn (log : GitLog.core) (rev : option string)
    (options : option GitLogOptions.t) (limit : option MoreArg)
    : Async GitLog.t :=
  let moreUntil := moreUntilOf limit in
  let moreLimit := moreLimitOf limit in
  if untilReached log moreUntil then
    ret (GitLog.captured (GitLog.LogMoreFn log rev options))
  else
    let moreLimit := getPagingLimit P moreLimit in
    moreLog <- getLog (Some (GitLog.repoPath log)) rev
                 (Some (GitLogOptions.with_limit_cursor
                          (default GitLogOptions.none options)
                          (Some moreLimit) (GitLog.endingCursor log))) ;;
    match moreLog with
    | None => ret (exhausted log)
    | Some moreLog =>
        let commits := mergeCommits (GitLog.commits log) (GitLog.commits moreLog) in
        let mergedLog :=
          GitLog.mkCore (GitLog.repoPath log) commits (GitLog.sha log)
            (JsMap.size commits)
            (match moreUntil with
             | None => Some (default 0 (GitLog.limit log) + moreLimit)
             | Some _ => None
             end)
            (match moreUntil with
             | None => GitLog.hasMore moreLog
             | Some _ => true
             end)
            (fst <$> last_entry (JsMap.entries (GitLog.commits log)))
            (GitLog.endingCursor moreLog)
            (Some (pagedCommitsOf (GitLog.commits log) (GitLog.commits moreLog)))
            (GitLog.query log) in
        ret (attachMore mergedLog (GitLog.LogMoreFn mergedLog rev options))
    end.

(** The cache key of [getLogForPath]; [None] when the query is not cached. *)
Definition logCacheKey (rev : option string) (options : GitLogForPathOptions.t)
    : option string :=
  if negb (default false (GitLogForPathOptions.isFolder options))
     && bool_decide (GitLogForPathOptions.authors options = None)
     && bool_decide (GitLogForPathOptions.cursor options = None)
     && bool_decide (GitLogForPathOptions.filters options = None)
     && bool_decide (GitLogForPathOptions.range options = None)
     && bool_decide (GitLogForPathOptions.since options = None)
     && bool_decide (GitLogForPathOptions.until options = None)
  then
    let cacheKey := "log" in
    let cacheKey :=
      match rev with Some r => cacheKey +:+ ":" +:+ r | None => cacheKey end in
    let cacheKey :=
      if default false (GitLogForPathOptions.all options)
      then cacheKey +:+ ":all" else cacheKey in
    let cacheKey :=
      match GitLogForPathOptions.limit options with
      | Some n => if bool_decide (n = 0) then cacheKey
                  else cacheKey +:+ ":n" +:+ pretty n
      | None => cacheKey
      end in
    let cacheKey :=
      match GitLogForPathOptions.merges options with
      | Some m => if mergesTruthy (Some m)
                  then cacheKey +:+ ":merges=" +:+ mergesToString m
                  else cacheKey
      | None => cacheKey
      end in
    let cacheKey :=
      match GitLogForPathOptions.ordering options with
      | Some o => if truthy o then cacheKey +:+ ":ordering=" +:+ o else cacheKey
      | None => cacheKey
      end in
    let cacheKey :=
      if default false (GitLogForPathOptions.renames options)
      then cacheKey +:+ ":follow" else cacheKey in
    Some cacheKey
  else None.

(** The key of the log of the whole file:
    [`log${options.renames ? ':follow' : ''}`] *)
Definition wholeFileKey (options : GitLogForPathOptions.t) : string :=
  "log" +:+ (if default false (GitLogForPathOptions.renames options)
             then ":follow" else "").

(** The callback given to [filterMap] when a log is copied from the
    requested commit on; its variables are [skip] and [i]. *)
Definition copyFrom (rev : string) (limit : option Z)
    (vars : bool * Z) (entry : string * GitCommit.t)
    : (bool * Z) * option (string * GitCommit.t) :=
  let '(skip, i) := vars in
  if skip && negb (bool_decide (entry.1 = rev)) then ((skip, i), None)
  else
    let i := i + 1 in
    match limit with
    | Some n => if bool_decide (i > n) then ((false, i), None)
                else ((false, i), Some entry)
    | None => ((false, i), Some entry)
    end.

(** The copy of a cached log of the whole file, starting at [rev]:
    [{ ...log, limit, count, commits, query }] *)
Definition copyLogFrom (log : GitLog.t) (repoPath pathOrUri rev : string)
    (options : GitLogForPathOptions.t) : GitLog.t :=
  let commits :=
    JsMap.of_entries
      (filterMap (copyFrom rev (GitLogForPathOptions.limit options))
         (true, 0) (JsMap.entries (GitLog.commits log))) in
  GitLog.mk
    (GitLog.mkCore (GitLog.repoPath log) commits (GitLog.sha log)
       (JsMap.size commits) (GitLogForPathOptions.limit options)
       (GitLog.hasMore log) (GitLog.startingCursor log)
       (GitLog.endingCursor log) (GitLog.pagedCommits log)
       (Some (QueryLogForPath repoPath pathOrUri (Some rev) options)))
    (GitLog.more log).

(** The cache lookups of [getLogForPath] once the document has a state:
    [Some r] when the method returns [r] from the cache, [None] on a
    miss. *)
Definition lookupLogForPath (state : gmap string CachedLog.t)
    (cacheKey : string) (repoPath pathOrUri : string) (rev : option string)
    (options : GitLogForPathOptions.t) : option (option GitLog.t) :=
  match state !! cacheKey with
  | Some cachedLog => Some (CachedLog.item cachedLog)
  | None =>
      if bool_decide (rev ≠ None)
         || bool_decide (GitLogForPathOptions.limit options ≠ None) then
        match state !! wholeFileKey options with
        | Some cachedLog =>
            match rev with
            | None => Some (CachedLog.item cachedLog)
            | Some rev =>
                match CachedLog.item cachedLog with
                | Some log =>
                    if negb (GitLog.hasMore log)
                       && JsMap.has rev (GitLog.commits log)
                    then Some (Some (copyLogFrom log repoPath pathOrUri rev options))
                    else None
                | None => None
                end
            end
        | None => None
        end
      else None
  end.

(** The first file whose path is [relativePath] gives way to a
    [Modified] change with the commit's own counts ([findIndex], then
    [splice(index, 1, ...)]). *)
Definition reconcileFile (repoPath relativePath : string)
    (commit : GitHubCommit.t) (files : list GitFileChange.t)
    : list GitFileChange.t :=
  match list_find (fun f => GitFileChange.path f = relativePath) files with
  | Some (index, _) =>
      <[index :=
          GitFileChange.mk repoPath relativePath Modified None None
            (if bool_decide (GitHubCommit.changedFiles commit = Some 1)
             then Some (GitFileChangeStats.mk
                          (default 0 (GitHubCommit.additions commit))
                          (default 0 (GitHubCommit.deletions commit))
                          0)
             else None)]> files
  | None => files
  end.

(** The loop of [getLogForPathCore] over a page. *)
Definition collectPathCommits (repoPath relativePath : string)
    (options : GitLogForPathOptions.t) (viewer : option string)
    (values : list GitHubCommit.t) : JsMap.t GitCommit.t :=
  foldl
    (fun commits commit =>
       match JsMap.get (GitHubCommit.oid commit) commits with
       | None =>
           let files := map (toFileChange repoPath) <$> GitHubCommit.files commit in
           let files :=
             match files with
             | Some fs =>
                 if negb (default false (GitLogForPathOptions.isFolder options))
                    && bool_decide (GitHubCommit.changedFiles commit = Some 1)
                 then Some (reconcileFile repoPath relativePath commit fs)
                 else Some fs
             | None => None
             end in
           JsMap.set (GitHubCommit.oid commit)
             (toCommit repoPath viewer commit
                (Some (GitCommitFileset.mk None
                         (Some (GitCommitFileset.mkFiltered files relativePath)))))
             commits
       | Some _ => commits
       end)
    JsMap.empty values.

(** [getLogForPathCore] *)
Definition getLogForPathCore (repoPath : option string) (path : string)
    (rev : option string) (options : GitLogForPathOptions.t)
    : Async (option GitLog.t) :=
  match repoPath with
  | None => ret None
  | Some repoPath =>
      let limit := getPagingLimit P (GitLogForPathOptions.limit options) in
      ctx <- await (ensureRepositoryContext P repoPath) ;;
      let uri := getAbsoluteUri P path repoPath in
      let relativePath := getRelativePath P uri (getProviderRootUri P uri) in
      rev <- resolveRevision ctx rev ;;
      let request :=
        CommitsRequest.mk (RepositoryContext.accessToken ctx)
          (RepositoryContext.owner ctx) (RepositoryContext.name ctx)
          (stripOrigin P rev)
          (GitLogForPathOptions.all options)
          None
          (GitLogForPathOptions.cursor options)
          (Some relativePath)
          (Some limit)
          (sinceDate (GitLogForPathOptions.since options)) in
      result <- remote (CallGetCommits request)
                  (fun h => github_getCommits P h request) ;;
      let viewer := viewerOr (CommitsResult.viewer result)
                      (RepositoryContext.accountLabel ctx) in
      let commits := collectPathCommits repoPath relativePath options viewer
                       (CommitsResult.values result) in
      let log :=
        GitLog.mkCore repoPath commits (Some rev) (JsMap.size commits)
          (Some limit)
          (default false (Paging.more <$> CommitsResult.paging result))
          None
          (CommitsResult.paging result ≫= Paging.cursor)
          None
          (Some (QueryLogForPath repoPath path (Some rev) options)) in
      ret (Some (attachMore log
                   (GitLog.LogForPathMoreFn log path (Some rev) options)))
  end.

(** The options [getLogForPath] works with:
    [{ ...options, all: false, limit: getPagingLimit(options?.limit),
       renames: false }] *)
Definition effectiveOptions (options : option GitLogForPathOptions.t)
    : GitLogForPathOptions.t :=
  GitLogForPathOptions.with_all_limit_renames
    (default GitLogForPathOptions.none options)
    (Some false)
    (Some (getPagingLimit P (options ≫= GitLogForPathOptions.limit)))
    (Some false).

(** The path and the options once [isFolder] is settled. *)
Definition resolveFolder (repoPath relativePath : string)
    (rev : option string) (options : GitLogForPathOptions.t)
    : Async (string * GitLogForPathOptions.t) :=
  if isFolderGlob P relativePath then
    ret (stripFolderGlob P relativePath,
         GitLogForPathOptions.with_isFolder options (Some true))
  else
    match GitLogForPathOptions.isFolder options with
    | None =>
        tree <- await (getTreeEntryForRevision P repoPath
                         (if truthyOpt rev then default "HEAD" rev else "HEAD")
                         relativePath) ;;
        ret (relativePath,
             GitLogForPathOptions.with_isFolder options
               (Some (bool_decide (tree = Some "tree"))))
    | Some _ => ret (relativePath, options)
    end.

(** The fetch of [getLogForPath] and what it leaves in the cache. The
    promise of [getLogForPathCore(...).catch(...)] is stored under the
    key before it settles, and the handler of a rejection then stores
    [emptyPromise] with the message; the entry is written here with the
    value the promise settles to. *)
Definition fetchLogForPath (repoPath relativePath : string)
    (rev : option string) (options : GitLogForPathOptions.t)
    (cacheKey : option string) : Async (option GitLog.t) :=
  let doc := (repoPath, relativePath) in
  fun w =>
    match getLogForPathCore (Some repoPath) relativePath rev options w with
    | (Returns log, w') =>
        match cacheKey with
        | Some key =>
            (setLogEntry doc key (CachedLog.mk log None) ;;; ret log) w'
        | None => (Returns log, w')
        end
    | (Throws ex, w') =>
        match cacheKey with
        | Some key =>
            (setLogEntry doc key (CachedLog.mk emptyPromise None) ;;;
             setLogEntry doc key (CachedLog.mk emptyPromise (Some ex)) ;;;
             ret emptyPromise) w'
        | None => (Returns None, w')
        end
    end.

(** [getLogForPath] *)
Definition getLogForPath (repoPath : option string) (pathOrUri : string)
    (rev : option string) (options : option GitLogForPathOptions.t)
    : Async (option GitLog.t) :=
  match repoPath with
  | None => ret None
  | Some repoPath =>
      let relativePath := getRelativePath P pathOrUri repoPath in
      if decide (repoPath = relativePath) then
        throw ("Path cannot match the repository path; path=" +:+ relativePath)
      else
        let options := effectiveOptions options in
        resolved <- resolveFolder repoPath relativePath rev options ;;
        let '(relativePath, options) := resolved in
        let cacheKey := logCacheKey rev options in
        match cacheKey with
        | Some key =>
            let doc := (repoPath, relativePath) in
            fun w =>
              match
                match documents w !! doc with
                | Some state =>
                    lookupLogForPath state key repoPath pathOrUri rev options
                | None => None
                end
              with
              | Some cached => (Returns cached, w)
              | None =>
                  (ensureState doc ;;;
                   fetchLogForPath repoPath relativePath rev options cacheKey) w
              end
        | None => fetchLogForPath repoPath relativePath rev options cacheKey
        end
  end.

(** The closure returned by
    [getLogForPathMoreFn(log, relativePath, rev, options)] *)
Definition getLogForPathMoreFn (log : GitLog.core) (relativePath : string)
    (rev : option string) (options : GitLogForPathOptions.t)
    (limit : option MoreArg) : Async GitLog.t :=
  let moreUntil := moreUntilOf limit in
  let moreLimit := moreLimitOf limit in
  if untilReached log moreUntil then
    ret (GitLog.captured (GitLog.LogForPathMoreFn log relativePath rev options))
  else
    let moreLimit := getPagingLimit P moreLimit in
    moreLog <- getLogForPath (Some (GitLog.repoPath log)) relativePath rev
                 (Some (GitLogForPathOptions.with_limit_cursor options
                          (Some (match moreUntil with
                                 | None => moreLimit
                                 | Some _ => 0
                                 end))
                          (GitLog.endingCursor log))) ;;
    match moreLog with
    | None => ret (exhausted log)
    | Some moreLog =>
        let commits := mergeCommits (GitLog.commits log) (GitLog.commits moreLog) in
        let mergedLog :=
          GitLog.mkCore (GitLog.repoPath log) commits (GitLog.sha log)
            (JsMap.size commits)
            (match moreUntil with
             | None => Some (default 0 (GitLog.limit log) + moreLimit)
             | Some _ => None
             end)
            (match moreUntil with
             | None => GitLog.hasMore moreLog
             | Some _ => true
             end)
            None
            (GitLog.endingCursor moreLog)
            None
            (GitLog.query log) in
        ret (attachMore mergedLog
               (GitLog.LogForPathMoreFn mergedLog relativePath rev options))
    end.



(** [{ key: d, ...o }] at one key: the spread writes every key that [o]
    has, also one whose value is undefined, so [d] stays only where the
    key is absent. *)
Definition spreadOver {A} (d : A) (p : Property A) : Property A :=
  match p with
  | Absent => Present (Some d)
  | Present value => Present value
  end.

(** [{ matchAll: false, matchCase: false, matchRegex: true,
       matchWholeWord: false, ...search }]: the four defaults, each
    overwritten by the key of [search] if it has one; the other keys of
    [search] as they are. *)
Definition withSearchDefaults (search : SearchQuery.t) : SearchQuery.t :=
  SearchQuery.mk (SearchQuery.query search)
    (spreadOver false (SearchQuery.matchAll search))
    (spreadOver false (SearchQuery.matchCase search))
    (spreadOver true (SearchQuery.matchRegex search))
    (spreadOver false (SearchQuery.matchWholeWord search))
    (SearchQuery.naturalLanguage search).

(** [search.naturalLanguage && (typeof search.naturalLanguage !== 'object'
      || !search.naturalLanguage.processedQuery)] *)
Definition needsProcessing (search : SearchQuery.t) : bool :=
  match SearchQuery.naturalLanguage search with
  | Present (Some (NLFlag b)) => b
  | Present (Some (NLObject processedQuery)) => negb (truthyOpt processedQuery)
  | Present None | Absent => false
  end.

(** The [sort] argument of the remote search *)
Definition searchSort (ordering : option string) : option string :=
  match ordering with
  | Some o =>
      if decide (o = "date") then Some "committer-date"
      else if decide (o = "author-date") then Some "author-date"
      else None
  | None => None
  end.

(** [searchCommits]; the result is the pair [{ search, log }]. *)
Definition searchCommits (repoPath : option string) (search : SearchQuery.t)
    (source : string) (options : option GitSearchCommitsOptions.t)
    : Async (SearchQuery.t * option GitLog.t) :=
  match repoPath with
  | None => ret (search, None)
  | Some repoPath =>
      let search := withSearchDefaults search in
      search <- (if needsProcessing search
                 then await (processNaturalLanguageToSearchQuery P search source)
                 else ret search) ;;
      let operations := parseSearchQuery P search in
      match JsMap.get "commit:" operations with
      | Some (value :: _) =>
          commit <- getCommit (Some repoPath) value ;;
          match commit with
          | None => ret (search, None)
          | Some commit =>
              ret (search,
                   Some (GitLog.mk
                           (GitLog.mkCore repoPath
                              (JsMap.of_entries [(GitCommit.sha commit, commit)])
                              (Some (GitCommit.sha commit)) 1 (Some 1) false
                              None None None None)
                           None))
          end
      | _ =>
          queryArgs <- await (getQueryArgsFromSearchQuery P search operations
                                repoPath) ;;
          match queryArgs with
          | [] => ret (search, None)
          | _ =>
              let limit :=
                getPagingLimit P (options ≫= GitSearchCommitsOptions.limit) in
              tryCatch
                (ctx <- await (ensureRepositoryContext P repoPath) ;;
                 let query :=
                   "repo:" +:+ RepositoryContext.owner ctx +:+ "/"
                   +:+ RepositoryContext.name ctx +:+ "+"
                   +:+ trim (join "+" queryArgs) in
                 let request :=
                   SearchRequest.mk (RepositoryContext.accessToken ctx) query
                     (options ≫= GitSearchCommitsOptions.cursor)
                     (Some limit)
                     (searchSort (options ≫= GitSearchCommitsOptions.ordering)) in
                 result <- remote (CallSearchCommits request)
                             (fun h => github_searchCommits P h request) ;;
                 match result with
                 | None => ret (search, None)
                 | Some result =>
                     let viewer := RepositoryContext.accountLabel ctx in
                     let commits := collectCommits repoPath viewer
                                      (SearchResult.values result) in
                     let log :=
                       GitLog.mkCore repoPath commits None (JsMap.size commits)
                         (Some limit)
                         (default false
                            (PageInfo.hasNextPage <$> SearchResult.pageInfo result))
                         None
                         (SearchResult.pageInfo result ≫= PageInfo.endCursor)
                         None
                         (Some (QuerySearch repoPath options)) in
                     ret (search,
                          Some (attachMore log
                                  (GitLog.SearchMoreFn log search source options)))
                 end)
                (fun _ => ret (search, None))
          end
      end
  end.

(** The closure returned by [searchCommitsCore.call(this, log)] inside
    [searchCommits] *)
Definition searchCommitsCore (log : GitLog.core) (search : SearchQuery.t)
    (source : string) (options : option GitSearchCommitsOptions.t)
    (limit : option Z) : Async GitLog.t :=
  let limit := getPagingLimit P limit in
  result <- searchCommits (Some (GitLog.repoPath log)) search source
              (Some (GitSearchCommitsOptions.with_limit_cursor
                       (default GitSearchCommitsOptions.none options)
                       (Some limit) (GitLog.endingCursor log))) ;;
  match result.2 with
  | None => ret (exhausted log)
  | Some moreLog =>
      let commits := mergeCommits (GitLog.commits log) (GitLog.commits moreLog) in
      let mergedLog :=
        GitLog.mkCore (GitLog.repoPath log) commits (GitLog.sha log)
          (JsMap.size commits)
          (Some (default 0 (GitLog.limit log) + limit))
          (GitLog.hasMore moreLog)
          None
          (GitLog.endingCursor moreLog)
          None
          (GitLog.query log) in
      ret (attachMore mergedLog
             (GitLog.SearchMoreFn mergedLog search source options))
  end.

(** [log.more(limit)] for a closure [fn]. The closure of a search is
    declared over [number | undefined]; it is given the number, if any. *)
Definition callMore (fn : GitLog.MoreFn) (limit : option MoreArg)
    : Async GitLog.t :=
  match fn with
  | GitLog.LogMoreFn log rev options => getLogMoreFn log rev options limit
  | GitLog.LogForPathMoreFn log relativePath rev options =>
      getLogForPathMoreFn log relativePath rev options limit
  | GitLog.SearchMoreFn log search source options =>
      searchCommitsCore log search source options (moreLimitOf limit)
  end.

End CommitsGitSubProvider.

(** ** Statements in the spec's words *)

(** "skips entries until the requested start revision is reached
    (inclusive), then takes at most limit entries from that point
    forward" *)
Fixpoint skipUntil {V} (rev : string) (es : list (string * V))
    : list (string * V) :=
  match es with
  | [] => []
  | e :: rest => if decide (e.1 = rev) then e :: rest else skipUntil rev rest
  end.

Definition sliceFrom {V} (rev : string) (limit : Z) (es : list (string * V))
    : list (string * V) :=
  take (Z.to_nat limit) (skipUntil rev es).

(** "count == commits.size", "no id appears twice", "if hasMore is false,
    more must be absent"; and a continuation belongs to the log that
    carries it. *)
Record log_ok (log : GitLog.t) : Prop := mk_log_ok {
  ok_unique : NoDup (JsMap.keys (GitLog.commits log));
  ok_count : GitLog.count log = JsMap.size (GitLog.commits log);
  ok_more : GitLog.hasMore log = false -> GitLog.more log = None;
  ok_captured : forall fn, GitLog.more log = Some fn -> GitLog.captured fn = log;
}.

(** Every log held by the cache is well formed. *)
Definition cache_ok (w : World) : Prop :=
  forall doc state key cached log,
    documents w !! doc = Some state ->
    state !! key = Some cached ->
    CachedLog.item cached = Some log ->
    log_ok log.

(** ** Concrete collaborators, for examples *)

(** Modelled from the spec: [provider.getPagingLimit] is not under src/;
    section 4.2 has the caller-chosen page size "clamped to the system's
    paging-limit policy". This policy caps a page at [maxLimit] and
    falls back on [defaultLimit] when the caller names no size. *)
Definition clampPagingLimit (maxLimit defaultLimit : Z) (limit : option Z) : Z :=
  Z.min maxLimit (default defaultLimit limit).

Definition exampleContext : RepositoryContext.t :=
  RepositoryContext.mk "owner" "repo" "token" (Some "me") (Returns "c5").

(** Collaborators over a paging policy, an answer of the remote to
    [getCommits] and one to [getComparison]: paths are relative
    already, every path is a file, the repository context is there. *)
Definition exampleCollaborators (policy : option Z -> Z)
    (commitsAnswer : list RemoteCall -> CommitsRequest.t -> Outcome CommitsResult.t)
    (comparisonAnswer : Outcome (option Comparison.t)) : Collaborators :=
  mkCollaborators
    policy
    (fun pathOrUri _ => pathOrUri)
    (fun path _ => path)
    (fun _ => "")
    (fun rev => rev)
    (fun _ => false)
    (fun path => path)
    (fun _ _ _ => Returns (Some "blob"))
    (fun _ => Returns exampleContext)
    (fun _ => Returns None)
    (fun _ _ => false)
    (fun repoPath rev _ =>
       GitCommit.mk repoPath rev
         (GitCommitIdentity.mk "You" None "" None)
         (GitCommitIdentity.mk "You" None "" None)
         "" [] "" None (GitCommitStats.mk 0 0 0) [])
    (fun _ => None)
    (fun left right notation => left +:+ notation +:+ right)
    (fun _ => [])
    (fun _ _ _ => Returns [])
    (fun search _ => Returns search)
    (fun _ _ _ _ _ => Returns None)
    commitsAnswer
    (fun _ _ _ _ _ => comparisonAnswer)
    (fun _ _ => Returns None).

Definition exampleIdentity (name : string) : GitHubIdentity.t :=
  GitHubIdentity.mk name None "2024-01-01T00:00:00Z" None.

(** A record of the remote for the id [oid] with the message [message] *)
Definition exampleRecord (oid message : string) : GitHubCommit.t :=
  GitHubCommit.mk oid (exampleIdentity "ann") (exampleIdentity "ann")
    message [] None None None None ViewerUndefined.

(** The commit the provider makes of [exampleRecord oid message] *)
Definition exampleCommit (oid message : string) : GitCommit.t :=
  GitCommit.mk "repo" oid
    (GitCommitIdentity.mk "ann" None "2024-01-01T00:00:00Z" None)
    (GitCommitIdentity.mk "ann" None "2024-01-01T00:00:00Z" None)
    message [] message None (GitCommitStats.mk 0 0 0) [].

Definition exampleEntries (ids : list string) : JsMap.t GitCommit.t :=
  map (fun id => (id, exampleCommit id id)) ids.

(** A fully fetched log of the whole file, newest first *)
Definition wholeFileLog : GitLog.t :=
  GitLog.mk
    (GitLog.mkCore "repo" (exampleEntries ["c5"; "c4"; "c3"; "c2"; "c1"])
       (Some "c5") 5 None false None None None None)
    None.

(** A world whose document for ("repo", "file") holds [wholeFileLog]
    under the key of the whole file, and nothing else *)
Definition wholeFileWorld : World :=
  mkWorld {[ ("repo", "file") := {[ "log" := CachedLog.mk (Some wholeFileLog) None ]} ]} [].

(** The same with an earlier failure of the query for "c3", two at a
    time, held under that query's own key *)
Definition wholeFileWorldWithFailure : World :=
  mkWorld
    {[ ("repo", "file") :=
         <[ "log:c3:n2" := CachedLog.mk emptyPromise (Some "Error: boom") ]>
           {[ "log" := CachedLog.mk (Some wholeFileLog) None ]} ]}
    [].

(** A remote that rejects every request *)
Definition failingRemote : list RemoteCall -> CommitsRequest.t -> Outcome CommitsResult.t :=
  fun _ _ => Throws "Error: boom".

(** A remote that answers every request with the page [values], [paging] *)
Definition pageRemote (values : list GitHubCommit.t) (paging : option Paging.t)
    : list RemoteCall -> CommitsRequest.t -> Outcome CommitsResult.t :=
  fun _ _ => Returns (CommitsResult.mk values paging ViewerUndefined).

(** A first page [a, b, c] with more to come *)
Definition firstPage : GitLog.core :=
  GitLog.mkCore "repo" (exampleEntries ["a"; "b"; "c"]) (Some "a") 3
    (Some 3) true None (Some "cursor1") None
    (Some (QueryLog "repo" (Some "a") None)).

(** The next page of the remote: [c] again, then [d] and [e] *)
Definition secondPage : list GitHubCommit.t :=
  [exampleRecord "c" "c, as the second page has it";
   exampleRecord "d" "d"; exampleRecord "e" "e"].

Definition emptyWorld : World := mkWorld ∅ [].

Definition examplePolicy : option Z -> Z := clampPagingLimit 100 50.

(** A policy that grants two entries a page at most *)
Definition tightPolicy : option Z -> Z := clampPagingLimit 2 2.

Definition failingProvider : Collaborators :=
  exampleCollaborators examplePolicy failingRemote (Returns None).

Definition tightProvider : Collaborators :=
  exampleCollaborators tightPolicy failingRemote (Returns None).

Definition secondPageProvider : Collaborators :=
  exampleCollaborators examplePolicy
    (pageRemote secondPage (Some (Paging.mk false (Some "cursor2"))))
    (Returns None).

Definition emptyPageProvider : Collaborators :=
  exampleCollaborators examplePolicy (pageRemote [] None) (Returns None).

Definition behindProvider : Collaborators :=
  exampleCollaborators examplePolicy failingRemote
    (Returns (Some (Comparison.mk (Some "behind") 0 2))).


(** The options [{ limit: n }] *)
Definition limitOption (n : Z) : option GitLogForPathOptions.t :=
  Some (GitLogForPathOptions.with_limit GitLogForPathOptions.none (Some n)).

(** * More of the code *)

(** ** More of the sub-provider *)

Module LeftRightCommitCountResult.
Record t := mk { left : Z; right : Z }.
End LeftRightCommitCountResult.

(** [GitLogShasOptions]: one object that [getLogShas] hands to [getLog]
    and to [getLogForPath]; [logOptions] is what the first reads of it,
    [pathOptions] what the second reads of it. *)
Module GitLogShasOptions.
Record t := mk {
  pathOrUri : option string;
  logOptions : GitLogOptions.t;
  pathOptions : GitLogForPathOptions.t;
}.
End GitLogShasOptions.

Section MoreOfTheSubProvider.

Context (P : Collaborators).

(** The constant [deletedOrMissing] of [git/models/revision] *)
Context (deletedOrMissing : string).

Local Open Scope async_scope.

(** [getLeftRightCommitCount] *)
Definition getLeftRightCommitCount (repoPath : option string) (range : string)
    : Async (option LeftRightCommitCountResult.t) :=
  match repoPath with
  | None => ret None
  | Some repoPath =>
      ctx <- await (ensureRepositoryContext P repoPath) ;;
      let token := RepositoryContext.accessToken ctx in
      let owner := RepositoryContext.owner ctx in
      let name := RepositoryContext.name ctx in
      tryCatch
        (result <- remote (CallGetComparison token owner name (stripOrigin P range))
                     (fun h => github_getComparison P h token owner name
                                 (stripOrigin P range)) ;;
         match result with
         | None => ret None
         | Some result =>
             ret (Some (LeftRightCommitCountResult.mk
                          (Comparison.behind_by result)
                          (Comparison.ahead_by result)))
         end)
        (fun _ => ret None)
  end.

(** [getCommitFiles]; [isUncommitted(rev)] leaves its second argument
    out, which is read as false. *)
Definition getCommitFiles (repoPath : option string) (rev : string)
    : Async (list GitFileChange.t) :=
  if bool_decide (rev = deletedOrMissing) || isUncommitted P rev false then ret []
  else
    commit <- getCommit P repoPath rev ;;
    ret (default []
           ((commit ≫= GitCommit.fileset) ≫= GitCommitFileset.files)).

(** [getLogShas] *)
Definition getLogShas (repoPath : option string) (rev : option string)
    (options : option GitLogShasOptions.t) : Async (list string) :=
  log <- match options ≫= GitLogShasOptions.pathOrUri with
         | Some pathOrUri =>
             getLogForPath P repoPath pathOrUri rev
               (GitLogShasOptions.pathOptions <$> options)
         | None =>
             getLog P repoPath rev (GitLogShasOptions.logOptions <$> options)
         end ;;
  match log with
  | None => ret []
  | Some log => ret (map GitCommit.ref (JsMap.values (GitLog.commits log)))
  end.

End MoreOfTheSubProvider.

(** ** Properties of pages and logs *)

(** The ids of a page in the order they first appear *)
Fixpoint firstOccurrences (ids : list string) : list string :=
  match ids with
  | [] => []
  | id :: rest => id :: filter (fun x => x <> id) (firstOccurrences rest)
  end.

(** The first record of a page that carries the id [k] *)
Definition firstRecord (k : string) (values : list GitHubCommit.t)
    : option GitHubCommit.t :=
  snd <$> list_find (fun commit => GitHubCommit.oid commit = k) values.

(** Every commit of the map sits under its own sha. *)
Definition keyed (m : JsMap.t GitCommit.t) : Prop :=
  Forall (fun e => GitCommit.sha e.2 = e.1) m.

(** Every log held by the cache keeps its commits under their shas. *)
Definition cache_keyed (w : World) : Prop :=
  forall doc state key cached log,
    documents w !! doc = Some state ->
    state !! key = Some cached ->
    CachedLog.item cached = Some log ->
    keyed (GitLog.commits log).

(** The file set of a commit is the filtered one of [pathspec] and
    nothing else. *)
Definition filteredFor (pathspec : string) (c : GitCommit.t) : Prop :=
  exists files,
    GitCommit.fileset c
    = Some (GitCommitFileset.mk None
              (Some (GitCommitFileset.mkFiltered files pathspec))).

(** The file set of a commit, if it has one, is complete. *)
Definition completeFiles (c : GitCommit.t) : Prop :=
  match GitCommit.fileset c with
  | Some fileset =>
      GitCommitFileset.filtered fileset = None
      /\ GitCommitFileset.files fileset <> None
  | None => True
  end.

(** The query is one [getLogForPath] keeps out of the cache: a folder,
    or one with authors, a cursor, filters, a range, [since] or
    [until]. *)
Definition uncacheable (options : GitLogForPathOptions.t) : Prop :=
  GitLogForPathOptions.isFolder options = Some true
  \/ GitLogForPathOptions.authors options <> None
  \/ GitLogForPathOptions.cursor options <> None
  \/ GitLogForPathOptions.filters options <> None
  \/ GitLogForPathOptions.range options <> None
  \/ GitLogForPathOptions.since options <> None
  \/ GitLogForPathOptions.until options <> None.

(** The string has a line feed in it. *)
Fixpoint hasNewline (s : string) : Prop :=
  match s with
  | EmptyString => False
  | String c rest => c = newline \/ hasNewline rest
  end.

(** The commit [getLog] and [searchCommits] make of a record of a page *)
Definition pageCommit (P : Collaborators) (repoPath : string)
    (viewer : option string) (commit : GitHubCommit.t) : GitCommit.t :=
  toCommit repoPath viewer commit
    (match GitHubCommit.files commit with
     | Some files =>
         Some (GitCommitFileset.mk
                 (Some (map (toFileChange P repoPath) files)) None)
     | None => None
     end).

(** The commit [getLogForPathCore] makes of a record of a page *)
Definition pathPageCommit (P : Collaborators) (repoPath relativePath : string)
    (options : GitLogForPathOptions.t) (viewer : option string)
    (commit : GitHubCommit.t) : GitCommit.t :=
  toCommit repoPath viewer commit
    (Some (GitCommitFileset.mk None
             (Some (GitCommitFileset.mkFiltered
                      (match map (toFileChange P repoPath)
                               <$> GitHubCommit.files commit with
                       | Some fs =>
                           if negb (default false
                                      (GitLogForPathOptions.isFolder options))
                              && bool_decide
                                   (GitHubCommit.changedFiles commit = Some 1)
                           then Some (reconcileFile repoPath relativePath commit fs)
                           else Some fs
                       | None => None
                       end)
                      relativePath)))).

(** The loop over a page, for any way [make] to build a commit *)
Definition collectWith (make : GitHubCommit.t -> GitCommit.t)
    (commits : JsMap.t GitCommit.t) (values : list GitHubCommit.t)
    : JsMap.t GitCommit.t :=
  foldl
    (fun commits commit =>
       match JsMap.get (GitHubCommit.oid commit) commits with
       | None => JsMap.set (GitHubCommit.oid commit) (make commit) commits
       | Some _ => commits
       end)
    commits values.

(** No document holds a log under the key of the whole file. *)
Definition noWholeFileLog (w : World) : Prop :=
  forall doc state, documents w !! doc = Some state -> state !! "log" = None.

(** ** Collaborators for more examples *)

(** A paging policy in the way of the provider's: a hundred a page at
    most, fifty when the caller names no size, and a hundred when that
    comes to none. It never grants 0. *)
Definition nonZeroPolicy (limit : option Z) : Z :=
  let n := clampPagingLimit 100 50 limit in
  if bool_decide (n = 0) then 100 else n.

Definition nonZeroProvider : Collaborators :=
  exampleCollaborators nonZeroPolicy
    (pageRemote secondPage (Some (Paging.mk false (Some "cursor2"))))
    (Returns None).

(** [P] with a repository context that is refused *)
Definition withoutContext (P : Collaborators) : Collaborators :=
  mkCollaborators
    (getPagingLimit P) (getRelativePath P) (getAbsoluteUri P)
    (getProviderRootUri P) (stripOrigin P) (isFolderGlob P) (stripFolderGlob P)
    (getTreeEntryForRevision P)
    (fun _ => Throws "Error: no repository")
    (getCurrentUser P) (isUncommitted P) (createUncommittedChangesCommit P)
    (fromCommitFileStatus P) (createRevisionRange P) (parseSearchQuery P)
    (getQueryArgsFromSearchQuery P) (processNaturalLanguageToSearchQuery P)
    (github_getCommit P) (github_getCommits P) (github_getComparison P)
    (github_searchCommits P).

(** [P] with a tree lookup that is refused *)
Definition withoutTree (P : Collaborators) : Collaborators :=
  mkCollaborators
    (getPagingLimit P) (getRelativePath P) (getAbsoluteUri P)
    (getProviderRootUri P) (stripOrigin P) (isFolderGlob P) (stripFolderGlob P)
    (fun _ _ _ => Throws "Error: no tree")
    (ensureRepositoryContext P)
    (getCurrentUser P) (isUncommitted P) (createUncommittedChangesCommit P)
    (fromCommitFileStatus P) (createRevisionRange P) (parseSearchQuery P)
    (getQueryArgsFromSearchQuery P) (processNaturalLanguageToSearchQuery P)
    (github_getCommit P) (github_getCommits P) (github_getComparison P)
    (github_searchCommits P).

(** [P] with a search whose arguments cannot be built *)
Definition withoutQueryArgs (P : Collaborators) : Collaborators :=
  mkCollaborators
    (getPagingLimit P) (getRelativePath P) (getAbsoluteUri P)
    (getProviderRootUri P) (stripOrigin P) (isFolderGlob P) (stripFolderGlob P)
    (getTreeEntryForRevision P)
    (ensureRepositoryContext P)
    (getCurrentUser P) (isUncommitted P) (createUncommittedChangesCommit P)
    (fromCommitFileStatus P) (createRevisionRange P) (parseSearchQuery P)
    (fun _ _ _ => Throws "Error: no query")
    (processNaturalLanguageToSearchQuery P)
    (github_getCommit P) (github_getCommits P) (github_getComparison P)
    (github_searchCommits P).

(** The options [{ authors: [author] }] *)
Definition authorOption (author : string) : GitLogForPathOptions.t :=
  GitLogForPathOptions.mk None (Some [author]) None None None None None None
    None None None None.

(** * A contributor's node ([views/nodes/contributorNode]) *)

Module GitContributor.
Record t := mk {
  repoPath : string;
  name : string;
  email : option string;
  username : option string;
  id : option string;
}.
End GitContributor.

Module ContributorNode.

(** The [options] of the constructor ([presence] serves the tree item
    only); [pathspec] is [{ uri, isFolder }], whose [uri] is an object
    and so passes for true wherever it is tested. *)
Record options := mkOptions {
  all : option bool;
  ref : option string;
  showMergeCommits : option bool;
  pathspec : option (string * bool);
}.

(** The node as it is constructed: [uri] and [uri.repoPath], the
    contributor, the options, and [defaultItemLimit] and
    [pageItemLimit] of the view's [config]. *)
Record t := mk {
  uri : string;
  uriRepoPath : string;
  contributor : GitContributor.t;
  nodeOptions : option options;
  defaultItemLimit : Z;
  pageItemLimit : Z;
}.

(** The fields the methods assign, [_log] and [limit], with the number
    of calls of [triggerChange] so far. *)
Record state := mkState {
  _log : option GitLog.t;
  limit : option Z;
  changes : nat;
}.

(** [toClipboard] *)
Definition toClipboard (node : t) (type : option string) : string :=
  let name := GitContributor.name (contributor node) in
  let email := GitContributor.email (contributor node) in
  let text :=
    name +:+ (if truthyOpt email then " <" +:+ default "" email +:+ ">" else "") in
  match type with
  | Some type =>
      if decide (type = "markdown") then
        if truthyOpt email
        then "[" +:+ text +:+ "](mailto:" +:+ default "" email +:+ ")"
        else text
      else text
  | None => text
  end.

(** [getUrl] *)
Definition getUrl (node : t) : string :=
  let email := GitContributor.email (contributor node) in
  if truthyOpt email then "mailto:" +:+ default "" email else "".

(** [refresh] *)
Definition refresh (reset : option bool) (s : state) : state :=
  if default false reset then mkState None (limit s) (changes s) else s.

(** [get hasMore] *)
Definition hasMore (s : state) : bool :=
  match _log s with
  | Some log => GitLog.hasMore log
  | None => true
  end.

Section Methods.

(** [svc.commits] is the commits sub-provider of the repository of the
    node ([getRepositoryService(this.uri.repoPath!)], which is not under
    src/, binds the repository path). *)
Context (P : Collaborators).

(** The user [{ name, email, username, id }] as the option lists of the
    sub-provider carry an author *)
Context (gitUser : string -> option string -> option string -> option string
                   -> string).

Local Open Scope async_scope.

Definition author (node : t) : string :=
  let c := contributor node in
  gitUser (GitContributor.name c) (GitContributor.email c)
    (GitContributor.username c) (GitContributor.id c).

(** The options of the call of [getLog] *)
Definition logOptions (node : t) (s : state) : GitLogOptions.t :=
  GitLogOptions.mk
    (nodeOptions node ≫= all)
    (Some [author node])
    None
    (Some (default (defaultItemLimit node) (limit s)))
    (MergesFlag <$> (nodeOptions node ≫= showMergeCommits))
    None None.

(** The options of the call of [getLogForPath] *)
Definition pathLogOptions (node : t) (s : state) (isFolder : bool)
    : GitLogForPathOptions.t :=
  GitLogForPathOptions.mk
    (nodeOptions node ≫= all)
    (Some [author node])
    None None
    (Some isFolder)
    (Some (default (defaultItemLimit node) (limit s)))
    (MergesFlag <$> (nodeOptions node ≫= showMergeCommits))
    None None None None None.

(** [getLog]: [this._log ??= await ...], then [return this._log] *)
Definition getLog (node : t) (s : state) : Async (option GitLog.t * state) :=
  match _log s with
  | Some log => ret (Some log, s)
  | None =>
      log <- match nodeOptions node ≫= pathspec with
             | Some (_, isFolder) =>
                 getLogForPath P (Some (uriRepoPath node)) (uri node)
                   (nodeOptions node ≫= ref)
                   (Some (pathLogOptions node s isFolder))
             | None =>
                 getLog P (Some (uriRepoPath node)) (nodeOptions node ≫= ref)
                   (Some (logOptions node s))
             end ;;
      ret (log, mkState log (limit s) (changes s))
  end.

(** Whether the continuation hands back the log it was made for, which
    is what [this._log === log] tests after [log.more(...)] on the log
    of the node: a continuation of the sub-provider returns the very
    object it captured when the commit asked for is reached, and a new
    object otherwise. *)
Definition returnsCaptured (fn : GitLog.MoreFn) (limit : option MoreArg) : bool :=
  match fn with
  | GitLog.LogMoreFn log _ _ => untilReached log (moreUntilOf limit)
  | GitLog.LogForPathMoreFn log _ _ _ => untilReached log (moreUntilOf limit)
  | GitLog.SearchMoreFn _ _ _ _ => false
  end.

(** [loadMore]; the state is given back with the outcome, for what the
    method has assigned when it throws. [window.withProgress] runs the
    function it is given; [limit] is a number or [{ until }]. *)
Definition loadMore (node : t) (limit : option MoreArg) (s : state) (w : World)
    : Outcome unit * state * World :=
  match getLog node s w with
  | (Throws ex, w) => (Throws ex, s, w)
  | (Returns (log, s), w) =>
      match log with
      | None => (Returns tt, s, w)
      | Some log =>
          if negb (GitLog.hasMore log) then (Returns tt, s, w)
          else
            match GitLog.more log with
            | None => (Returns tt, mkState None None (S (changes s)), w)
            | Some fn =>
                let limit :=
                  Some (default (MoreLimit (pageItemLimit node)) limit) in
                match callMore P fn limit w with
                | (Throws ex, w) => (Throws ex, s, w)
                | (Returns log, w) =>
                    if returnsCaptured fn limit then (Returns tt, s, w)
                    else
                      (Returns tt,
                       mkState (Some log) (Some (GitLog.count log))
                         (S (changes s)),
                       w)
                end
            end
      end
  end.

End Methods.

End ContributorNode.

(** A node for the contributor "ann" of "repo", with and without a
    pathspec *)
Definition exampleContributor : GitContributor.t :=
  GitContributor.mk "repo" "ann" (Some "ann@example.com") None None.

Definition exampleNode (pathspec : option (string * bool)) : ContributorNode.t :=
  ContributorNode.mk "file" "repo" exampleContributor
    (Some (ContributorNode.mkOptions None None None pathspec)) 10 20.

Definition exampleGitUser (name : string) (email username id : option string)
    : string :=
  name.

Definition newNodeState : ContributorNode.state :=
  ContributorNode.mkState None None 0.

(** A remote with more to come after [secondPage] *)
Definition openPageProvider : Collaborators :=
  exampleCollaborators examplePolicy
    (pageRemote secondPage (Some (Paging.mk true (Some "cursor2"))))
    (Returns None).

(** * The Repositories view ([views/repositoriesView]) *)

(** A node of the tree as the guards of the searches look at it: its
    class, with [branch.name] for a [BranchNode] and [remote.name] for a
    [RemoteNode], and its [repoPath]. The classes tested by
    [instanceof] are taken to be unrelated to one another; [OtherNode]
    stands for every other class. *)
Module ViewNode.
Inductive class :=
  | RepositoriesNode | RepositoryNode | BranchesNode | RemotesNode
  | BranchOrTagFolderNode | ContributorsNode | StashesNode | TagsNode
  | WorktreesNode
  | BranchNode (branchName : string)
  | RemoteNode (remoteName : string)
  | OtherNode.
Record t := mk { nodeClass : class; repoPath : string }.
End ViewNode.

Definition slash : Ascii.ascii := Ascii.ascii_of_nat 47.

(** [s.split('/', 1)[0]] *)
Fixpoint firstSegment (s : string) : string :=
  match s with
  | EmptyString => EmptyString
  | String c rest =>
      if decide (c = slash) then EmptyString else String c (firstSegment rest)
  end.

Module RepositoriesView.

Import ViewNode.

Section Guards.

(** [getRemoteNameFromBranchName] of [git/utils/branch.utils] *)
Context (getRemoteNameFromBranchName : string -> string).

(** [canTraverse] of [findBranch], for a branch with [remote] set or
    not *)
Definition findBranch_canTraverse (repoPath branchName : string) (remote : bool)
    (n : ViewNode.t) : bool :=
  if remote then
    match nodeClass n with
    | RepositoriesNode => true
    | RemoteNode remoteName =>
        if bool_decide (ViewNode.repoPath n <> repoPath) then false
        else remote
             && bool_decide
                  (remoteName = getRemoteNameFromBranchName branchName)
    | RepositoryNode | BranchesNode | RemotesNode | BranchOrTagFolderNode =>
        bool_decide (ViewNode.repoPath n = repoPath)
    | _ => false
    end
  else
    match nodeClass n with
    | RepositoriesNode => true
    | RepositoryNode | BranchesNode | BranchOrTagFolderNode =>
        bool_decide (ViewNode.repoPath n = repoPath)
    | _ => false
    end.

(** [canTraverse] of [findCommit] over the local branches that hold
    the commit; with the answer comes the [until] of the
    [n.loadMore({ until: commit.ref })] it awaits, if any. *)
Definition findCommit_canTraverse (repoPath ref : string) (branches : list string)
    (n : ViewNode.t) : bool * option string :=
  match nodeClass n with
  | RepositoriesNode => (true, None)
  | RepositoryNode | BranchesNode | BranchOrTagFolderNode =>
      (bool_decide (ViewNode.repoPath n = repoPath), None)
  | BranchNode branchName =>
      if bool_decide (ViewNode.repoPath n = repoPath)
         && bool_decide (branchName ∈ branches)
      then (true, Some ref)
      else (false, None)
  | _ => (false, None)
  end.

(** [canTraverse] of [findCommit] over the remote branches that hold
    the commit; [remotes] is [branches.map(b => b.split('/', 1)[0])]. *)
Definition findCommit_canTraverseRemotes (repoPath : string)
    (branches : list string) (n : ViewNode.t) : bool :=
  let remotes := map firstSegment branches in
  match nodeClass n with
  | RepositoriesNode => true
  | RemoteNode remoteName =>
      bool_decide (ViewNode.repoPath n = repoPath)
      && bool_decide (remoteName ∈ remotes)
  | BranchNode branchName =>
      bool_decide (ViewNode.repoPath n = repoPath)
      && bool_decide (branchName ∈ branches)
  | RepositoryNode | RemotesNode | BranchOrTagFolderNode =>
      bool_decide (ViewNode.repoPath n = repoPath)
  | _ => false
  end.

(** [canTraverse] of [findContributor] *)
Definition findContributor_canTraverse (repoPath : string) (n : ViewNode.t)
    : bool :=
  match nodeClass n with
  | RepositoriesNode => true
  | RepositoryNode | ContributorsNode =>
      bool_decide (ViewNode.repoPath n = repoPath)
  | _ => false
  end.

(** [canTraverse] of [findRemote] *)
Definition findRemote_canTraverse (repoPath : string) (n : ViewNode.t) : bool :=
  match nodeClass n with
  | RepositoriesNode => true
  | RepositoryNode | RemotesNode => bool_decide (ViewNode.repoPath n = repoPath)
  | _ => false
  end.

(** [canTraverse] of [findStash] *)
Definition findStash_canTraverse (repoPath : string) (n : ViewNode.t) : bool :=
  match nodeClass n with
  | RepositoriesNode => true
  | RepositoryNode | StashesNode => bool_decide (ViewNode.repoPath n = repoPath)
  | _ => false
  end.

(** [canTraverse] of [findTag] *)
Definition findTag_canTraverse (repoPath : string) (n : ViewNode.t) : bool :=
  match nodeClass n with
  | RepositoriesNode => true
  | RepositoryNode | TagsNode | BranchOrTagFolderNode =>
      bool_decide (ViewNode.repoPath n = repoPath)
  | _ => false
  end.

(** [canTraverse] of [findWorktree] *)
Definition findWorktree_canTraverse (repoPath : string) (n : ViewNode.t) : bool :=
  match nodeClass n with
  | RepositoriesNode => true
  | RepositoryNode | WorktreesNode | BranchOrTagFolderNode =>
      bool_decide (ViewNode.repoPath n = repoPath)
  | _ => false
  end.

(** [canTraverse] of [revealBranches], [revealStashes], [revealTags] and
    [revealWorktrees], which is the same in the four *)
Definition revealSection_canTraverse (repoPath : string) (n : ViewNode.t) : bool :=
  match nodeClass n with
  | RepositoriesNode => true
  | RepositoryNode => bool_decide (ViewNode.repoPath n = repoPath)
  | _ => false
  end.

End Guards.

(** What [autoRefresh] and [setAutoRefresh] read and write:
    [views.repositories.autoRefresh] of the configuration, which is
    [config.autoRefresh]; the workspace value stored under
    'views:repositories:autoRefresh', if any; the context key
    'gitlens:views:repositories:autoRefresh', if set; and the number of
    times [_onDidChangeAutoRefresh] has fired. *)
Record state := mkState {
  configured : bool;
  workspace : option bool;
  context : option bool;
  fired : nat;
}.

(** [get autoRefresh]; [getWorkspace(key, true)] is the stored value, or
    true. *)
Definition autoRefresh (s : state) : bool :=
  configured s && default true (workspace s).

(** [setAutoRefresh] *)
Definition setAutoRefresh (enabled : bool) (workspaceEnabled : option bool)
    (s : state) : state :=
  let '(workspaceEnabled, stored) :=
    if enabled then
      match workspaceEnabled with
      | None => (Some (default true (workspace s)), workspace s)
      | Some b => (Some b, Some b)
      end
    else (workspaceEnabled, workspace s) in
  mkState (configured s) stored
    (if enabled then workspaceEnabled else Some false)
    (S (fired s)).

End RepositoriesView.

(** * Facts *)

Lemma filter_agree {A} (P Q : A -> Prop)
    `{!forall x, Decision (P x), !forall x, Decision (Q x)} (l : list A) :
  (forall x, x ∈ l -> P x <-> Q x) -> filter P l = filter Q l.
Proof.
  induction l as [|a l IH]; intros Hl; [done|].
  assert (filter P l = filter Q l) as E.
  { apply IH. intros x Hx. apply Hl. apply elem_of_cons; by right. }
  assert (P a <-> Q a) as Ha by (apply Hl, elem_of_cons; by left).
  destruct (decide (P a)) as [Hp|Hp].
  - rewrite (filter_cons_True P) by done.
    rewrite (filter_cons_True Q) by (by apply Ha). by rewrite E.
  - rewrite (filter_cons_False P) by done.
    rewrite (filter_cons_False Q) by (by rewrite <- Ha). done.
Qed.

Lemma some_true {A} (source : list A) (predicate : A -> bool) :
  some source predicate = true <-> exists x, x ∈ source /\ predicate x = true.
Proof.
  unfold some. induction source as [|a l IH]; simpl.
  - split; [done|]. intros (x & Hx & _). by apply elem_of_nil in Hx.
  - rewrite orb_true_iff, IH. split.
    + intros [Ha|(x & Hx & Hp)].
      * exists a. split; [apply elem_of_cons; by left|done].
      * exists x. split; [apply elem_of_cons; by right|done].
    + intros (x & [->|Hx]%elem_of_cons & Hp); [by left|right; eauto].
Qed.

(** ** Facts about [JsMap] *)

Module JsMapFacts.

Section Facts.

Context {V : Type}.

Implicit Types (m es : JsMap.t V) (k : string) (v : V).

Lemma get_None k m : JsMap.get k m = None <-> k ∉ JsMap.keys m.
Proof.
  induction m as [|[k' v'] m IH]; simpl.
  - split; [intros _; apply not_elem_of_nil | done].
  - rewrite not_elem_of_cons. destruct (decide (k = k')) as [->|Hne].
    + split; [done|]. intros [? _]. done.
    + rewrite IH. split; [by split|by intros [_ ?]].
Qed.

Lemma has_true k m : JsMap.has k m = true <-> k ∈ JsMap.keys m.
Proof.
  unfold JsMap.has. destruct (JsMap.get k m) eqn:E.
  - split; [intros _|done].
    destruct (decide (k ∈ JsMap.keys m)) as [|Hn]; [done|].
    apply get_None in Hn. congruence.
  - apply get_None in E. split; [done|]. intros; contradiction.
Qed.

(** Reading after [set]: the key written holds the new value, the
    others are as before. *)
Lemma get_set k' k v m :
  JsMap.get k' (JsMap.set k v m)
  = if decide (k' = k) then Some v else JsMap.get k' m.
Proof.
  induction m as [|[k0 v0] m IH]; simpl.
  - destruct (decide (k' = k)); done.
  - destruct (decide (k = k0)) as [->|Hne]; simpl.
    + destruct (decide (k' = k0)); done.
    + destruct (decide (k' = k0)) as [->|].
      * by rewrite decide_False.
      * exact IH.
Qed.

Lemma set_fresh k v m : k ∉ JsMap.keys m -> JsMap.set k v m = m ++ [(k, v)].
Proof.
  induction m as [|[k0 v0] m IH]; simpl; [done|].
  rewrite not_elem_of_cons. intros [Hne Hm].
  rewrite decide_False by done. by rewrite IH.
Qed.

(** [set] on a key that is there leaves the order of the keys alone. *)
Lemma keys_set_present k v m :
  k ∈ JsMap.keys m -> JsMap.keys (JsMap.set k v m) = JsMap.keys m.
Proof.
  induction m as [|[k0 v0] m IH]; simpl.
  - intros H. by apply elem_of_nil in H.
  - intros H. destruct (decide (k = k0)) as [->|Hne]; simpl; [done|].
    apply elem_of_cons in H as [?|H]; [done|].
    f_equal. by apply IH.
Qed.

Lemma keys_set_fresh k v m :
  k ∉ JsMap.keys m -> JsMap.keys (JsMap.set k v m) = JsMap.keys m ++ [k].
Proof.
  intros H. rewrite set_fresh by done. unfold JsMap.keys. by rewrite fmap_app.
Qed.

Lemma NoDup_set k v m :
  NoDup (JsMap.keys m) -> NoDup (JsMap.keys (JsMap.set k v m)).
Proof.
  intros Hm. destruct (decide (k ∈ JsMap.keys m)) as [Hin|Hn].
  - by rewrite keys_set_present.
  - rewrite keys_set_fresh by done. apply NoDup_app. split; [done|].
    split; [|apply NoDup_singleton].
    intros x Hx ->%list_elem_of_singleton. contradiction.
Qed.

Lemma NoDup_foldl_set es m :
  NoDup (JsMap.keys m) ->
  NoDup (JsMap.keys (foldl (fun m e => JsMap.set e.1 e.2 m) m es)).
Proof.
  revert m. induction es as [|e es IH]; intros m Hm; simpl; [done|].
  apply IH. by apply NoDup_set.
Qed.

(** A map made of entries never holds a key twice. *)
Lemma NoDup_of_entries es : NoDup (JsMap.keys (JsMap.of_entries es)).
Proof. apply NoDup_foldl_set. apply NoDup_nil_2. Qed.

Lemma foldl_set_fresh es m :
  NoDup (JsMap.keys m ++ JsMap.keys es) ->
  foldl (fun m e => JsMap.set e.1 e.2 m) m es = m ++ es.
Proof.
  revert m. induction es as [|[k v] es IH]; intros m; simpl.
  - intros _. by rewrite app_nil_r.
  - intros H. assert (k ∉ JsMap.keys m) as Hk.
    { apply NoDup_app in H as (_ & Hd & _). intros Hin.
      apply (Hd k Hin). apply elem_of_cons; by left. }
    rewrite set_fresh by done. rewrite IH.
    + by rewrite <- app_assoc.
    + unfold JsMap.keys in *. rewrite fmap_app.
      rewrite <- app_assoc. exact H.
Qed.

(** Entries with distinct keys make the map that lists them. *)
Lemma of_entries_unique es : NoDup (JsMap.keys es) -> JsMap.of_entries es = es.
Proof.
  intros H. unfold JsMap.of_entries. rewrite foldl_set_fresh; [done|].
  exact H.
Qed.

(** Writing entries with distinct keys over a map: the last write wins. *)
Lemma get_foldl_set k es m :
  NoDup (JsMap.keys es) ->
  JsMap.get k (foldl (fun m e => JsMap.set e.1 e.2 m) m es)
  = match JsMap.get k es with Some v => Some v | None => JsMap.get k m end.
Proof.
  revert m. induction es as [|[k0 v0] es IH]; intros m; simpl; [done|].
  rewrite NoDup_cons. intros [Hk Hes]. rewrite IH by done.
  rewrite get_set. destruct (decide (k = k0)) as [->|]; [|done].
  apply get_None in Hk. by rewrite Hk.
Qed.

(** ... and the keys are those of the map, then the new ones in the
    order they were written. *)
Lemma keys_foldl_set es m :
  NoDup (JsMap.keys es) ->
  JsMap.keys (foldl (fun m e => JsMap.set e.1 e.2 m) m es)
  = JsMap.keys m ++ filter (fun k => k ∉ JsMap.keys m) (JsMap.keys es).
Proof.
  revert m. induction es as [|[k0 v0] es IH]; intros m; simpl.
  - intros _. by rewrite app_nil_r.
  - rewrite NoDup_cons. intros [Hk Hes]. rewrite IH by done. simpl.
    destruct (decide (k0 ∈ JsMap.keys m)) as [Hin|Hn].
    + rewrite keys_set_present by done.
      rewrite filter_cons_False by (intros ?; contradiction). done.
    + rewrite keys_set_fresh by done. rewrite filter_cons_True by done.
      rewrite <- app_assoc. simpl. f_equal. f_equal.
      apply filter_agree. intros x Hx.
      rewrite not_elem_of_app, list_elem_of_singleton.
      split; [by intros [? _]|]. intros Hxm. split; [done|].
      intros ->. contradiction.
Qed.

Lemma size_keys m : JsMap.size m = Z.of_nat (length (JsMap.keys m)).
Proof. unfold JsMap.size, JsMap.keys. by rewrite length_fmap. Qed.

Lemma foldl_keys_NoDup {A} (step : JsMap.t V -> A -> JsMap.t V) (l : list A) m :
  (forall m a, NoDup (JsMap.keys m) -> NoDup (JsMap.keys (step m a))) ->
  NoDup (JsMap.keys m) ->
  NoDup (JsMap.keys (foldl step m l)).
Proof.
  intros Hstep. revert m. induction l as [|a l IH]; intros m Hm; simpl; [done|].
  apply IH. by apply Hstep.
Qed.

End Facts.

End JsMapFacts.

(** ** The copy of a cached log *)

(** Once the requested commit is passed, the callback lets through the
    entries that the limit still has room for. *)
Lemma filterMap_copyFrom_started (rev : string) (n i : Z)
    (es : list (string * GitCommit.t)) :
  0 <= i ->
  filterMap (copyFrom rev (Some n)) (false, i) es = take (Z.to_nat (n - i)) es.
Proof.
  revert i. induction es as [|e es IH]; intros i Hi; simpl.
  - by rewrite take_nil.
  - case_bool_decide as Hgt.
    + rewrite IH by lia.
      replace (Z.to_nat (n - i)) with 0%nat by lia.
      replace (Z.to_nat (n - (i + 1))) with 0%nat by lia. by rewrite take_0.
    + rewrite IH by lia.
      replace (Z.to_nat (n - i)) with (S (Z.to_nat (n - (i + 1)))) by lia.
      done.
Qed.

(** The callback of the code computes the slice of the spec. *)
Lemma filterMap_copyFrom (rev : string) (n : Z) (es : list (string * GitCommit.t)) :
  filterMap (copyFrom rev (Some n)) (true, 0) es = sliceFrom rev n es.
Proof.
  unfold sliceFrom. induction es as [|e es IH]; simpl.
  - by rewrite take_nil.
  - destruct (decide (e.1 = rev)) as [He|He].
    + rewrite bool_decide_eq_true_2 by done. simpl.
      pose proof (filterMap_copyFrom_started rev n 0 (e :: es)) as H.
      simpl in H. rewrite Z.sub_0_r in H. apply H. lia.
    + rewrite bool_decide_eq_false_2 by done. simpl. exact IH.
Qed.

(** With unique keys, skipping up to [rev] drops its position. *)
Lemma skipUntil_drop {V} (rev : string) (es : list (string * V)) (i : nat) :
  NoDup (JsMap.keys es) ->
  JsMap.keys es !! i = Some rev ->
  skipUntil rev es = drop i es.
Proof.
  revert i. induction es as [|[k v] es IH]; intros i; simpl.
  - intros _ H. by rewrite lookup_nil in H.
  - rewrite NoDup_cons. intros [Hk Hes] Hi.
    destruct i as [|i]; simpl in Hi.
    + injection Hi as ->. by rewrite decide_True.
    + destruct (decide (k = rev)) as [->|Hne].
      * exfalso. apply Hk. by apply list_elem_of_lookup_2 in Hi.
      * simpl. by apply IH.
Qed.

(** ** The merge of two pages *)

Lemma mergeCommits_foldl (log moreLog : JsMap.t GitCommit.t) :
  NoDup (JsMap.keys log) ->
  mergeCommits log moreLog = foldl (fun m e => JsMap.set e.1 e.2 m) log moreLog.
Proof.
  intros H. unfold mergeCommits, JsMap.of_entries, JsMap.entries.
  rewrite foldl_app. f_equal. by apply JsMapFacts.of_entries_unique.
Qed.

(** The keys of the prior log in their order, then the new keys of the
    page in theirs. *)
Lemma mergeCommits_keys (log moreLog : JsMap.t GitCommit.t) :
  NoDup (JsMap.keys log) ->
  NoDup (JsMap.keys moreLog) ->
  JsMap.keys (mergeCommits log moreLog)
  = JsMap.keys log ++ filter (fun k => k ∉ JsMap.keys log) (JsMap.keys moreLog).
Proof.
  intros Hl Hm. rewrite mergeCommits_foldl by done.
  by apply JsMapFacts.keys_foldl_set.
Qed.

(** A key of the page reads the page's commit, also when the prior log
    had the key. *)
Lemma mergeCommits_get (log moreLog : JsMap.t GitCommit.t) k :
  NoDup (JsMap.keys log) ->
  NoDup (JsMap.keys moreLog) ->
  JsMap.get k (mergeCommits log moreLog)
  = match JsMap.get k moreLog with
    | Some c => Some c
    | None => JsMap.get k log
    end.
Proof.
  intros Hl Hm. rewrite mergeCommits_foldl by done.
  by apply JsMapFacts.get_foldl_set.
Qed.

(** The pages of the merge property: ids [a, b, c], then [c, d, e]. *)
Lemma merge_abc_cde (log moreLog : JsMap.t GitCommit.t) a b c d e :
  NoDup [a; b; c; d; e] ->
  JsMap.keys log = [a; b; c] ->
  JsMap.keys moreLog = [c; d; e] ->
  JsMap.keys (mergeCommits log moreLog) = [a; b; c; d; e]
  /\ JsMap.size (mergeCommits log moreLog) = 5
  /\ JsMap.get a (mergeCommits log moreLog) = JsMap.get a log
  /\ JsMap.get b (mergeCommits log moreLog) = JsMap.get b log
  /\ JsMap.get c (mergeCommits log moreLog) = JsMap.get c moreLog
  /\ JsMap.get d (mergeCommits log moreLog) = JsMap.get d moreLog
  /\ JsMap.get e (mergeCommits log moreLog) = JsMap.get e moreLog.
Proof.
  intros Hnd Hl Hm.
  assert (NoDup (JsMap.keys log)) as Hndl.
  { rewrite Hl. eapply sublist_NoDup; [exact Hnd|].
    exact (sublist_take [a; b; c; d; e] 3). }
  assert (NoDup (JsMap.keys moreLog)) as Hndm.
  { rewrite Hm. eapply sublist_NoDup; [exact Hnd|].
    exact (sublist_drop [a; b; c; d; e] 2). }
  assert ((c ∈ [a; b; c]) /\ (d ∉ [a; b; c]) /\ (e ∉ [a; b; c])
          /\ (a ∉ [c; d; e]) /\ (b ∉ [c; d; e])
          /\ (c ∈ [c; d; e]) /\ (d ∈ [c; d; e]) /\ (e ∈ [c; d; e]))
    as (Hc & Hd & He & Ha' & Hb' & Hc' & Hd' & He').
  { rewrite !NoDup_cons in Hnd. rewrite !not_elem_of_cons in Hnd.
    rewrite !not_elem_of_cons, !elem_of_cons. intuition congruence. }
  assert (JsMap.keys (mergeCommits log moreLog) = [a; b; c; d; e]) as Hkeys.
  { rewrite mergeCommits_keys by done. rewrite Hl, Hm.
    rewrite filter_cons_False by (intros H; by apply H).
    rewrite filter_cons_True by done.
    rewrite filter_cons_True by done. done. }
  split; [exact Hkeys|].
  split; [by rewrite JsMapFacts.size_keys, Hkeys|].
  assert (forall k, k ∈ [c; d; e] ->
            JsMap.get k (mergeCommits log moreLog) = JsMap.get k moreLog) as Hin.
  { intros k Hk. rewrite mergeCommits_get by done.
    destruct (JsMap.get k moreLog) eqn:E; [done|].
    apply JsMapFacts.get_None in E. rewrite Hm in E. contradiction. }
  assert (forall k, k ∉ [c; d; e] ->
            JsMap.get k (mergeCommits log moreLog) = JsMap.get k log) as Hout.
  { intros k Hk. rewrite mergeCommits_get by done.
    rewrite <- Hm in Hk. apply JsMapFacts.get_None in Hk. by rewrite Hk. }
  repeat split; (by apply Hin) || (by apply Hout).
Qed.

(** ** The comparison classifier *)


(** ** Well-formed logs *)

Lemma attachMore_ok (log : GitLog.core) fn :
  NoDup (JsMap.keys (GitLog.commits log)) ->
  GitLog.count log = JsMap.size (GitLog.commits log) ->
  GitLog.captured fn = GitLog.mk log (Some fn) ->
  log_ok (attachMore log fn).
Proof.
  intros Hnd Hcount Hfn. unfold attachMore. split; simpl; try done.
  - by intros ->.
  - destruct (GitLog.hasMore log); [|done]. by intros fn' [= <-].
Qed.

Lemma exhausted_ok (log : GitLog.core) :
  NoDup (JsMap.keys (GitLog.commits log)) ->
  GitLog.count log = JsMap.size (GitLog.commits log) ->
  log_ok (exhausted log).
Proof. intros Hnd Hcount. by split. Qed.

Lemma merged_ok (log moreLog : JsMap.t GitCommit.t) repoPath sha limit hasMore
    startingCursor endingCursor pagedCommits query fn :
  let mergedLog :=
    GitLog.mkCore repoPath (mergeCommits log moreLog) sha
      (JsMap.size (mergeCommits log moreLog)) limit hasMore startingCursor
      endingCursor pagedCommits query in
  GitLog.captured fn = GitLog.mk mergedLog (Some fn) ->
  log_ok (attachMore mergedLog fn).
Proof.
  intros mergedLog Hfn. apply attachMore_ok; [|done|done].
  apply JsMapFacts.NoDup_of_entries.
Qed.

Lemma copyLogFrom_ok (log : GitLog.t) repoPath pathOrUri rev options :
  log_ok log ->
  GitLog.hasMore log = false ->
  log_ok (copyLogFrom log repoPath pathOrUri rev options).
Proof.
  intros Hok Hmore. pose proof (ok_more _ Hok Hmore) as Hnone.
  unfold copyLogFrom. split; simpl; try done.
  - apply JsMapFacts.NoDup_of_entries.
  - by rewrite Hnone.
Qed.

Lemma lookupLogForPath_ok state key repoPath pathOrUri rev options log :
  (forall k cached l, state !! k = Some cached ->
                      CachedLog.item cached = Some l -> log_ok l) ->
  lookupLogForPath state key repoPath pathOrUri rev options = Some (Some log) ->
  log_ok log.
Proof.
  intros Hstate. unfold lookupLogForPath.
  destruct (state !! key) as [cached|] eqn:Hkey.
  { intros [= H]. by eapply Hstate. }
  destruct (_ || _); [|done].
  destruct (state !! wholeFileKey options) as [cached|] eqn:Hwhole; [|done].
  destruct rev as [rev|].
  - destruct (CachedLog.item cached) as [l|] eqn:Hitem; [|done].
    destruct (negb (GitLog.hasMore l)) eqn:Hmore; [|done]. simpl.
    destruct (JsMap.has rev (GitLog.commits l)); [|done].
    intros [= <-]. apply copyLogFrom_ok; [by eapply Hstate|].
    by destruct (GitLog.hasMore l).
  - intros [= H]. by eapply Hstate.
Qed.

Lemma cache_ok_emptyWorld : cache_ok emptyWorld.
Proof.
  intros doc state key cached log H. simpl in H. by rewrite lookup_empty in H.
Qed.

Lemma cache_ok_ensureState doc w :
  cache_ok w -> cache_ok (ensureState doc w).2.
Proof.
  intros Hw. unfold ensureState.
  destruct (documents w !! doc) eqn:Hd; [done|]. simpl.
  intros doc' state key cached log Hdoc Hkey Hitem. simpl in Hdoc.
  destruct (decide (doc = doc')) as [<-|Hne].
  - rewrite lookup_insert_eq in Hdoc. injection Hdoc as <-.
    by rewrite lookup_empty in Hkey.
  - rewrite lookup_insert_ne in Hdoc by done. by eapply Hw.
Qed.

Lemma cache_ok_setLogEntry doc key value w :
  cache_ok w ->
  (forall log, CachedLog.item value = Some log -> log_ok log) ->
  cache_ok (setLogEntry doc key value w).2.
Proof.
  intros Hw Hvalue. unfold setLogEntry.
  destruct (documents w !! doc) as [state0|] eqn:Hd; [|done]. simpl.
  intros doc' state key' cached log Hdoc Hkey Hitem. simpl in Hdoc.
  destruct (decide (doc = doc')) as [<-|Hne].
  - rewrite lookup_insert_eq in Hdoc. injection Hdoc as <-.
    destruct (decide (key = key')) as [<-|Hk].
    + rewrite lookup_insert_eq in Hkey. injection Hkey as <-. by apply Hvalue.
    + rewrite lookup_insert_ne in Hkey by done. by eapply Hw.
  - rewrite lookup_insert_ne in Hdoc by done. by eapply Hw.
Qed.

Lemma cache_ok_documents w w' :
  documents w' = documents w -> cache_ok w -> cache_ok w'.
Proof. intros H Hw doc state key cached log. rewrite H. apply Hw. Qed.

Lemma logCacheKey_cursor rev options cursor :
  GitLogForPathOptions.cursor options = Some cursor ->
  logCacheKey rev options = None.
Proof.
  intros H. unfold logCacheKey. rewrite H.
  rewrite (bool_decide_eq_false_2 (Some cursor = None)) by done.
  by rewrite andb_false_r.
Qed.

Lemma untilReached_present (log : GitLog.core) u :
  u <> "" ->
  (exists c, c ∈ JsMap.values (GitLog.commits log) /\ GitCommit.ref c = u) ->
  untilReached log (Some u) = true.
Proof.
  intros Hu (c & Hc & Href). unfold untilReached, truthy.
  rewrite bool_decide_eq_false_2 by done. simpl.
  apply some_true. exists c. split; [done|]. by apply bool_decide_eq_true_2.
Qed.

(** * The provider *)

Section ProviderFacts.

Context (P : Collaborators).

(** ** What the methods do to the world *)

(** [resolveFolder] awaits a collaborator and leaves the world alone. *)
Lemma resolveFolder_world repoPath relativePath rev options w :
  (resolveFolder P repoPath relativePath rev options w).2 = w.
Proof.
  unfold resolveFolder. destruct (isFolderGlob P relativePath); [done|].
  destruct (GitLogForPathOptions.isFolder options); [done|].
  unfold bind, await. by destruct (getTreeEntryForRevision P _ _ _).
Qed.

Lemma resolveFolder_outcome repoPath relativePath rev options w w' :
  (resolveFolder P repoPath relativePath rev options w).1
  = (resolveFolder P repoPath relativePath rev options w').1.
Proof.
  unfold resolveFolder. destruct (isFolderGlob P relativePath); [done|].
  destruct (GitLogForPathOptions.isFolder options); [done|].
  unfold bind, await. by destruct (getTreeEntryForRevision P _ _ _).
Qed.

Lemma resolveFolder_all repoPath relativePath rev options w path' options' :
  (resolveFolder P repoPath relativePath rev options w).1
    = Returns (path', options') ->
  GitLogForPathOptions.all options' = GitLogForPathOptions.all options
  /\ GitLogForPathOptions.renames options' = GitLogForPathOptions.renames options.
Proof.
  unfold resolveFolder. destruct (isFolderGlob P relativePath).
  - intros [= <- <-]. by destruct options.
  - destruct (GitLogForPathOptions.isFolder options).
    + by intros [= <- <-].
    + unfold bind, await. destruct (getTreeEntryForRevision P _ _ _); [|done].
      intros [= <- <-]. by destruct options.
Qed.

Lemma resolveFolder_file repoPath relativePath rev options tree w :
  isFolderGlob P relativePath = false ->
  GitLogForPathOptions.isFolder options = None ->
  getTreeEntryForRevision P repoPath
    (if truthyOpt rev then default "HEAD" rev else "HEAD") relativePath
    = Returns tree ->
  resolveFolder P repoPath relativePath rev options w
  = (Returns (relativePath,
              GitLogForPathOptions.with_isFolder options
                (Some (bool_decide (tree = Some "tree")))), w).
Proof.
  intros Hg Hf Ht. unfold resolveFolder. rewrite Hg, Hf.
  unfold bind, await, ret. by rewrite Ht.
Qed.

(** [getLogForPathCore] sends at most one request, for the commits of
    the path, with the [all] flag and the cursor of its options; it
    leaves the documents alone. *)
Lemma getLogForPathCore_world repoPath path rev options w :
  documents (getLogForPathCore P repoPath path rev options w).2 = documents w
  /\ (requests (getLogForPathCore P repoPath path rev options w).2 = requests w
      \/ exists request,
           requests (getLogForPathCore P repoPath path rev options w).2
             = requests w ++ [CallGetCommits request]
           /\ CommitsRequest.all request = GitLogForPathOptions.all options
           /\ CommitsRequest.after request = GitLogForPathOptions.cursor options).
Proof.
  unfold getLogForPathCore. destruct repoPath as [repoPath|]; [|by split; [|left]].
  unfold bind, await.
  destruct (ensureRepositoryContext P repoPath) as [ctx|]; [|by split; [|left]].
  unfold resolveRevision, remote, ret, await.
  destruct rev as [r|]; [destruct (truthy r && negb (bool_decide (r = "HEAD")))|];
    try destruct (RepositoryContext.getRevision ctx); simpl;
    try destruct (github_getCommits P (requests w) _); simpl;
    (split; [done|]); eauto.
Qed.

(** Its outcome depends on the requests made so far, not on the
    documents. *)
Lemma getLogForPathCore_documents repoPath path rev options w docs :
  (getLogForPathCore P repoPath path rev options (mkWorld docs (requests w))).1
  = (getLogForPathCore P repoPath path rev options w).1
  /\ requests (getLogForPathCore P repoPath path rev options
                 (mkWorld docs (requests w))).2
     = requests (getLogForPathCore P repoPath path rev options w).2.
Proof.
  unfold getLogForPathCore. destruct repoPath as [repoPath|]; [|done].
  unfold bind, await.
  destruct (ensureRepositoryContext P repoPath) as [ctx|]; [|done].
  unfold resolveRevision, remote, ret, await.
  destruct rev as [r|]; [destruct (truthy r && negb (bool_decide (r = "HEAD")))|];
    try destruct (RepositoryContext.getRevision ctx); simpl;
    try destruct (github_getCommits P (requests w) _); done.
Qed.

Lemma fetchLogForPath_requests repoPath relativePath rev options cacheKey w :
  requests (fetchLogForPath P repoPath relativePath rev options cacheKey w).2
  = requests (getLogForPathCore P (Some repoPath) relativePath rev options w).2.
Proof.
  unfold fetchLogForPath.
  destruct (getLogForPathCore P (Some repoPath) relativePath rev options w)
    as [[log|ex] w']; destruct cacheKey as [key|]; try done;
    unfold bind, setLogEntry, ret; simpl;
    destruct (documents w' !! (repoPath, relativePath)) eqn:Hd; simpl;
    rewrite ?lookup_insert_eq, ?Hd; done.
Qed.

(** A rejected fetch of a cached query leaves [emptyPromise] and the
    message under the key. *)
Lemma fetchLogForPath_rejected repoPath relativePath rev options key ex w state :
  documents w !! (repoPath, relativePath) = Some state ->
  (getLogForPathCore P (Some repoPath) relativePath rev options w).1 = Throws ex ->
  exists w1,
    fetchLogForPath P repoPath relativePath rev options (Some key) w
      = (Returns emptyPromise, w1)
    /\ documents w1
       = <[(repoPath, relativePath) :=
             <[key := CachedLog.mk emptyPromise (Some ex)]> state]> (documents w).
Proof.
  intros Hdoc Hcore. unfold fetchLogForPath.
  destruct (getLogForPathCore_world (Some repoPath) relativePath rev options w)
    as [Hdocs _].
  destruct (getLogForPathCore P (Some repoPath) relativePath rev options w)
    as [[log|ex'] w'] eqn:E; simpl in Hcore, Hdocs; [done|].
  injection Hcore as ->.
  unfold bind, setLogEntry, ret. rewrite Hdocs, Hdoc. simpl.
  rewrite lookup_insert_eq. simpl.
  eexists. split; [reflexivity|]. simpl.
  rewrite insert_insert_eq. by rewrite insert_insert_eq.
Qed.

Lemma getLog_world repoPath rev options w :
  documents (getLog P repoPath rev options w).2 = documents w.
Proof.
  unfold getLog. destruct repoPath as [repoPath|]; [|done].
  unfold tryCatch, bind, await.
  destruct (ensureRepositoryContext P repoPath) as [ctx|]; [|done].
  unfold resolveRevision, remote, ret, await.
  destruct rev as [r|]; [destruct (truthy r && negb (bool_decide (r = "HEAD")))|];
    try destruct (RepositoryContext.getRevision ctx); simpl;
    try destruct (github_getCommits P (requests w) _); done.
Qed.

Lemma getCommit_world repoPath rev w :
  documents (getCommit P repoPath rev w).2 = documents w.
Proof.
  unfold getCommit. destruct repoPath as [repoPath|]; [|done].
  unfold tryCatch, bind, await, remote, ret.
  destruct (isUncommitted P rev true).
  - by destruct (getCurrentUser P repoPath).
  - destruct (ensureRepositoryContext P repoPath) as [ctx|]; [|done]. simpl.
    by destruct (github_getCommit P (requests w) _ _ _ _) as [[c|]|].
Qed.

(** ** A remote that rejects *)

(** [getLog] turns a rejected request into [undefined]. *)
Lemma getLog_remote_throws repoPath rev options w ex :
  (forall request, github_getCommits P (requests w) request = Throws ex) ->
  exists w', getLog P repoPath rev options w = (Returns None, w').
Proof.
  intros H. unfold getLog. destruct repoPath as [repoPath|]; [|by eexists].
  unfold tryCatch, bind, await.
  destruct (ensureRepositoryContext P repoPath) as [ctx|]; [|by eexists].
  unfold resolveRevision, remote, ret, await.
  destruct rev as [r|]; [destruct (truthy r && negb (bool_decide (r = "HEAD")))|];
    try destruct (RepositoryContext.getRevision ctx); simpl;
    rewrite ?H; by eexists.
Qed.

Lemma getLogForPathCore_remote_throws repoPath path rev options w ex :
  (forall request, github_getCommits P (requests w) request = Throws ex) ->
  exists ex' w', getLogForPathCore P (Some repoPath) path rev options w
                 = (Throws ex', w').
Proof.
  intros H. unfold getLogForPathCore.
  unfold bind, await.
  destruct (ensureRepositoryContext P repoPath) as [ctx|]; [|by do 2 eexists].
  unfold resolveRevision, remote, ret, await.
  destruct rev as [r|]; [destruct (truthy r && negb (bool_decide (r = "HEAD")))|];
    try destruct (RepositoryContext.getRevision ctx); simpl;
    rewrite ?H; by do 2 eexists.
Qed.

(** A query with a cursor is not cached: [getLogForPath] turns the
    rejection of its fetch into [undefined]. *)
Lemma getLogForPath_cursor_remote_throws repoPath path rev options cursor w ex :
  repoPath <> getRelativePath P path repoPath ->
  GitLogForPathOptions.isFolder options <> None ->
  GitLogForPathOptions.cursor options = Some cursor ->
  (forall request, github_getCommits P (requests w) request = Throws ex) ->
  exists w', getLogForPath P (Some repoPath) path rev (Some options) w
             = (Returns None, w').
Proof.
  intros Hroot Hfolder Hcursor Hthrows. unfold getLogForPath.
  rewrite decide_False by done. unfold bind, resolveFolder.
  assert (forall path' options',
            GitLogForPathOptions.cursor options' = Some cursor ->
            exists w', fetchLogForPath P repoPath path' rev options' None w
                       = (Returns None, w')) as Hfetch.
  { intros path' options' Hc. unfold fetchLogForPath.
    destruct (getLogForPathCore_remote_throws repoPath path' rev options' w ex Hthrows)
      as (ex' & w' & ->). by eexists. }
  destruct (isFolderGlob P _).
  - unfold ret. rewrite logCacheKey_cursor with (cursor := cursor);
      [apply Hfetch|]; by destruct options.
  - replace (GitLogForPathOptions.isFolder (effectiveOptions P (Some options)))
      with (GitLogForPathOptions.isFolder options) by (by destruct options).
    destruct (GitLogForPathOptions.isFolder options) as [f|]; [|done].
    unfold ret. rewrite logCacheKey_cursor with (cursor := cursor);
      [apply Hfetch|]; by destruct options.
Qed.

(** ** Logs are well formed *)

Lemma collectCommits_NoDup repoPath viewer values :
  NoDup (JsMap.keys (collectCommits P repoPath viewer values)).
Proof.
  unfold collectCommits. apply JsMapFacts.foldl_keys_NoDup; [|apply NoDup_nil_2].
  intros m a Hm. destruct (JsMap.get _ m); [done|].
  by apply JsMapFacts.NoDup_set.
Qed.

Lemma collectPathCommits_NoDup repoPath relativePath options viewer values :
  NoDup (JsMap.keys
           (collectPathCommits P repoPath relativePath options viewer values)).
Proof.
  unfold collectPathCommits.
  apply JsMapFacts.foldl_keys_NoDup; [|apply NoDup_nil_2].
  intros m a Hm. destruct (JsMap.get _ m); [done|].
  by apply JsMapFacts.NoDup_set.
Qed.

Lemma getLog_ok repoPath rev options w log w' :
  getLog P repoPath rev options w = (Returns (Some log), w') -> log_ok log.
Proof.
  unfold getLog. destruct repoPath as [repoPath|]; [|done].
  unfold tryCatch, bind, await.
  destruct (ensureRepositoryContext P repoPath) as [ctx|]; [|done].
  unfold resolveRevision, remote, ret, await.
  destruct rev as [r|]; [destruct (truthy r && negb (bool_decide (r = "HEAD")))|];
    try destruct (RepositoryContext.getRevision ctx); simpl;
    try destruct (github_getCommits P (requests w) _); try done;
    intros [= <- <-]; (apply attachMore_ok; [apply collectCommits_NoDup|done|done]).
Qed.

Lemma getLogForPathCore_ok repoPath path rev options w log w' :
  getLogForPathCore P repoPath path rev options w = (Returns (Some log), w') ->
  log_ok log.
Proof.
  unfold getLogForPathCore. destruct repoPath as [repoPath|]; [|done].
  unfold bind, await.
  destruct (ensureRepositoryContext P repoPath) as [ctx|]; [|done].
  unfold resolveRevision, remote, ret, await.
  destruct rev as [r|]; [destruct (truthy r && negb (bool_decide (r = "HEAD")))|];
    try destruct (RepositoryContext.getRevision ctx); simpl;
    try destruct (github_getCommits P (requests w) _); try done;
    intros [= <- <-];
    (apply attachMore_ok; [apply collectPathCommits_NoDup|done|done]).
Qed.

Lemma fetchLogForPath_ok repoPath relativePath rev options cacheKey w r w' :
  cache_ok w ->
  fetchLogForPath P repoPath relativePath rev options cacheKey w = (Returns r, w') ->
  (forall log, r = Some log -> log_ok log) /\ cache_ok w'.
Proof.
  intros Hw. unfold fetchLogForPath.
  pose proof (getLogForPathCore_world (Some repoPath) relativePath rev options w)
    as [Hdocs _].
  pose proof (getLogForPathCore_ok (Some repoPath) relativePath rev options w) as Hok.
  destruct (getLogForPathCore P (Some repoPath) relativePath rev options w)
    as [[log|ex] w0]; simpl in Hdocs.
  - assert (forall l, log = Some l -> log_ok l) as Hlog.
    { intros l ->. by eapply Hok. }
    assert (cache_ok w0) as Hw0 by (by eapply cache_ok_documents).
    destruct cacheKey as [key|].
    + unfold bind, ret.
      pose proof (cache_ok_setLogEntry (repoPath, relativePath) key
                    (CachedLog.mk log None) w0 Hw0 Hlog) as Hset.
      destruct (setLogEntry _ key _ w0) as [[[]|ex] w1]; simpl in Hset.
      * by intros [= <- <-].
      * done.
    + by intros [= <- <-].
  - assert (cache_ok w0) as Hw0 by (by eapply cache_ok_documents).
    destruct cacheKey as [key|].
    + unfold bind, ret.
      pose proof (cache_ok_setLogEntry (repoPath, relativePath) key
                    (CachedLog.mk emptyPromise None) w0 Hw0) as Hset.
      destruct (setLogEntry _ key (CachedLog.mk emptyPromise None) w0)
        as [[[]|ex1] w1]; simpl in Hset; [|done].
      pose proof (cache_ok_setLogEntry (repoPath, relativePath) key
                    (CachedLog.mk emptyPromise (Some ex)) w1) as Hset'.
      destruct (setLogEntry _ key (CachedLog.mk emptyPromise (Some ex)) w1)
        as [[[]|ex2] w2]; simpl in Hset'; [|done].
      intros [= <- <-]. split; [done|]. apply Hset'; [by apply Hset|done].
    + by intros [= <- <-].
Qed.

Lemma getLogForPath_ok repoPath pathOrUri rev options w r w' :
  cache_ok w ->
  getLogForPath P repoPath pathOrUri rev options w = (Returns r, w') ->
  (forall log, r = Some log -> log_ok log) /\ cache_ok w'.
Proof.
  intros Hw. unfold getLogForPath.
  destruct repoPath as [repoPath|]; [|unfold ret; by intros [= <- <-]].
  destruct (decide _); [done|]. unfold bind at 1.
  pose proof (resolveFolder_world repoPath (getRelativePath P pathOrUri repoPath)
                rev (effectiveOptions P options) w) as Hres.
  destruct (resolveFolder P repoPath _ rev (effectiveOptions P options) w)
    as [[[path' options']|ex] w0]; simpl in Hres; subst w0; [|done].
  destruct (logCacheKey rev options') as [key|];
    [|by apply fetchLogForPath_ok].
  destruct (documents w !! (repoPath, path')) as [state|] eqn:Hdoc.
  - destruct (lookupLogForPath state key repoPath pathOrUri rev options')
      as [cached|] eqn:Hlookup.
    + intros [= <- <-]. split; [|done]. intros log ->.
      eapply lookupLogForPath_ok; [|exact Hlookup].
      intros k c l Hk Hl. by eapply Hw.
    + unfold bind, ensureState. rewrite Hdoc. by apply fetchLogForPath_ok.
  - unfold bind.
    pose proof (cache_ok_ensureState (repoPath, path') w Hw) as Hens.
    destruct (ensureState (repoPath, path') w) as [[[]|ex] w0]; [|done].
    by apply fetchLogForPath_ok.
Qed.

Lemma searchCommits_sound repoPath search source options w r w' :
  searchCommits P repoPath search source options w = (r, w') ->
  documents w' = documents w
  /\ forall search' log, r = Returns (search', Some log) -> log_ok log.
Proof.
  unfold searchCommits.
  destruct repoPath as [repoPath|]; [|by intros [= <- <-]].
  unfold bind at 1.
  assert (exists o, (if needsProcessing (withSearchDefaults search)
                     then await (processNaturalLanguageToSearchQuery P
                                   (withSearchDefaults search) source)
                     else ret (withSearchDefaults search)) w = (o, w)) as [o ->].
  { destruct (needsProcessing _); by eexists. }
  destruct o as [search1|ex]; [|by intros [= <- <-]].
  destruct (JsMap.get "commit:" (parseSearchQuery P search1))
    as [[|value values]|] eqn:Hop.
  2:{ unfold bind. pose proof (getCommit_world (Some repoPath) value w) as Hw.
      destruct (getCommit P (Some repoPath) value w) as [[[commit|]|ex] w0];
        simpl in Hw; intros [= <- <-]; (split; [done|]); try done.
      intros search' log [= <- <-]. split; simpl; try done.
      apply NoDup_singleton. }
  all: unfold bind, await;
    destruct (getQueryArgsFromSearchQuery P search1 _ repoPath) as [[|arg args]|ex];
    try (by intros [= <- <-]);
    unfold tryCatch, bind, await, remote, ret;
    (destruct (ensureRepositoryContext P repoPath) as [ctx|];
     [|by intros [= <- <-]]); simpl;
    (destruct (github_searchCommits P (requests w) _) as [[result|]|ex]; simpl;
     try (by intros [= <- <-]));
    intros [= <- <-]; (split; [done|]); intros search' log [= <- <-];
    (apply attachMore_ok; [apply collectCommits_NoDup|done|done]).
Qed.

Lemma callMore_ok fn limit w log w' :
  log_ok (GitLog.captured fn) ->
  cache_ok w ->
  callMore P fn limit w = (Returns log, w') ->
  log_ok log /\ cache_ok w'.
Proof.
  intros Hfn Hw.
  destruct fn as [l rev options|l path rev options|l search source options];
    simpl in Hfn; pose proof (ok_unique _ Hfn) as Hnd;
    pose proof (ok_count _ Hfn) as Hcount; simpl in Hnd, Hcount; simpl.
  - unfold getLogMoreFn. destruct (untilReached l _).
    { by intros [= <- <-]. }
    unfold bind.
    match goal with |- context [getLog P ?a ?b ?c w] =>
      pose proof (getLog_world a b c w) as Hdocs;
      pose proof (getLog_ok a b c w) as Hok;
      destruct (getLog P a b c w) as [[[moreLog|]|ex] w0] end;
      simpl in Hdocs; [| |done].
    + intros [= <- <-]. split; [|by eapply cache_ok_documents].
      by apply merged_ok.
    + intros [= <- <-]. split; [|by eapply cache_ok_documents].
      by apply exhausted_ok.
  - unfold getLogForPathMoreFn. destruct (untilReached l _).
    { by intros [= <- <-]. }
    unfold bind.
    match goal with |- context [getLogForPath P ?a ?b ?c ?d w] =>
      pose proof (getLogForPath_ok a b c d w) as Hok;
      destruct (getLogForPath P a b c d w) as [[[moreLog|]|ex] w0] end; [| |done].
    + destruct (Hok _ _ Hw eq_refl) as [_ Hw0].
      intros [= <- <-]. split; [|done]. by apply merged_ok.
    + destruct (Hok _ _ Hw eq_refl) as [_ Hw0].
      intros [= <- <-]. split; [|done]. by apply exhausted_ok.
  - unfold searchCommitsCore. unfold bind.
    match goal with |- context [searchCommits P ?a ?b ?c ?d w] =>
      pose proof (searchCommits_sound a b c d w) as Hsound;
      destruct (searchCommits P a b c d w) as [[[search' [moreLog|]]|ex] w0] end;
      [| |done]; destruct (Hsound _ _ eq_refl) as [Hdocs _]; simpl.
    + intros [= <- <-]. split; [|by eapply cache_ok_documents].
      by apply merged_ok.
    + intros [= <- <-]. split; [|by eapply cache_ok_documents].
      by apply exhausted_ok.
Qed.

(** ** The claims *)

(** C1, as the code has it. Let the document of the path hold, under
    the key of the whole file, a log [L] that is fully fetched
    ([hasMore = false]) and has the revision [rev] at position [i], and
    hold nothing under the key of the query itself; let the path be a
    file. Then [getLogForPath(repoPath, path, rev, { limit: n })]
    returns a log whose commits are the entries of [L] from position [i]
    on, as many as [getPagingLimit(n)] allows: the limit that counts is
    the caller's [n] after the provider's paging-limit policy. Its
    [count] is the size of that map, and the world is returned as it
    was: no request is sent, the cache is not written. *)
Theorem getLogForPath_copies_cached_log
    w repoPath pathOrUri rev n tree state cached L (i : nat) :
  let relativePath := getRelativePath P pathOrUri repoPath in
  let limit := getPagingLimit P (Some n) in
  let options :=
    Some (GitLogForPathOptions.with_limit GitLogForPathOptions.none (Some n)) in
  repoPath <> relativePath ->
  isFolderGlob P relativePath = false ->
  getTreeEntryForRevision P repoPath (if truthy rev then rev else "HEAD")
    relativePath = Returns tree ->
  tree <> Some "tree" ->
  documents w !! (repoPath, relativePath) = Some state ->
  (forall key,
     logCacheKey (Some rev)
       (GitLogForPathOptions.with_isFolder (effectiveOptions P options)
          (Some false)) = Some key ->
     state !! key = None) ->
  state !! "log" = Some cached ->
  CachedLog.item cached = Some L ->
  GitLog.hasMore L = false ->
  NoDup (JsMap.keys (GitLog.commits L)) ->
  JsMap.keys (GitLog.commits L) !! i = Some rev ->
  exists log,
    getLogForPath P (Some repoPath) pathOrUri (Some rev) options w
      = (Returns (Some log), w)
    /\ GitLog.commits log = take (Z.to_nat limit) (drop i (GitLog.commits L))
    /\ GitLog.count log = JsMap.size (GitLog.commits log)
    /\ GitLog.limit log = Some limit
    /\ GitLog.hasMore log = false
    /\ GitLog.repoPath log = GitLog.repoPath L
    /\ GitLog.sha log = GitLog.sha L.
Proof.
  intros relativePath limit options Hroot Hglob Htree Hfile Hdoc Hmiss Hwhole
    Hitem Hmore Hnd Hi.
  unfold getLogForPath. fold relativePath.
  rewrite decide_False by done.
  unfold bind at 1.
  rewrite (resolveFolder_file _ _ _ _ tree); [|done|done|done].
  rewrite bool_decide_eq_false_2 by done.
  destruct (logCacheKey (Some rev) _) as [key|] eqn:Hkey; [|discriminate Hkey].
  rewrite Hdoc. unfold lookupLogForPath.
  rewrite (Hmiss key eq_refl). simpl.
  change (wholeFileKey _) with "log". rewrite Hwhole, Hitem, Hmore. simpl.
  assert (JsMap.has rev (GitLog.commits L) = true) as ->.
  { apply JsMapFacts.has_true. by apply list_elem_of_lookup_2 in Hi. }
  eexists. split; [reflexivity|]. unfold copyLogFrom.
  cbn [GitLog.commits GitLog.base GitLog.count GitLog.limit GitLog.hasMore
       GitLog.repoPath GitLog.sha].
  change (GitLogForPathOptions.limit
            (GitLogForPathOptions.with_isFolder (effectiveOptions P options)
               (Some false)))
    with (Some limit).
  assert (JsMap.of_entries
            (filterMap (copyFrom rev (Some limit)) (true, 0)
               (JsMap.entries (GitLog.commits L)))
          = take (Z.to_nat limit) (drop i (GitLog.commits L))) as ->.
  { rewrite filterMap_copyFrom. unfold sliceFrom, JsMap.entries.
    rewrite (skipUntil_drop rev _ i) by done.
    apply JsMapFacts.of_entries_unique.
    unfold JsMap.keys. rewrite fmap_take, fmap_drop.
    eapply sublist_NoDup; [exact Hnd|].
    etrans; [apply sublist_take|apply sublist_drop]. }
  repeat split; done.
Qed.

(** C2, as the code has it. Let the prior log hold the ids [a, b, c]
    and the page that [more] fetches hold [c, d, e]. The merged log
    holds exactly [a, b, c, d, e] in that order and its [count] is 5;
    [c] keeps the place it had in the prior log. The commit read at [c]
    is the one of the fetched page: [new Map([...log.commits,
    ...moreLog.commits])] writes [c] a second time, in place. [a] and
    [b] read as in the prior log, [d] and [e] as in the page. This holds
    for the continuation of [getLog] and for that of [getLogForPath]. *)
Theorem more_merges_pages (log : GitLog.core) rev options limit w a b c d e :
  untilReached log (moreUntilOf limit) = false ->
  NoDup [a; b; c; d; e] ->
  JsMap.keys (GitLog.commits log) = [a; b; c] ->
  let moreLimit := getPagingLimit P (moreLimitOf limit) in
  let merged (moreLog mergedLog : GitLog.t) :=
    JsMap.keys (GitLog.commits mergedLog) = [a; b; c; d; e]
    /\ GitLog.count mergedLog = 5
    /\ JsMap.get a (GitLog.commits mergedLog) = JsMap.get a (GitLog.commits log)
    /\ JsMap.get b (GitLog.commits mergedLog) = JsMap.get b (GitLog.commits log)
    /\ JsMap.get c (GitLog.commits mergedLog) = JsMap.get c (GitLog.commits moreLog)
    /\ JsMap.get d (GitLog.commits mergedLog) = JsMap.get d (GitLog.commits moreLog)
    /\ JsMap.get e (GitLog.commits mergedLog) = JsMap.get e (GitLog.commits moreLog) in
  (forall (moreLog : GitLog.t) w',
     JsMap.keys (GitLog.commits moreLog) = [c; d; e] ->
     getLog P (Some (GitLog.repoPath log)) rev
       (Some (GitLogOptions.with_limit_cursor
                (default GitLogOptions.none options)
                (Some moreLimit) (GitLog.endingCursor log))) w
       = (Returns (Some moreLog), w') ->
     exists mergedLog,
       getLogMoreFn P log rev options limit w = (Returns mergedLog, w')
       /\ merged moreLog mergedLog)
  /\ (forall relativePath pathOptions (moreLog : GitLog.t) w',
        JsMap.keys (GitLog.commits moreLog) = [c; d; e] ->
        getLogForPath P (Some (GitLog.repoPath log)) relativePath rev
          (Some (GitLogForPathOptions.with_limit_cursor pathOptions
                   (Some (match moreUntilOf limit with
                          | None => moreLimit
                          | Some _ => 0
                          end))
                   (GitLog.endingCursor log))) w
          = (Returns (Some moreLog), w') ->
        exists mergedLog,
          getLogForPathMoreFn P log relativePath rev pathOptions limit w
            = (Returns mergedLog, w')
          /\ merged moreLog mergedLog).
Proof.
  intros Huntil Hnd Hkeys moreLimit merged. split.
  - intros moreLog w' Hmore Hfetch. unfold getLogMoreFn. rewrite Huntil.
    unfold bind. fold moreLimit. rewrite Hfetch.
    eexists. split; [reflexivity|]. unfold merged, attachMore. simpl.
    apply (merge_abc_cde _ _ a b c d e); done.
  - intros relativePath pathOptions moreLog w' Hmore Hfetch.
    unfold getLogForPathMoreFn. rewrite Huntil.
    unfold bind. fold moreLimit. rewrite Hfetch.
    eexists. split; [reflexivity|]. unfold merged, attachMore. simpl.
    apply (merge_abc_cde _ _ a b c d e); done.
Qed.

(** C3. For every log and every id [u] such that some commit of the
    log has [ref] [u], [more({ until: u })] returns the log the
    continuation was made for, as it is, and the world as it was: no
    request, no write. This holds for the continuation of [getLog] and
    for that of [getLogForPath]. An id is the object id the remote
    gives a commit, a hash, and so never the empty string, which is
    what [u <> ""] says: the code tests [moreUntil && ...] before it
    looks for the commit. *)
Theorem more_until_already_present
    (log : GitLog.core) rev options relativePath pathOptions u w :
  u <> "" ->
  (exists c, c ∈ JsMap.values (GitLog.commits log) /\ GitCommit.ref c = u) ->
  getLogMoreFn P log rev options (Some (MoreUntil u)) w
    = (Returns (GitLog.captured (GitLog.LogMoreFn log rev options)), w)
  /\ getLogForPathMoreFn P log relativePath rev pathOptions (Some (MoreUntil u)) w
    = (Returns (GitLog.captured
                  (GitLog.LogForPathMoreFn log relativePath rev pathOptions)), w)
  /\ GitLog.base (GitLog.captured (GitLog.LogMoreFn log rev options)) = log
  /\ GitLog.base (GitLog.captured
                    (GitLog.LogForPathMoreFn log relativePath rev pathOptions))
     = log.
Proof.
  intros Hu Hc. unfold getLogMoreFn, getLogForPathMoreFn.
  change (moreUntilOf (Some (MoreUntil u))) with (Some u).
  rewrite (untilReached_present log u Hu Hc). done.
Qed.

(** C4, as the code has it. When [more] goes to the remote and the
    request for the next page is rejected, [more] returns
    [{ ...log, hasMore: false, more: undefined }]: the prior log with
    [hasMore] false and no continuation, every other field as it was,
    and nothing is thrown. For the continuation of [getLogForPath] this
    is under the conditions that make it fetch: the path is not the
    repository itself, [isFolder] is settled, and the prior log has an
    ending cursor. (A page without commits is not a failure: the fetch
    returns a log, and it is merged like any other.) *)
Theorem more_fetch_failure (log : GitLog.core) rev options limit w ex :
  untilReached log (moreUntilOf limit) = false ->
  (forall request, github_getCommits P (requests w) request = Throws ex) ->
  (exists w', getLogMoreFn P log rev options limit w = (Returns (exhausted log), w'))
  /\ (forall relativePath pathOptions cursor,
        GitLog.repoPath log <> getRelativePath P relativePath (GitLog.repoPath log) ->
        GitLogForPathOptions.isFolder pathOptions <> None ->
        GitLog.endingCursor log = Some cursor ->
        exists w', getLogForPathMoreFn P log relativePath rev pathOptions limit w
                   = (Returns (exhausted log), w'))
  /\ GitLog.more (exhausted log) = None
  /\ GitLog.hasMore (exhausted log) = false
  /\ GitLog.commits (exhausted log) = GitLog.commits log
  /\ GitLog.count (exhausted log) = GitLog.count log
  /\ GitLog.sha (exhausted log) = GitLog.sha log
  /\ GitLog.repoPath (exhausted log) = GitLog.repoPath log
  /\ GitLog.limit (exhausted log) = GitLog.limit log
  /\ GitLog.startingCursor (exhausted log) = GitLog.startingCursor log
  /\ GitLog.endingCursor (exhausted log) = GitLog.endingCursor log
  /\ GitLog.query (exhausted log) = GitLog.query log.
Proof.
  intros Huntil Hthrows. split; [|split; [|done]].
  - unfold getLogMoreFn. rewrite Huntil. unfold bind.
    destruct (getLog_remote_throws (Some (GitLog.repoPath log)) rev
                (Some (GitLogOptions.with_limit_cursor
                         (default GitLogOptions.none options)
                         (Some (getPagingLimit P (moreLimitOf limit)))
                         (GitLog.endingCursor log))) w ex Hthrows) as (w' & ->).
    by eexists.
  - intros relativePath pathOptions cursor Hroot Hfolder Hcursor.
    unfold getLogForPathMoreFn. rewrite Huntil. unfold bind.
    edestruct (getLogForPath_cursor_remote_throws (GitLog.repoPath log)
                 relativePath rev) as (w' & ->); [done| | |done|by eexists].
    + by destruct pathOptions.
    + rewrite Hcursor. by destruct pathOptions.
Qed.

(** C5. Every log returned by [getLog], [getLogForPath],
    [searchCommits] or a [more] continuation is well formed: no id is
    held twice, [count] is the number of entries of [commits], a log
    whose [hasMore] is false has no [more], and a [more] it has is the
    continuation made for it. [getLogForPath] may return what the cache
    holds, so it is taken in a world whose cached logs are well formed,
    and it leaves such a world; so does [more], called on a well-formed
    log. The world without documents is such a world. *)
Theorem returned_logs_well_formed :
  (forall repoPath rev options w log w',
     getLog P repoPath rev options w = (Returns (Some log), w') -> log_ok log)
  /\ (forall repoPath pathOrUri rev options w log w',
        cache_ok w ->
        getLogForPath P repoPath pathOrUri rev options w = (Returns (Some log), w') ->
        log_ok log /\ cache_ok w')
  /\ (forall repoPath search source options w search' log w',
        searchCommits P repoPath search source options w
          = (Returns (search', Some log), w') ->
        log_ok log)
  /\ (forall (log : GitLog.t) fn limit w log' w',
        log_ok log ->
        GitLog.more log = Some fn ->
        cache_ok w ->
        callMore P fn limit w = (Returns log', w') ->
        log_ok log' /\ cache_ok w').
Proof.
  split; [|split; [|split]].
  - intros repoPath rev options w log w'. apply getLog_ok.
  - intros repoPath pathOrUri rev options w log w' Hw Hrun.
    destruct (getLogForPath_ok _ _ _ _ _ _ _ Hw Hrun) as [Hlog Hw'].
    split; [by apply Hlog|done].
  - intros repoPath search source options w search' log w' Hrun.
    destruct (searchCommits_sound _ _ _ _ _ _ _ Hrun) as [_ Hok].
    by apply (Hok search').
  - intros log fn limit w log' w' Hlog Hmore Hw Hrun.
    eapply callMore_ok; [|exact Hw|exact Hrun].
    by rewrite (ok_captured _ Hlog fn Hmore).
Qed.

(** C6. Take a query of [getLogForPath] that is cached under [key],
    that the cache does not answer, and whose fetch
    ([getLogForPathCore]) rejects with [ex]. The call returns what
    [emptyPromise] holds, and leaves under [key] the entry
    [{ item: emptyPromise, errorMessage: ex }]. The same query, made
    again at once, returns the same empty result and leaves the world
    as it is: the remote client is not asked a second time. *)
Theorem getLogForPath_negative_cache
    w repoPath pathOrUri rev options relativePath' options' key ex :
  let relativePath := getRelativePath P pathOrUri repoPath in
  repoPath <> relativePath ->
  resolveFolder P repoPath relativePath rev (effectiveOptions P options) w
    = (Returns (relativePath', options'), w) ->
  logCacheKey rev options' = Some key ->
  (forall state,
     documents w !! (repoPath, relativePath') = Some state ->
     lookupLogForPath state key repoPath pathOrUri rev options' = None) ->
  (getLogForPathCore P (Some repoPath) relativePath' rev options' w).1
    = Throws ex ->
  exists w1,
    getLogForPath P (Some repoPath) pathOrUri rev options w
      = (Returns emptyPromise, w1)
    /\ getCachedLog (repoPath, relativePath') key w1
       = Some (CachedLog.mk emptyPromise (Some ex))
    /\ getLogForPath P (Some repoPath) pathOrUri rev options w1
       = (Returns emptyPromise, w1).
Proof.
  intros relativePath Hroot Hres Hkey Hmiss Hcore.
  assert (forall w0, resolveFolder P repoPath relativePath rev
                       (effectiveOptions P options) w0
                     = (Returns (relativePath', options'), w0)) as Hres'.
  { intros w0. apply injective_projections; simpl.
    - rewrite (resolveFolder_outcome _ _ _ _ w0 w). by rewrite Hres.
    - apply resolveFolder_world. }
  assert (forall w0, getLogForPath P (Some repoPath) pathOrUri rev options w0
    = match
        match documents w0 !! (repoPath, relativePath') with
        | Some state => lookupLogForPath state key repoPath pathOrUri rev options'
        | None => None
        end
      with
      | Some cached => (Returns cached, w0)
      | None => bind (ensureState (repoPath, relativePath'))
                  (fun _ => fetchLogForPath P repoPath relativePath' rev options'
                              (Some key)) w0
      end) as Hunfold.
  { intros w0. unfold getLogForPath. fold relativePath.
    rewrite decide_False by done. unfold bind at 1. rewrite Hres'.
    by rewrite Hkey. }
  assert (exists state0 w0,
            bind (ensureState (repoPath, relativePath'))
              (fun _ => fetchLogForPath P repoPath relativePath' rev options'
                          (Some key)) w
            = fetchLogForPath P repoPath relativePath' rev options' (Some key) w0
            /\ documents w0 !! (repoPath, relativePath') = Some state0
            /\ requests w0 = requests w) as (state0 & w0 & Hrun & Hdoc0 & Hreq0).
  { unfold bind, ensureState.
    destruct (documents w !! (repoPath, relativePath')) as [state|] eqn:Hd.
    - exists state, w. done.
    - exists ∅, (mkWorld (<[(repoPath, relativePath') := ∅]> (documents w))
                   (requests w)).
      split; [done|]. split; [|done]. simpl. apply lookup_insert_eq. }
  assert ((getLogForPathCore P (Some repoPath) relativePath' rev options' w0).1
          = Throws ex) as Hcore0.
  { destruct w0 as [d0 r0]. simpl in Hreq0. subst r0.
    destruct (getLogForPathCore_documents (Some repoPath) relativePath' rev
                options' w d0) as [-> _]. exact Hcore. }
  destruct (fetchLogForPath_rejected repoPath relativePath' rev options' key ex
              w0 state0 Hdoc0 Hcore0) as (w1 & Hfetch & Hdocs1).
  assert (getCachedLog (repoPath, relativePath') key w1
          = Some (CachedLog.mk emptyPromise (Some ex))) as Hneg.
  { unfold getCachedLog. rewrite Hdocs1, lookup_insert_eq.
    apply lookup_insert_eq. }
  exists w1. split; [|split; [exact Hneg|]].
  - rewrite Hunfold.
    destruct (documents w !! (repoPath, relativePath')) as [state|] eqn:Hd.
    + rewrite (Hmiss state eq_refl). by rewrite Hrun.
    + by rewrite Hrun.
  - rewrite Hunfold. unfold getCachedLog in Hneg.
    destruct (documents w1 !! (repoPath, relativePath')) as [state1|]; [|done].
    unfold lookupLogForPath. by rewrite Hneg.
Qed.


(** C8. When [more] fetches a page and the fetch returns a log, the
    merged log's [endingCursor] is that of the fetched page. Called
    with a number, or with nothing, the merged log's [limit] is the
    prior log's limit (0 when it has none) plus the page size [more]
    asked for, which is the caller's number as the paging-limit policy
    grants it ([getPagingLimit]): the caller's own number wherever the
    policy grants it as it is. Called with [{ until }] for a commit the
    log does not hold, the merged log has no [limit]. This holds for
    the continuation of [getLog] and for that of [getLogForPath]. *)
Theorem more_cursor_and_limit (log : GitLog.core) rev options w :
  (forall (n : option Z) moreLog w',
     getLog P (Some (GitLog.repoPath log)) rev
       (Some (GitLogOptions.with_limit_cursor
                (default GitLogOptions.none options)
                (Some (getPagingLimit P n)) (GitLog.endingCursor log))) w
       = (Returns (Some moreLog), w') ->
     exists mergedLog,
       getLogMoreFn P log rev options (MoreLimit <$> n) w
         = (Returns mergedLog, w')
       /\ GitLog.endingCursor mergedLog = GitLog.endingCursor moreLog
       /\ GitLog.limit mergedLog
          = Some (default 0 (GitLog.limit log) + getPagingLimit P n)
       /\ (forall k, n = Some k -> getPagingLimit P (Some k) = k ->
                     GitLog.limit mergedLog
                     = Some (default 0 (GitLog.limit log) + k)))
  /\ (forall u moreLog w',
        untilReached log (Some u) = false ->
        getLog P (Some (GitLog.repoPath log)) rev
          (Some (GitLogOptions.with_limit_cursor
                   (default GitLogOptions.none options)
                   (Some (getPagingLimit P None)) (GitLog.endingCursor log))) w
          = (Returns (Some moreLog), w') ->
        exists mergedLog,
          getLogMoreFn P log rev options (Some (MoreUntil u)) w
            = (Returns mergedLog, w')
          /\ GitLog.endingCursor mergedLog = GitLog.endingCursor moreLog
          /\ GitLog.limit mergedLog = None)
  /\ (forall (n : option Z) relativePath pathOptions moreLog w',
        getLogForPath P (Some (GitLog.repoPath log)) relativePath rev
          (Some (GitLogForPathOptions.with_limit_cursor pathOptions
                   (Some (getPagingLimit P n)) (GitLog.endingCursor log))) w
          = (Returns (Some moreLog), w') ->
        exists mergedLog,
          getLogForPathMoreFn P log relativePath rev pathOptions
            (MoreLimit <$> n) w
            = (Returns mergedLog, w')
          /\ GitLog.endingCursor mergedLog = GitLog.endingCursor moreLog
          /\ GitLog.limit mergedLog
             = Some (default 0 (GitLog.limit log) + getPagingLimit P n)
          /\ (forall k, n = Some k -> getPagingLimit P (Some k) = k ->
                        GitLog.limit mergedLog
                        = Some (default 0 (GitLog.limit log) + k)))
  /\ (forall u relativePath pathOptions moreLog w',
        untilReached log (Some u) = false ->
        getLogForPath P (Some (GitLog.repoPath log)) relativePath rev
          (Some (GitLogForPathOptions.with_limit_cursor pathOptions
                   (Some 0) (GitLog.endingCursor log))) w
          = (Returns (Some moreLog), w') ->
        exists mergedLog,
          getLogForPathMoreFn P log relativePath rev pathOptions
            (Some (MoreUntil u)) w
            = (Returns mergedLog, w')
          /\ GitLog.endingCursor mergedLog = GitLog.endingCursor moreLog
          /\ GitLog.limit mergedLog = None).
Proof.
  split; [|split; [|split]].
  - intros n moreLog w' Hfetch. unfold getLogMoreFn.
    assert (moreUntilOf (MoreLimit <$> n) = None) as -> by (by destruct n).
    assert (moreLimitOf (MoreLimit <$> n) = n) as -> by (by destruct n).
    unfold untilReached, bind. rewrite Hfetch.
    eexists. split; [reflexivity|]. unfold attachMore. simpl.
    split; [done|]. split; [done|]. by intros k -> ->.
  - intros u moreLog w' Huntil Hfetch. unfold getLogMoreFn.
    change (moreUntilOf (Some (MoreUntil u))) with (Some u).
    change (moreLimitOf (Some (MoreUntil u))) with (@None Z).
    rewrite Huntil. unfold bind. rewrite Hfetch.
    eexists. split; [reflexivity|]. done.
  - intros n relativePath pathOptions moreLog w' Hfetch.
    unfold getLogForPathMoreFn.
    assert (moreUntilOf (MoreLimit <$> n) = None) as -> by (by destruct n).
    assert (moreLimitOf (MoreLimit <$> n) = n) as -> by (by destruct n).
    unfold untilReached, bind. rewrite Hfetch.
    eexists. split; [reflexivity|]. unfold attachMore. simpl.
    split; [done|]. split; [done|]. by intros k -> ->.
  - intros u relativePath pathOptions moreLog w' Huntil Hfetch.
    unfold getLogForPathMoreFn.
    change (moreUntilOf (Some (MoreUntil u))) with (Some u).
    change (moreLimitOf (Some (MoreUntil u))) with (@None Z).
    rewrite Huntil. unfold bind. rewrite Hfetch.
    eexists. split; [reflexivity|]. done.
Qed.

(** C9. When the relative path of the argument is the repository path
    itself, [getLogForPath] throws at once: the world is as it was, so
    nothing was fetched and the cache was not touched, and the error is
    not turned into [undefined] or an empty result. *)
Theorem getLogForPath_rejects_repository_root repoPath pathOrUri rev options w :
  getRelativePath P pathOrUri repoPath = repoPath ->
  getLogForPath P (Some repoPath) pathOrUri rev options w
  = (Throws ("Path cannot match the repository path; path=" +:+ repoPath), w).
Proof.
  intros H. unfold getLogForPath. rewrite H. by rewrite decide_True.
Qed.

(** C10. Whatever options the caller passes, the options
    [getLogForPath] works with have [all = false] and
    [renames = false], so the key of the whole file is plain "log";
    the call does the same, to the last field of its result and of the
    world, whatever [all] and [renames] the caller asked for; and the
    request it sends to the remote, if it sends one, carries
    [all = false]. *)
Theorem getLogForPath_all_and_renames_off :
  (forall options,
     GitLogForPathOptions.all (effectiveOptions P options) = Some false
     /\ GitLogForPathOptions.renames (effectiveOptions P options) = Some false
     /\ wholeFileKey (effectiveOptions P options) = "log")
  /\ (forall repoPath pathOrUri rev options all renames w,
        getLogForPath P repoPath pathOrUri rev
          (Some (GitLogForPathOptions.with_all_limit_renames options all
                   (GitLogForPathOptions.limit options) renames)) w
        = getLogForPath P repoPath pathOrUri rev (Some options) w)
  /\ (forall repoPath pathOrUri rev options w,
        let w' := (getLogForPath P repoPath pathOrUri rev options w).2 in
        requests w' = requests w
        \/ exists request,
             requests w' = requests w ++ [CallGetCommits request]
             /\ CommitsRequest.all request = Some false).
Proof.
  split; [|split].
  - intros options. by destruct options as [[]|].
  - intros repoPath pathOrUri rev options all renames w.
    unfold getLogForPath.
    replace (effectiveOptions P
               (Some (GitLogForPathOptions.with_all_limit_renames options all
                        (GitLogForPathOptions.limit options) renames)))
      with (effectiveOptions P (Some options)); [done|].
    by destruct options.
  - intros repoPath pathOrUri rev options w. simpl.
    unfold getLogForPath. destruct repoPath as [repoPath|]; [|by left].
    destruct (decide _); [by left|].
    unfold bind.
    pose proof (resolveFolder_world repoPath (getRelativePath P pathOrUri repoPath)
                  rev (effectiveOptions P options) w) as Hw.
    pose proof (resolveFolder_all repoPath (getRelativePath P pathOrUri repoPath)
                  rev (effectiveOptions P options) w) as Hall.
    destruct (resolveFolder P repoPath _ rev (effectiveOptions P options) w)
      as [[[path' options']|ex] w0]; simpl in Hw; subst w0; [|by left].
    destruct (Hall path' options' eq_refl) as [Hall' _].
    assert (GitLogForPathOptions.all options' = Some false) as Hoff.
    { rewrite Hall'. by destruct options as [[]|]. }
    assert (forall cacheKey w0, requests w0 = requests w ->
      requests (fetchLogForPath P repoPath path' rev options' cacheKey w0).2
        = requests w
      \/ exists request,
           requests (fetchLogForPath P repoPath path' rev options' cacheKey w0).2
             = requests w ++ [CallGetCommits request]
           /\ CommitsRequest.all request = Some false) as Hfetch.
    { intros cacheKey w0 Hw0. rewrite fetchLogForPath_requests.
      destruct (getLogForPathCore_world (Some repoPath) path' rev options' w0)
        as [_ [Hr|(request & Hr & Ha & _)]]; rewrite Hr, Hw0; [by left|].
      right. exists request. split; [done|]. by rewrite Ha. }
    destruct (logCacheKey rev options') as [key|]; [|by apply Hfetch].
    destruct (match documents w !! (repoPath, path') with
              | Some state => lookupLogForPath state key repoPath pathOrUri rev options'
              | None => None
              end); [by left|].
    unfold ensureState.
    destruct (documents w !! (repoPath, path')); by apply Hfetch.
Qed.

End ProviderFacts.

(** * Examples *)

(** C1 at the log [c5, c4, c3, c2, c1], from "c3", two entries: the
    result is [c3, c2] and the world is untouched. *)
Lemma getLogForPath_copies_cached_log_witness :
  exists log,
    getLogForPath failingProvider (Some "repo") "file" (Some "c3") (limitOption 2)
      wholeFileWorld
    = (Returns (Some log), wholeFileWorld)
    /\ GitLog.commits log
       = take (Z.to_nat (getPagingLimit failingProvider (Some 2)))
           (drop 2 (GitLog.commits wholeFileLog))
    /\ GitLog.count log = JsMap.size (GitLog.commits log)
    /\ GitLog.limit log = Some (getPagingLimit failingProvider (Some 2))
    /\ GitLog.hasMore log = false
    /\ GitLog.repoPath log = GitLog.repoPath wholeFileLog
    /\ GitLog.sha log = GitLog.sha wholeFileLog.
Proof.
  apply (getLogForPath_copies_cached_log failingProvider wholeFileWorld
           "repo" "file" "c3" 2 (Some "blob")
           {[ "log" := CachedLog.mk (Some wholeFileLog) None ]}
           (CachedLog.mk (Some wholeFileLog) None) wholeFileLog 2%nat).
  - vm_compute. discriminate.
  - reflexivity.
  - reflexivity.
  - discriminate.
  - vm_compute. reflexivity.
  - intros key H. vm_compute in H. injection H as <-. vm_compute. reflexivity.
  - vm_compute. reflexivity.
  - reflexivity.
  - reflexivity.
  - apply (bool_decide_unpack _). vm_compute. exact I.
  - reflexivity.
Defined.

(** C1 as stated fails twice. Under a policy that grants two entries a
    page, [{ limit: 3 }] from "c5" returns [c5, c4], not the three
    entries [c5, c4, c3]. And where an earlier failure of the very
    query sits under the query's own key, the call replays it: it
    returns no log, though the log of the whole file is cached, fully
    fetched, and holds "c3". *)
Lemma getLogForPath_limit_counterexample :
  (exists log,
     getLogForPath tightProvider (Some "repo") "file" (Some "c5") (limitOption 3)
       wholeFileWorld
     = (Returns (Some log), wholeFileWorld)
     /\ JsMap.keys (GitLog.commits log) = ["c5"; "c4"]
     /\ JsMap.keys (take 3 (drop 0 (GitLog.commits wholeFileLog)))
        = ["c5"; "c4"; "c3"])
  /\ getLogForPath failingProvider (Some "repo") "file" (Some "c3") (limitOption 2)
       wholeFileWorldWithFailure
     = (Returns None, wholeFileWorldWithFailure).
Proof.
  split.
  - eexists. split; [vm_compute; reflexivity|]. split; reflexivity.
  - vm_compute. reflexivity.
Qed.

(** C2 at the pages [a, b, c] and [c, d, e] of the remote *)
Lemma more_merges_pages_witness :
  exists mergedLog,
    getLogMoreFn secondPageProvider firstPage (Some "a") None None emptyWorld
    = (Returns mergedLog,
       (getLog secondPageProvider (Some "repo") (Some "a")
          (Some (GitLogOptions.with_limit_cursor GitLogOptions.none
                   (Some 50) (Some "cursor1"))) emptyWorld).2)
    /\ JsMap.keys (GitLog.commits mergedLog) = ["a"; "b"; "c"; "d"; "e"]
    /\ GitLog.count mergedLog = 5.
Proof.
  destruct (getLog secondPageProvider (Some "repo") (Some "a")
              (Some (GitLogOptions.with_limit_cursor GitLogOptions.none
                       (Some 50) (Some "cursor1"))) emptyWorld)
    as [[[moreLog|]|ex] w'] eqn:Hfetch; try (vm_compute in Hfetch; discriminate).
  assert (JsMap.keys (GitLog.commits moreLog) = ["c"; "d"; "e"]) as Hkeys.
  { vm_compute in Hfetch. injection Hfetch as <- _. reflexivity. }
  destruct (proj1 (more_merges_pages secondPageProvider firstPage (Some "a") None
                     None emptyWorld "a" "b" "c" "d" "e"
                     eq_refl
                     ltac:(apply (bool_decide_unpack _); vm_compute; exact I)
                     eq_refl)
              moreLog w' Hkeys Hfetch) as (mergedLog & Hrun & Hk & Hc & _).
  exists mergedLog. split; [exact Hrun|]. split; [exact Hk|exact Hc].
Defined.

(** C2 as stated fails. The commit the prior log holds at "c" and the
    one the second page brings for "c" are two objects; here they also
    differ in their message, so that it shows which one the merged log
    holds: after the merge "c" reads the commit of the second page. *)
Lemma more_overwrites_counterexample :
  exists mergedLog w',
    getLogMoreFn secondPageProvider firstPage (Some "a") None None emptyWorld
    = (Returns mergedLog, w')
    /\ JsMap.get "c" (GitLog.commits firstPage) = Some (exampleCommit "c" "c")
    /\ JsMap.get "c" (GitLog.commits mergedLog)
       = Some (exampleCommit "c" "c, as the second page has it")
    /\ JsMap.get "c" (GitLog.commits mergedLog)
       <> JsMap.get "c" (GitLog.commits firstPage).
Proof.
  eexists _, _. split; [vm_compute; reflexivity|].
  split; [reflexivity|]. split; [reflexivity|]. vm_compute. discriminate.
Qed.

(** C3 at [until = "b"] on the page [a, b, c] *)
Lemma more_until_already_present_witness :
  getLogMoreFn failingProvider firstPage (Some "a") None (Some (MoreUntil "b"))
    emptyWorld
  = (Returns (GitLog.captured (GitLog.LogMoreFn firstPage (Some "a") None)),
     emptyWorld)
  /\ getLogForPathMoreFn failingProvider firstPage "file" (Some "a")
       GitLogForPathOptions.none (Some (MoreUntil "b")) emptyWorld
     = (Returns (GitLog.captured
                   (GitLog.LogForPathMoreFn firstPage "file" (Some "a")
                      GitLogForPathOptions.none)),
        emptyWorld)
  /\ GitLog.base (GitLog.captured (GitLog.LogMoreFn firstPage (Some "a") None))
     = firstPage
  /\ GitLog.base (GitLog.captured
                    (GitLog.LogForPathMoreFn firstPage "file" (Some "a")
                       GitLogForPathOptions.none))
     = firstPage.
Proof.
  apply (more_until_already_present failingProvider firstPage (Some "a") None
           "file" GitLogForPathOptions.none "b" emptyWorld).
  - discriminate.
  - exists (exampleCommit "b" "b"). split; [|reflexivity].
    vm_compute. apply list_elem_of_In. vm_compute. right. left. reflexivity.
Defined.

(** C4 at a remote that rejects every request *)
Lemma more_fetch_failure_witness :
  (exists w',
     getLogMoreFn failingProvider firstPage (Some "a") None None emptyWorld
     = (Returns (exhausted firstPage), w'))
  /\ (exists w',
        getLogForPathMoreFn failingProvider firstPage "file" (Some "a")
          (GitLogForPathOptions.with_isFolder GitLogForPathOptions.none (Some false))
          None emptyWorld
        = (Returns (exhausted firstPage), w'))
  /\ GitLog.more (exhausted firstPage) = None
  /\ GitLog.hasMore (exhausted firstPage) = false.
Proof.
  destruct (more_fetch_failure failingProvider firstPage (Some "a") None None
              emptyWorld "Error: boom" eq_refl (fun _ => eq_refl))
    as (Hlog & Hpath & Hmore & Hhas & _).
  split; [exact Hlog|]. split; [|split; [exact Hmore|exact Hhas]].
  apply (Hpath "file"
           (GitLogForPathOptions.with_isFolder GitLogForPathOptions.none (Some false))
           "cursor1").
  - vm_compute. discriminate.
  - discriminate.
  - reflexivity.
Defined.

(** C4 as stated fails at a page without commits: the remote answers
    with no values and no paging, and [more] returns a merged log, with
    the commits of the prior log, whose [limit] went from 3 to 53 and
    whose [endingCursor] is gone. *)
Lemma more_empty_page_counterexample :
  exists mergedLog w',
    getLogMoreFn emptyPageProvider firstPage (Some "a") None None emptyWorld
    = (Returns mergedLog, w')
    /\ GitLog.commits mergedLog = GitLog.commits firstPage
    /\ GitLog.limit firstPage = Some 3
    /\ GitLog.limit mergedLog = Some 53
    /\ GitLog.endingCursor firstPage = Some "cursor1"
    /\ GitLog.endingCursor mergedLog = None
    /\ mergedLog <> exhausted firstPage.
Proof.
  eexists _, _. split; [vm_compute; reflexivity|].
  repeat (split; [reflexivity|]). vm_compute. discriminate.
Qed.

(** C5 at a log fetched for a path into the world without documents,
    and at the log [more] then returns for the page [a, b, c] *)
Lemma returned_logs_well_formed_witness :
  exists log w' log' w'',
    getLogForPath secondPageProvider (Some "repo") "file" None None emptyWorld
    = (Returns (Some log), w')
    /\ log_ok log /\ cache_ok w'
    /\ callMore secondPageProvider (GitLog.LogMoreFn firstPage (Some "a") None)
         None w'
       = (Returns log', w'')
    /\ log_ok log' /\ cache_ok w''.
Proof.
  pose proof (returned_logs_well_formed secondPageProvider)
    as (_ & Hpath & _ & Hmore).
  destruct (getLogForPath secondPageProvider (Some "repo") "file" None None
              emptyWorld) as [[[log|]|ex] w'] eqn:Hrun;
    try (vm_compute in Hrun; discriminate).
  destruct (Hpath _ _ _ _ _ _ _ cache_ok_emptyWorld Hrun) as [Hlog Hw'].
  destruct (callMore secondPageProvider (GitLog.LogMoreFn firstPage (Some "a") None)
              None w') as [[log'|ex] w''] eqn:Hrun'.
  2:{ exfalso. revert Hrun'. vm_compute in Hrun. injection Hrun as _ <-.
      vm_compute. discriminate. }
  assert (log_ok (GitLog.captured (GitLog.LogMoreFn firstPage (Some "a") None)))
    as Hfirst.
  { split; simpl; try done.
    - apply (bool_decide_unpack _). vm_compute. exact I.
    - by intros fn [= <-]. }
  destruct (Hmore _ _ _ _ _ _ Hfirst eq_refl Hw' Hrun') as [Hlog' Hw''].
  exists log, w', log', w''. done.
Defined.

(** C6 at a query for "c9", fifty at a time, that the remote rejects *)
Lemma getLogForPath_negative_cache_witness :
  exists w1,
    getLogForPath failingProvider (Some "repo") "file" (Some "c9") None emptyWorld
    = (Returns emptyPromise, w1)
    /\ getCachedLog ("repo", "file") "log:c9:n50" w1
       = Some (CachedLog.mk emptyPromise (Some "Error: boom"))
    /\ getLogForPath failingProvider (Some "repo") "file" (Some "c9") None w1
       = (Returns emptyPromise, w1).
Proof.
  apply (getLogForPath_negative_cache failingProvider emptyWorld "repo" "file"
           (Some "c9") None "file"
           (GitLogForPathOptions.with_isFolder
              (effectiveOptions failingProvider None) (Some false))
           "log:c9:n50" "Error: boom").
  - vm_compute. discriminate.
  - reflexivity.
  - vm_compute. reflexivity.
  - intros state H. vm_compute in H. discriminate.
  - reflexivity.
Defined.



(** C8 at [more(20)] and at [more({ until: "z" })] on the page
    [a, b, c], whose limit is 3: the first gives the limit 23, the
    second none. *)
Lemma more_cursor_and_limit_witness :
  (exists mergedLog w',
     getLogMoreFn secondPageProvider firstPage (Some "a") None
       (Some (MoreLimit 20)) emptyWorld
     = (Returns mergedLog, w')
     /\ GitLog.endingCursor mergedLog = Some "cursor2"
     /\ GitLog.limit mergedLog = Some (3 + 20))
  /\ (exists mergedLog w',
        getLogMoreFn secondPageProvider firstPage (Some "a") None
          (Some (MoreUntil "z")) emptyWorld
        = (Returns mergedLog, w')
        /\ GitLog.endingCursor mergedLog = Some "cursor2"
        /\ GitLog.limit mergedLog = None)
  /\ (exists mergedLog w',
        getLogForPathMoreFn secondPageProvider firstPage "file" (Some "a")
          (GitLogForPathOptions.with_isFolder GitLogForPathOptions.none
             (Some false))
          (Some (MoreUntil "z")) emptyWorld
        = (Returns mergedLog, w')
        /\ GitLog.endingCursor mergedLog = Some "cursor2"
        /\ GitLog.limit mergedLog = None).
Proof.
  pose proof (more_cursor_and_limit secondPageProvider firstPage (Some "a") None
                emptyWorld) as (Hnumber & Huntil & _).
  pose proof (more_cursor_and_limit secondPageProvider firstPage (Some "a") None
                emptyWorld) as (_ & _ & _ & Hpath).
  split; [|split].
  - destruct (getLog secondPageProvider (Some "repo") (Some "a")
                (Some (GitLogOptions.with_limit_cursor GitLogOptions.none
                         (Some 20) (Some "cursor1"))) emptyWorld)
      as [[[moreLog|]|ex] w'] eqn:Hfetch; try (vm_compute in Hfetch; discriminate).
    assert (GitLog.endingCursor moreLog = Some "cursor2") as Hcursor.
    { vm_compute in Hfetch. injection Hfetch as <- _. reflexivity. }
    destruct (Hnumber (Some 20) moreLog w' Hfetch)
      as (mergedLog & Hrun & Hc & _ & Hl).
    exists mergedLog, w'. split; [exact Hrun|]. split; [by rewrite Hc|].
    apply (Hl 20); reflexivity.
  - destruct (getLog secondPageProvider (Some "repo") (Some "a")
                (Some (GitLogOptions.with_limit_cursor GitLogOptions.none
                         (Some 50) (Some "cursor1"))) emptyWorld)
      as [[[moreLog|]|ex] w'] eqn:Hfetch; try (vm_compute in Hfetch; discriminate).
    assert (GitLog.endingCursor moreLog = Some "cursor2") as Hcursor.
    { vm_compute in Hfetch. injection Hfetch as <- _. reflexivity. }
    destruct (Huntil "z" moreLog w' eq_refl Hfetch)
      as (mergedLog & Hrun & Hc & Hl).
    exists mergedLog, w'. split; [exact Hrun|]. split; [by rewrite Hc|exact Hl].
  - destruct (getLogForPath secondPageProvider (Some "repo") "file" (Some "a")
                (Some (GitLogForPathOptions.with_limit_cursor
                         (GitLogForPathOptions.with_isFolder
                            GitLogForPathOptions.none (Some false))
                         (Some 0) (Some "cursor1"))) emptyWorld)
      as [[[moreLog|]|ex] w'] eqn:Hfetch; try (vm_compute in Hfetch; discriminate).
    assert (GitLog.endingCursor moreLog = Some "cursor2") as Hcursor.
    { vm_compute in Hfetch. injection Hfetch as <- _. reflexivity. }
    destruct (Hpath "z" "file"
                (GitLogForPathOptions.with_isFolder GitLogForPathOptions.none
                   (Some false))
                moreLog w' eq_refl Hfetch)
      as (mergedLog & Hrun & Hc & Hl).
    exists mergedLog, w'. split; [exact Hrun|]. split; [by rewrite Hc|exact Hl].
Defined.

(** C9 at the path "repo" in the repository "repo" *)
Lemma getLogForPath_rejects_repository_root_witness :
  getLogForPath failingProvider (Some "repo") "repo" None None wholeFileWorld
  = (Throws "Path cannot match the repository path; path=repo", wholeFileWorld).
Proof.
  apply (getLogForPath_rejects_repository_root failingProvider "repo" "repo"
           None None wholeFileWorld).
  reflexivity.
Defined.

(** The examples of the spec's section 8, on the log
    [c5, c4, c3, c2, c1]: from "c3", two entries, the slice is
    [c3, c2]; a revision that the fully fetched log does not hold is
    not answered from it, and the call goes to the remote. *)
Example sliceFrom_c3_two :
  JsMap.keys (sliceFrom "c3" 2 (GitLog.commits wholeFileLog)) = ["c3"; "c2"].
Proof. reflexivity. Qed.

Example absent_revision_is_fetched :
  length (requests
            (getLogForPath failingProvider (Some "repo") "file" (Some "c9")
               (limitOption 2) wholeFileWorld).2) = 1%nat.
Proof. vm_compute. reflexivity. Qed.

(** [set] on a key that is present keeps its place and replaces its
    value; on a new key it appends. *)
Example set_in_place :
  JsMap.set "b" 20 [("a", 1); ("b", 2); ("c", 3)] = [("a", 1); ("b", 20); ("c", 3)]
  /\ JsMap.set "d" 4 [("a", 1); ("b", 2); ("c", 3)]
     = [("a", 1); ("b", 2); ("c", 3); ("d", 4)].
Proof. split; reflexivity. Qed.

(** * More facts *)

(** ** The summary of a message *)

Lemma firstLine_no_newline s : ~ hasNewline (firstLine s).
Proof.
  induction s as [|c s IH]; simpl; [tauto|].
  destruct (decide (c = newline)); simpl; tauto.
Qed.

Lemma firstLine_split s :
  exists rest,
    s = firstLine s +:+ rest
    /\ (rest = "" \/ exists rest', rest = String newline rest').
Proof.
  induction s as [|c s (rest & Hs & Hrest)]; simpl.
  - exists "". split; [done|by left].
  - destruct (decide (c = newline)) as [->|Hc].
    + exists (String newline s). split; [done|]. right. by eexists.
    + exists rest. split; [|done]. rewrite Hs at 1. reflexivity.
Qed.

Lemma firstLine_whole s : ~ hasNewline s -> firstLine s = s.
Proof.
  induction s as [|c s IH]; simpl; [done|]. intros H.
  destruct (decide (c = newline)); [tauto|]. rewrite IH; tauto.
Qed.

(** X24. The summary of a commit is the first line of its message:
    [firstLine] has no line feed in it, the message is that line
    followed by nothing or by a line feed and the rest, and a message
    of one line is its own summary. *)
Theorem firstLine_is_first_line s :
  ~ hasNewline (firstLine s)
  /\ (exists rest,
        s = firstLine s +:+ rest
        /\ (rest = "" \/ exists rest', rest = String newline rest'))
  /\ (~ hasNewline s -> firstLine s = s).
Proof.
  split; [apply firstLine_no_newline|].
  split; [apply firstLine_split|apply firstLine_whole].
Qed.

(** ** The loop over a page *)

Lemma collectCommits_collectWith P repoPath viewer values :
  collectCommits P repoPath viewer values
  = collectWith (pageCommit P repoPath viewer) JsMap.empty values.
Proof. reflexivity. Qed.

Lemma collectPathCommits_collectWith P repoPath relativePath options viewer values :
  collectPathCommits P repoPath relativePath options viewer values
  = collectWith (pathPageCommit P repoPath relativePath options viewer)
      JsMap.empty values.
Proof. reflexivity. Qed.

Lemma filter_filter_absorb (l : list string) (m : list string) (x : string) :
  x ∈ m ->
  filter (fun k => k ∉ m) (filter (fun y => y <> x) l) = filter (fun k => k ∉ m) l.
Proof.
  intros Hx. induction l as [|a l IH]; [done|].
  destruct (decide (a = x)) as [->|Hne].
  - rewrite (filter_cons_False (fun y => y <> x)) by (intros H; by apply H).
    rewrite (filter_cons_False (fun k => k ∉ m)) by (intros H; by apply H).
    exact IH.
  - rewrite (filter_cons_True (fun y => y <> x)) by done.
    destruct (decide (a ∈ m)).
    + rewrite !(filter_cons_False (fun k => k ∉ m)) by (intros H; by apply H).
      exact IH.
    + rewrite !(filter_cons_True (fun k => k ∉ m)) by done. by rewrite IH.
Qed.

Lemma filter_filter_snoc (l : list string) (m : list string) (x : string) :
  filter (fun k => k ∉ m ++ [x]) l
  = filter (fun k => k ∉ m) (filter (fun y => y <> x) l).
Proof.
  induction l as [|a l IH]; [done|].
  destruct (decide (a = x)) as [->|Hne].
  - rewrite (filter_cons_False (fun y => y <> x)) by (intros H; by apply H).
    rewrite filter_cons_False; [done|].
    intros H. apply H. apply elem_of_app. right. by apply list_elem_of_singleton.
  - rewrite (filter_cons_True (fun y => y <> x)) by done.
    destruct (decide (a ∈ m)) as [Hin|Hn].
    + rewrite (filter_cons_False (fun k => k ∉ m)) by (intros H; by apply H).
      rewrite filter_cons_False; [done|].
      intros H. apply H. apply elem_of_app. by left.
    + rewrite (filter_cons_True (fun k => k ∉ m)) by done.
      rewrite filter_cons_True; [by rewrite IH|].
      rewrite not_elem_of_app, list_elem_of_singleton. done.
Qed.

Lemma collectWith_keys make commits values :
  JsMap.keys (collectWith make commits values)
  = JsMap.keys commits
    ++ filter (fun k => k ∉ JsMap.keys commits)
         (firstOccurrences (GitHubCommit.oid <$> values)).
Proof.
  unfold collectWith. revert commits.
  induction values as [|commit values IH]; intros commits; simpl.
  - by rewrite app_nil_r.
  - destruct (JsMap.get (GitHubCommit.oid commit) commits) eqn:E.
    + assert (GitHubCommit.oid commit ∈ JsMap.keys commits) as Hin.
      { apply JsMapFacts.has_true. unfold JsMap.has. by rewrite E. }
      rewrite IH.
      rewrite filter_cons_False by (intros H; by apply H).
      by rewrite filter_filter_absorb.
    + apply JsMapFacts.get_None in E. rewrite IH.
      rewrite JsMapFacts.keys_set_fresh by done.
      rewrite filter_cons_True by done. rewrite <- app_assoc. simpl.
      by rewrite filter_filter_snoc.
Qed.

Lemma collectWith_get make commits values k :
  JsMap.get k (collectWith make commits values)
  = match JsMap.get k commits with
    | Some c => Some c
    | None => make <$> firstRecord k values
    end.
Proof.
  unfold collectWith, firstRecord. revert commits.
  induction values as [|commit values IH]; intros commits; simpl.
  - by destruct (JsMap.get k commits).
  - rewrite IH. clear IH.
    destruct (decide (GitHubCommit.oid commit = k)) as [Heq|Hne].
    + destruct (JsMap.get (GitHubCommit.oid commit) commits) eqn:E.
      * rewrite <- Heq. by rewrite E.
      * rewrite JsMapFacts.get_set. rewrite decide_True by done.
        rewrite <- Heq. by rewrite E.
    + destruct (JsMap.get (GitHubCommit.oid commit) commits) eqn:E.
      * destruct (JsMap.get k commits); [done|].
        by destruct (list_find _ values) as [[]|].
      * rewrite JsMapFacts.get_set. rewrite decide_False by done.
        destruct (JsMap.get k commits); [done|].
        by destruct (list_find _ values) as [[]|].
Qed.

Lemma firstOccurrences_NoDup ids : NoDup (firstOccurrences ids).
Proof.
  induction ids as [|id ids IH]; simpl; [apply NoDup_nil_2|].
  apply NoDup_cons. split.
  - rewrite list_elem_of_filter. by intros [? _].
  - by apply NoDup_filter.
Qed.

Lemma firstOccurrences_elem ids x : x ∈ firstOccurrences ids <-> x ∈ ids.
Proof.
  induction ids as [|id ids IH]; simpl; [done|].
  rewrite !elem_of_cons, list_elem_of_filter, IH.
  destruct (decide (x = id)); intuition congruence.
Qed.

Lemma filter_all {A} (Q : A -> Prop) `{!forall x, Decision (Q x)} (l : list A) :
  (forall x, Q x) -> filter Q l = l.
Proof.
  intros Hall. induction l as [|a l IH]; [done|].
  rewrite filter_cons_True by done. by rewrite IH.
Qed.

Lemma collectWith_first_wins make values :
  JsMap.keys (collectWith make JsMap.empty values)
    = firstOccurrences (GitHubCommit.oid <$> values)
  /\ (forall k, JsMap.get k (collectWith make JsMap.empty values)
                = make <$> firstRecord k values)
  /\ JsMap.size (collectWith make JsMap.empty values)
     = Z.of_nat (length (firstOccurrences (GitHubCommit.oid <$> values))).
Proof.
  assert (JsMap.keys (collectWith make JsMap.empty values)
          = firstOccurrences (GitHubCommit.oid <$> values)) as Hkeys.
  { rewrite collectWith_keys. simpl.
    apply filter_all. intros x. apply not_elem_of_nil. }
  split; [exact Hkeys|]. split.
  - intros k. by rewrite collectWith_get.
  - by rewrite JsMapFacts.size_keys, Hkeys.
Qed.

Section MoreProviderFacts.

Context (P : Collaborators).

(** X1. The log [getLog] returns mirrors the page the remote answered
    with. Its ids are the ids of the page in the order they first
    appear, and each id holds the commit made of the first record that
    carries it: later records of an id are dropped. [count] is the
    number of distinct ids; [hasMore] and [endingCursor] are the paging
    data of the page ([false] and none when the page has no paging
    data); [limit] is the page size after the paging-limit policy. The
    one request sent asks for that page size from the caller's cursor,
    for no path, and the documents are left alone. *)
Theorem getLog_reflects_page repoPath rev options w log w' :
  getLog P repoPath rev options w = (Returns (Some log), w') ->
  exists repo ctx request result,
    repoPath = Some repo
    /\ ensureRepositoryContext P repo = Returns ctx
    /\ github_getCommits P (requests w) request = Returns result
    /\ w' = mkWorld (documents w) (requests w ++ [CallGetCommits request])
    /\ CommitsRequest.after request = options ≫= GitLogOptions.cursor
    /\ CommitsRequest.limit request
       = Some (getPagingLimit P (options ≫= GitLogOptions.limit))
    /\ CommitsRequest.path request = None
    /\ JsMap.keys (GitLog.commits log)
       = firstOccurrences (GitHubCommit.oid <$> CommitsResult.values result)
    /\ (forall k,
          JsMap.get k (GitLog.commits log)
          = pageCommit P repo
              (viewerOr (CommitsResult.viewer result)
                 (RepositoryContext.accountLabel ctx))
              <$> firstRecord k (CommitsResult.values result))
    /\ GitLog.count log
       = Z.of_nat (length (firstOccurrences
                             (GitHubCommit.oid <$> CommitsResult.values result)))
    /\ GitLog.hasMore log
       = default false (Paging.more <$> CommitsResult.paging result)
    /\ GitLog.endingCursor log = CommitsResult.paging result ≫= Paging.cursor
    /\ GitLog.limit log = Some (getPagingLimit P (options ≫= GitLogOptions.limit))
    /\ GitLog.repoPath log = repo.
Proof.
  unfold getLog. destruct repoPath as [repo|]; [|done].
  unfold tryCatch, bind, await.
  destruct (ensureRepositoryContext P repo) as [ctx|] eqn:Hctx; [|done].
  unfold resolveRevision, remote, ret, await.
  destruct rev as [r|]; [destruct (truthy r && negb (bool_decide (r = "HEAD")))|];
    try destruct (RepositoryContext.getRevision ctx); simpl; try done;
    match goal with
    | |- context [github_getCommits P (requests w) ?req] =>
        destruct (github_getCommits P (requests w) req) as [result|] eqn:Hres;
        [|done];
        intros [= <- <-]; exists repo, ctx, req, result;
        rewrite collectCommits_collectWith;
        destruct (collectWith_first_wins
                    (pageCommit P repo
                       (viewerOr (CommitsResult.viewer result)
                          (RepositoryContext.accountLabel ctx)))
                    (CommitsResult.values result)) as (Hk & Hg & Hs);
        unfold attachMore; simpl; repeat split; done
    end.
Qed.

(** X2. The log [getLogForPathCore] returns mirrors the page in the
    same way: ids in the order they first appear, the first record of
    an id kept, [count], [hasMore], [endingCursor] and [limit] as for
    [getLog]. The one request sent names the path relative to the
    provider's root and no author, and every commit is made for that
    path. *)
Theorem getLogForPathCore_reflects_page repoPath path rev options w log w' :
  getLogForPathCore P repoPath path rev options w = (Returns (Some log), w') ->
  exists repo ctx request result,
    let uri := getAbsoluteUri P path repo in
    let relativePath := getRelativePath P uri (getProviderRootUri P uri) in
    repoPath = Some repo
    /\ ensureRepositoryContext P repo = Returns ctx
    /\ github_getCommits P (requests w) request = Returns result
    /\ w' = mkWorld (documents w) (requests w ++ [CallGetCommits request])
    /\ CommitsRequest.after request = GitLogForPathOptions.cursor options
    /\ CommitsRequest.limit request
       = Some (getPagingLimit P (GitLogForPathOptions.limit options))
    /\ CommitsRequest.path request = Some relativePath
    /\ CommitsRequest.authors request = None
    /\ JsMap.keys (GitLog.commits log)
       = firstOccurrences (GitHubCommit.oid <$> CommitsResult.values result)
    /\ (forall k,
          JsMap.get k (GitLog.commits log)
          = pathPageCommit P repo relativePath options
              (viewerOr (CommitsResult.viewer result)
                 (RepositoryContext.accountLabel ctx))
              <$> firstRecord k (CommitsResult.values result))
    /\ GitLog.count log
       = Z.of_nat (length (firstOccurrences
                             (GitHubCommit.oid <$> CommitsResult.values result)))
    /\ GitLog.hasMore log
       = default false (Paging.more <$> CommitsResult.paging result)
    /\ GitLog.endingCursor log = CommitsResult.paging result ≫= Paging.cursor
    /\ GitLog.limit log
       = Some (getPagingLimit P (GitLogForPathOptions.limit options)).
Proof.
  unfold getLogForPathCore. destruct repoPath as [repo|]; [|done].
  unfold bind, await.
  destruct (ensureRepositoryContext P repo) as [ctx|] eqn:Hctx; [|done].
  unfold resolveRevision, remote, ret, await.
  destruct rev as [r|]; [destruct (truthy r && negb (bool_decide (r = "HEAD")))|];
    try destruct (RepositoryContext.getRevision ctx); simpl; try done;
    match goal with
    | |- context [github_getCommits P (requests w) ?req] =>
        destruct (github_getCommits P (requests w) req) as [result|] eqn:Hres;
        [|done];
        intros [= <- <-]; exists repo, ctx, req, result;
        rewrite collectPathCommits_collectWith;
        match goal with
        | |- context [collectWith ?make _ _] =>
            destruct (collectWith_first_wins make (CommitsResult.values result))
              as (Hk & Hg & Hs)
        end;
        unfold attachMore; simpl; repeat split; done
    end.
Qed.

End MoreProviderFacts.

(** ** What holds of every entry of a map *)

Section Entries.

Context (Q : string * GitCommit.t -> Prop).

Lemma Forall_set k v (m : JsMap.t GitCommit.t) :
  Q (k, v) -> Forall Q m -> Forall Q (JsMap.set k v m).
Proof.
  intros Hv. induction m as [|[k0 v0] m IH]; simpl.
  - intros _. by apply Forall_singleton.
  - intros [H0 Hm]%Forall_cons. destruct (decide (k = k0)).
    + by apply Forall_cons.
    + apply Forall_cons. split; [done|by apply IH].
Qed.

Lemma Forall_delete k (m : JsMap.t GitCommit.t) :
  Forall Q m -> Forall Q (JsMap.delete k m).
Proof.
  induction m as [|[k0 v0] m IH]; simpl; [done|].
  intros [H0 Hm]%Forall_cons. destruct (decide (k = k0)); [done|].
  apply Forall_cons. split; [done|by apply IH].
Qed.

Lemma Forall_foldl_set (es m : JsMap.t GitCommit.t) :
  Forall Q es -> Forall Q m ->
  Forall Q (foldl (fun m e => JsMap.set e.1 e.2 m) m es).
Proof.
  revert m. induction es as [|[k v] es IH]; intros m; simpl; [done|].
  intros [He Hes]%Forall_cons Hm. apply IH; [done|]. by apply Forall_set.
Qed.

Lemma Forall_of_entries (es : list (string * GitCommit.t)) :
  Forall Q es -> Forall Q (JsMap.of_entries es).
Proof. intros H. apply Forall_foldl_set; [done|apply Forall_nil_2]. Qed.

Lemma Forall_mergeCommits (log moreLog : JsMap.t GitCommit.t) :
  Forall Q log -> Forall Q moreLog -> Forall Q (mergeCommits log moreLog).
Proof.
  intros Hl Hm. apply Forall_of_entries. apply Forall_app. by split.
Qed.

Lemma Forall_copyFrom rev limit vars (es : list (string * GitCommit.t)) :
  Forall Q es -> Forall Q (filterMap (copyFrom rev limit) vars es).
Proof.
  revert vars. induction es as [|e es IH]; intros [skip i]; simpl; [done|].
  intros [He Hes]%Forall_cons.
  destruct (skip && negb (bool_decide (e.1 = rev))); [by apply IH|].
  destruct limit as [n|].
  - case_bool_decide; [by apply IH|]. apply Forall_cons. split; [done|by apply IH].
  - apply Forall_cons. split; [done|by apply IH].
Qed.

Lemma Forall_collectWith make (m : JsMap.t GitCommit.t) values :
  (forall commit, Q (GitHubCommit.oid commit, make commit)) ->
  Forall Q m -> Forall Q (collectWith make m values).
Proof.
  intros Hmake. unfold collectWith. revert m.
  induction values as [|commit values IH]; intros m Hm; simpl; [done|].
  apply IH. destruct (JsMap.get _ m); [done|]. by apply Forall_set.
Qed.

End Entries.

(** ** Commits sit under their shas *)

Lemma keyed_merge log moreLog :
  keyed log -> keyed moreLog -> keyed (mergeCommits log moreLog).
Proof. apply Forall_mergeCommits. Qed.

Lemma keyed_values_refs (m : JsMap.t GitCommit.t) :
  keyed m -> map GitCommit.ref (JsMap.values m) = JsMap.keys m.
Proof.
  unfold keyed, JsMap.values, JsMap.keys, GitCommit.ref.
  induction m as [|[k c] m IH]; [done|].
  intros [Hc Hm]%Forall_cons. simpl in *. rewrite Hc. f_equal. by apply IH.
Qed.

(** On a map whose commits sit under their shas, the test of [more]
    for a commit with a given [ref] is the lookup of the key. *)
Lemma untilReached_keyed (log : GitLog.core) u :
  keyed (GitLog.commits log) ->
  untilReached log (Some u) = truthy u && JsMap.has u (GitLog.commits log).
Proof.
  intros Hk. unfold untilReached. f_equal.
  apply eq_true_iff_eq. rewrite some_true, JsMapFacts.has_true.
  rewrite <- (keyed_values_refs _ Hk). split.
  - intros (c & Hc & Href). apply bool_decide_eq_true in Href. subst u.
    apply list_elem_of_fmap. by exists c.
  - intros (c & -> & Hc)%list_elem_of_fmap. exists c. split; [done|].
    by apply bool_decide_eq_true.
Qed.

Lemma copyLogFrom_keyed (log : GitLog.t) repoPath pathOrUri rev options :
  keyed (GitLog.commits log) ->
  keyed (GitLog.commits (copyLogFrom log repoPath pathOrUri rev options)).
Proof.
  intros H. unfold copyLogFrom. simpl. apply Forall_of_entries.
  by apply Forall_copyFrom.
Qed.

Lemma lookupLogForPath_keyed state key repoPath pathOrUri rev options log :
  (forall k cached l, state !! k = Some cached ->
                      CachedLog.item cached = Some l -> keyed (GitLog.commits l)) ->
  lookupLogForPath state key repoPath pathOrUri rev options = Some (Some log) ->
  keyed (GitLog.commits log).
Proof.
  intros Hstate. unfold lookupLogForPath.
  destruct (state !! key) as [cached|] eqn:Hkey.
  { intros [= H]. by eapply Hstate. }
  destruct (_ || _); [|done].
  destruct (state !! wholeFileKey options) as [cached|] eqn:Hwhole; [|done].
  destruct rev as [rev|].
  - destruct (CachedLog.item cached) as [l|] eqn:Hitem; [|done].
    destruct (negb (GitLog.hasMore l) && JsMap.has rev (GitLog.commits l)); [|done].
    intros [= <-]. apply copyLogFrom_keyed. by eapply Hstate.
  - intros [= H]. by eapply Hstate.
Qed.

Lemma cache_keyed_emptyWorld : cache_keyed emptyWorld.
Proof.
  intros doc state key cached log H. simpl in H. by rewrite lookup_empty in H.
Qed.

Lemma cache_keyed_ensureState doc w :
  cache_keyed w -> cache_keyed (ensureState doc w).2.
Proof.
  intros Hw. unfold ensureState.
  destruct (documents w !! doc) eqn:Hd; [done|]. simpl.
  intros doc' state key cached log Hdoc Hkey Hitem. simpl in Hdoc.
  destruct (decide (doc = doc')) as [<-|Hne].
  - rewrite lookup_insert_eq in Hdoc. injection Hdoc as <-.
    by rewrite lookup_empty in Hkey.
  - rewrite lookup_insert_ne in Hdoc by done. by eapply Hw.
Qed.

Lemma cache_keyed_setLogEntry doc key value w :
  cache_keyed w ->
  (forall log, CachedLog.item value = Some log -> keyed (GitLog.commits log)) ->
  cache_keyed (setLogEntry doc key value w).2.
Proof.
  intros Hw Hvalue. unfold setLogEntry.
  destruct (documents w !! doc) as [state0|] eqn:Hd; [|done]. simpl.
  intros doc' state key' cached log Hdoc Hkey Hitem. simpl in Hdoc.
  destruct (decide (doc = doc')) as [<-|Hne].
  - rewrite lookup_insert_eq in Hdoc. injection Hdoc as <-.
    destruct (decide (key = key')) as [<-|Hk].
    + rewrite lookup_insert_eq in Hkey. injection Hkey as <-. by apply Hvalue.
    + rewrite lookup_insert_ne in Hkey by done. by eapply Hw.
  - rewrite lookup_insert_ne in Hdoc by done. by eapply Hw.
Qed.

Lemma cache_keyed_documents w w' :
  documents w' = documents w -> cache_keyed w -> cache_keyed w'.
Proof. intros H Hw doc state key cached log. rewrite H. apply Hw. Qed.

Section KeyedLogs.

Context (P : Collaborators).

Lemma collectCommits_keyed repoPath viewer values :
  keyed (collectCommits P repoPath viewer values).
Proof.
  rewrite collectCommits_collectWith.
  apply Forall_collectWith; [done|apply Forall_nil_2].
Qed.

Lemma collectPathCommits_keyed repoPath relativePath options viewer values :
  keyed (collectPathCommits P repoPath relativePath options viewer values).
Proof.
  rewrite collectPathCommits_collectWith.
  apply Forall_collectWith; [done|apply Forall_nil_2].
Qed.

Lemma getLog_keyed repoPath rev options w log w' :
  getLog P repoPath rev options w = (Returns (Some log), w') ->
  keyed (GitLog.commits log).
Proof.
  unfold getLog. destruct repoPath as [repoPath|]; [|done].
  unfold tryCatch, bind, await.
  destruct (ensureRepositoryContext P repoPath) as [ctx|]; [|done].
  unfold resolveRevision, remote, ret, await.
  destruct rev as [r|]; [destruct (truthy r && negb (bool_decide (r = "HEAD")))|];
    try destruct (RepositoryContext.getRevision ctx); simpl;
    try destruct (github_getCommits P (requests w) _); try done;
    intros [= <- <-]; apply collectCommits_keyed.
Qed.

Lemma getLogForPathCore_keyed repoPath path rev options w log w' :
  getLogForPathCore P repoPath path rev options w = (Returns (Some log), w') ->
  keyed (GitLog.commits log).
Proof.
  unfold getLogForPathCore. destruct repoPath as [repoPath|]; [|done].
  unfold bind, await.
  destruct (ensureRepositoryContext P repoPath) as [ctx|]; [|done].
  unfold resolveRevision, remote, ret, await.
  destruct rev as [r|]; [destruct (truthy r && negb (bool_decide (r = "HEAD")))|];
    try destruct (RepositoryContext.getRevision ctx); simpl;
    try destruct (github_getCommits P (requests w) _); try done;
    intros [= <- <-]; apply collectPathCommits_keyed.
Qed.

Lemma fetchLogForPath_keyed repoPath relativePath rev options cacheKey w r w' :
  cache_keyed w ->
  fetchLogForPath P repoPath relativePath rev options cacheKey w = (Returns r, w') ->
  (forall log, r = Some log -> keyed (GitLog.commits log)) /\ cache_keyed w'.
Proof.
  intros Hw. unfold fetchLogForPath.
  pose proof (getLogForPathCore_world P (Some repoPath) relativePath rev options w)
    as [Hdocs _].
  pose proof (getLogForPathCore_keyed (Some repoPath) relativePath rev options w)
    as Hok.
  destruct (getLogForPathCore P (Some repoPath) relativePath rev options w)
    as [[log|ex] w0]; simpl in Hdocs.
  - assert (forall l, log = Some l -> keyed (GitLog.commits l)) as Hlog.
    { intros l ->. by eapply Hok. }
    assert (cache_keyed w0) as Hw0 by (by eapply cache_keyed_documents).
    destruct cacheKey as [key|].
    + unfold bind, ret.
      pose proof (cache_keyed_setLogEntry (repoPath, relativePath) key
                    (CachedLog.mk log None) w0 Hw0 Hlog) as Hset.
      destruct (setLogEntry _ key _ w0) as [[[]|ex] w1]; simpl in Hset.
      * by intros [= <- <-].
      * done.
    + by intros [= <- <-].
  - assert (cache_keyed w0) as Hw0 by (by eapply cache_keyed_documents).
    destruct cacheKey as [key|].
    + unfold bind, ret.
      pose proof (cache_keyed_setLogEntry (repoPath, relativePath) key
                    (CachedLog.mk emptyPromise None) w0 Hw0) as Hset.
      destruct (setLogEntry _ key (CachedLog.mk emptyPromise None) w0)
        as [[[]|ex1] w1]; simpl in Hset; [|done].
      pose proof (cache_keyed_setLogEntry (repoPath, relativePath) key
                    (CachedLog.mk emptyPromise (Some ex)) w1) as Hset'.
      destruct (setLogEntry _ key (CachedLog.mk emptyPromise (Some ex)) w1)
        as [[[]|ex2] w2]; simpl in Hset'; [|done].
      intros [= <- <-]. split; [done|]. apply Hset'; [by apply Hset|done].
    + by intros [= <- <-].
Qed.

Lemma getLogForPath_keyed repoPath pathOrUri rev options w r w' :
  cache_keyed w ->
  getLogForPath P repoPath pathOrUri rev options w = (Returns r, w') ->
  (forall log, r = Some log -> keyed (GitLog.commits log)) /\ cache_keyed w'.
Proof.
  intros Hw. unfold getLogForPath.
  destruct repoPath as [repoPath|]; [|unfold ret; by intros [= <- <-]].
  destruct (decide _); [done|]. unfold bind at 1.
  pose proof (resolveFolder_world P repoPath (getRelativePath P pathOrUri repoPath)
                rev (effectiveOptions P options) w) as Hres.
  destruct (resolveFolder P repoPath _ rev (effectiveOptions P options) w)
    as [[[path' options']|ex] w0]; simpl in Hres; subst w0; [|done].
  destruct (logCacheKey rev options') as [key|];
    [|by apply fetchLogForPath_keyed].
  destruct (documents w !! (repoPath, path')) as [state|] eqn:Hdoc.
  - destruct (lookupLogForPath state key repoPath pathOrUri rev options')
      as [cached|] eqn:Hlookup.
    + intros [= <- <-]. split; [|done]. intros log ->.
      eapply lookupLogForPath_keyed; [|exact Hlookup].
      intros k c l Hk Hl. by eapply Hw.
    + unfold bind, ensureState. rewrite Hdoc. by apply fetchLogForPath_keyed.
  - unfold bind.
    pose proof (cache_keyed_ensureState (repoPath, path') w Hw) as Hens.
    destruct (ensureState (repoPath, path') w) as [[[]|ex] w0]; [|done].
    by apply fetchLogForPath_keyed.
Qed.

Lemma searchCommits_keyed repoPath search source options w search' log w' :
  searchCommits P repoPath search source options w
    = (Returns (search', Some log), w') ->
  keyed (GitLog.commits log).
Proof.
  unfold searchCommits.
  destruct repoPath as [repoPath|]; [|by intros [= <- <-]].
  unfold bind at 1.
  assert (exists o, (if needsProcessing (withSearchDefaults search)
                     then await (processNaturalLanguageToSearchQuery P
                                   (withSearchDefaults search) source)
                     else ret (withSearchDefaults search)) w = (o, w)) as [o ->].
  { destruct (needsProcessing _); by eexists. }
  destruct o as [search1|ex]; [|by intros [= <- <-]].
  destruct (JsMap.get "commit:" (parseSearchQuery P search1))
    as [[|value values]|] eqn:Hop.
  2:{ unfold bind.
      destruct (getCommit P (Some repoPath) value w) as [[[commit|]|ex] w0];
        try done.
      intros [= <- <- <-]. simpl. by apply Forall_singleton. }
  all: unfold bind, await;
    destruct (getQueryArgsFromSearchQuery P search1 _ repoPath) as [[|arg args]|ex];
    try (by intros [= <- <-]);
    unfold tryCatch, bind, await, remote, ret;
    (destruct (ensureRepositoryContext P repoPath) as [ctx|];
     [|by intros [= <- <-]]); simpl;
    (destruct (github_searchCommits P (requests w) _) as [[result|]|ex]; simpl;
     try (by intros [= <- <-]));
    intros [= <- <- <-]; apply collectCommits_keyed.
Qed.

Lemma callMore_keyed fn limit w log w' :
  keyed (GitLog.commits (GitLog.captured fn)) ->
  cache_keyed w ->
  callMore P fn limit w = (Returns log, w') ->
  keyed (GitLog.commits log) /\ cache_keyed w'.
Proof.
  intros Hfn Hw.
  destruct fn as [l rev options|l path rev options|l search source options];
    simpl in Hfn; simpl.
  - unfold getLogMoreFn. destruct (untilReached l _).
    { by intros [= <- <-]. }
    unfold bind.
    match goal with |- context [getLog P ?a ?b ?c w] =>
      pose proof (getLog_world P a b c w) as Hdocs;
      pose proof (getLog_keyed a b c w) as Hok;
      destruct (getLog P a b c w) as [[[moreLog|]|ex] w0] end;
      simpl in Hdocs; [| |done].
    + intros [= <- <-]. split; [|by eapply cache_keyed_documents].
      unfold attachMore. simpl. apply keyed_merge; [done|by eapply Hok].
    + intros [= <- <-]. split; [|by eapply cache_keyed_documents]. done.
  - unfold getLogForPathMoreFn. destruct (untilReached l _).
    { by intros [= <- <-]. }
    unfold bind.
    match goal with |- context [getLogForPath P ?a ?b ?c ?d w] =>
      pose proof (getLogForPath_keyed a b c d w) as Hok;
      destruct (getLogForPath P a b c d w) as [[[moreLog|]|ex] w0] end; [| |done].
    + destruct (Hok _ _ Hw eq_refl) as [Hmore Hw0].
      intros [= <- <-]. split; [|done].
      unfold attachMore. simpl. apply keyed_merge; [done|by apply Hmore].
    + destruct (Hok _ _ Hw eq_refl) as [_ Hw0].
      intros [= <- <-]. by split.
  - unfold searchCommitsCore. unfold bind.
    match goal with |- context [searchCommits P ?a ?b ?c ?d w] =>
      pose proof (searchCommits_sound P a b c d w) as Hsound;
      pose proof (searchCommits_keyed a b c d w) as Hok;
      destruct (searchCommits P a b c d w) as [[[search' [moreLog|]]|ex] w0] end;
      [| |done]; destruct (Hsound _ _ eq_refl) as [Hdocs _]; simpl.
    + intros [= <- <-]. split; [|by eapply cache_keyed_documents].
      unfold attachMore. simpl. apply keyed_merge; [done|by eapply Hok].
    + intros [= <- <-]. split; [|by eapply cache_keyed_documents]. done.
Qed.

(** X3. In every log the provider returns, each commit sits under its
    own sha: this holds of [getLog], of [searchCommits], and, in a world
    whose cached logs are so, of [getLogForPath] and of [more], which
    leave such a world. On such a log the test of [more] for a commit
    whose [ref] is [u] is the lookup of the key [u]. *)
Theorem returned_logs_keyed :
  (forall repoPath rev options w log w',
     getLog P repoPath rev options w = (Returns (Some log), w') ->
     keyed (GitLog.commits log))
  /\ (forall repoPath pathOrUri rev options w log w',
        cache_keyed w ->
        getLogForPath P repoPath pathOrUri rev options w = (Returns (Some log), w') ->
        keyed (GitLog.commits log) /\ cache_keyed w')
  /\ (forall repoPath search source options w search' log w',
        searchCommits P repoPath search source options w
          = (Returns (search', Some log), w') ->
        keyed (GitLog.commits log))
  /\ (forall fn limit w log w',
        keyed (GitLog.commits (GitLog.captured fn)) ->
        cache_keyed w ->
        callMore P fn limit w = (Returns log, w') ->
        keyed (GitLog.commits log) /\ cache_keyed w')
  /\ (forall (log : GitLog.core) u,
        keyed (GitLog.commits log) ->
        untilReached log (Some u) = truthy u && JsMap.has u (GitLog.commits log)).
Proof.
  split; [|split; [|split; [|split]]].
  - intros repoPath rev options w log w'. apply getLog_keyed.
  - intros repoPath pathOrUri rev options w log w' Hw Hrun.
    destruct (getLogForPath_keyed _ _ _ _ _ _ _ Hw Hrun) as [Hlog Hw'].
    split; [by apply Hlog|done].
  - intros repoPath search source options w search' log w'.
    apply searchCommits_keyed.
  - intros fn limit w log w'. apply callMore_keyed.
  - intros log u. apply untilReached_keyed.
Qed.

End KeyedLogs.

Section ErrorFacts.

Context (P : Collaborators).

Lemma getLog_returns repoPath rev options w :
  exists r w',
    getLog P repoPath rev options w = (Returns r, w')
    /\ documents w' = documents w
    /\ (requests w' = requests w
        \/ exists request, requests w' = requests w ++ [CallGetCommits request]).
Proof.
  unfold getLog. destruct repoPath as [repoPath|].
  2:{ exists None, w. auto. }
  unfold tryCatch, bind, await.
  destruct (ensureRepositoryContext P repoPath) as [ctx|].
  2:{ exists None, w. auto. }
  unfold resolveRevision, remote, ret, await.
  destruct rev as [r|]; [destruct (truthy r && negb (bool_decide (r = "HEAD")))|];
    try (destruct (RepositoryContext.getRevision ctx);
         [|exists None, w; by auto]); simpl;
    match goal with
    | |- context [github_getCommits P (requests w) ?req] =>
        destruct (github_getCommits P (requests w) req);
        eexists _, _; (split; [reflexivity|]); simpl; (split; [done|]);
        right; by exists req
    end.
Qed.

Lemma getCommit_returns repoPath rev w :
  exists r w',
    getCommit P repoPath rev w = (Returns r, w')
    /\ documents w' = documents w
    /\ (requests w' = requests w
        \/ isUncommitted P rev true = false
           /\ exists token owner name,
                requests w'
                = requests w ++ [CallGetCommit token owner name (stripOrigin P rev)]).
Proof.
  unfold getCommit. destruct repoPath as [repoPath|].
  2:{ exists None, w. auto. }
  unfold tryCatch, bind, await, remote, ret.
  destruct (isUncommitted P rev true).
  { destruct (getCurrentUser P repoPath); eexists _, _; eauto. }
  destruct (ensureRepositoryContext P repoPath) as [ctx|].
  2:{ exists None, w. auto. }
  simpl.
  destruct (github_getCommit P (requests w) _ _ _ _) as [[commit|]|];
    eexists _, _; (split; [reflexivity|]); simpl; (split; [done|]);
    right; (split; [done|]); by eexists _, _, _.
Qed.

Lemma fetchLogForPath_returns repoPath relativePath rev options cacheKey w :
  exists r w',
    fetchLogForPath P repoPath relativePath rev options cacheKey w = (Returns r, w').
Proof.
  unfold fetchLogForPath.
  destruct (getLogForPathCore P (Some repoPath) relativePath rev options w)
    as [[log|ex] w0]; destruct cacheKey as [key|]; try by eexists _, _.
  - unfold bind, ret, setLogEntry.
    destruct (documents w0 !! (repoPath, relativePath)); by eexists _, _.
  - unfold bind, ret, setLogEntry.
    destruct (documents w0 !! (repoPath, relativePath)) eqn:Hd; simpl.
    + rewrite lookup_insert_eq. by eexists _, _.
    + rewrite Hd. by eexists _, _.
Qed.

(** X4. [getLog] and [getCommit] never throw: whatever the repository
    context or the remote does, they return (undefined on a failure),
    send one request at most and leave the documents alone. [getCommit]
    of an uncommitted revision sends none. *)
Theorem getLog_getCommit_never_throw :
  (forall repoPath rev options w,
     exists r w',
       getLog P repoPath rev options w = (Returns r, w')
       /\ documents w' = documents w
       /\ (requests w' = requests w
           \/ exists request,
                requests w' = requests w ++ [CallGetCommits request]))
  /\ (forall repoPath rev w,
        exists r w',
          getCommit P repoPath rev w = (Returns r, w')
          /\ documents w' = documents w
          /\ (requests w' = requests w
              \/ isUncommitted P rev true = false
                 /\ exists token owner name,
                      requests w'
                      = requests w
                        ++ [CallGetCommit token owner name (stripOrigin P rev)])).
Proof. split; [apply getLog_returns|apply getCommit_returns]. Qed.

(** X5. [getLeftRightCommitCount] throws exactly when the repository
    context is refused, and then with that error and nothing sent. With
    a context it sends one comparison request for the range without its
    origin; it returns the counts of the answer, [left] the commits
    behind and [right] the commits ahead, and undefined when the remote
    has no answer or fails. *)
Theorem getLeftRightCommitCount_outcomes repoPath range w :
  getLeftRightCommitCount P None range w = (Returns None, w)
  /\ (forall ex,
        ensureRepositoryContext P repoPath = Throws ex ->
        getLeftRightCommitCount P (Some repoPath) range w = (Throws ex, w))
  /\ (forall ctx,
        ensureRepositoryContext P repoPath = Returns ctx ->
        let token := RepositoryContext.accessToken ctx in
        let owner := RepositoryContext.owner ctx in
        let name := RepositoryContext.name ctx in
        getLeftRightCommitCount P (Some repoPath) range w
        = (Returns
             match github_getComparison P (requests w) token owner name
                     (stripOrigin P range) with
             | Returns (Some result) =>
                 Some (LeftRightCommitCountResult.mk
                         (Comparison.behind_by result)
                         (Comparison.ahead_by result))
             | _ => None
             end,
           mkWorld (documents w)
             (requests w
              ++ [CallGetComparison token owner name (stripOrigin P range)])))
  /\ (forall repo ex w',
        getLeftRightCommitCount P repo range w = (Throws ex, w') ->
        exists repoPath', repo = Some repoPath'
                          /\ ensureRepositoryContext P repoPath' = Throws ex
                          /\ w' = w).
Proof.
  split; [done|]. split; [|split].
  - intros ex Hctx. unfold getLeftRightCommitCount, bind, await.
    by rewrite Hctx.
  - intros ctx Hctx. simpl.
    unfold getLeftRightCommitCount, bind, await, tryCatch, remote, ret.
    rewrite Hctx.
    by destruct (github_getComparison P (requests w) _ _ _ _) as [[result|]|].
  - intros repo ex w'. unfold getLeftRightCommitCount.
    destruct repo as [repoPath'|]; [|done].
    unfold bind, await, tryCatch, remote, ret.
    destruct (ensureRepositoryContext P repoPath') as [ctx|ex'] eqn:Hctx.
    + by destruct (github_getComparison P (requests w) _ _ _ _) as [[result|]|];
        simpl.
    + intros [= <- <-]. by exists repoPath'.
Qed.

End ErrorFacts.

Lemma length_append (a b : string) :
  String.length (a +:+ b) = (String.length a + String.length b)%nat.
Proof.
  induction a as [|c a IH]; [done|].
  change (String c a +:+ b) with (String c (a +:+ b)). simpl. by rewrite IH.
Qed.

Lemma logCacheKey_None rev options :
  logCacheKey rev options = None <-> uncacheable options.
Proof.
  unfold logCacheKey, uncacheable.
  destruct options as [all authors cursor filters isFolder limit merges ordering
                         range renames since until]; simpl.
  destruct isFolder as [[|]|], authors, cursor, filters, range, since, until;
    simpl; (split; [intros H; try done; auto 10|intros H; try done]);
    intuition congruence.
Qed.

Lemma logCacheKey_longer rev options key n :
  logCacheKey rev options = Some key ->
  GitLogForPathOptions.limit options = Some n ->
  n <> 0 ->
  (3 < String.length key)%nat.
Proof.
  unfold logCacheKey. intros Hkey Hlimit Hn.
  destruct (_ && _); [|done]. injection Hkey as <-.
  rewrite Hlimit. rewrite bool_decide_eq_false_2 by done.
  destruct rev as [r|];
    destruct (default false (GitLogForPathOptions.all options));
    destruct (GitLogForPathOptions.merges options) as [[[|]|]|];
    destruct (GitLogForPathOptions.ordering options) as [o|];
    try destruct (truthy o);
    destruct (default false (GitLogForPathOptions.renames options));
    rewrite ?length_append; simpl; lia.
Qed.

Lemma logCacheKey_not_whole rev options key n :
  logCacheKey rev options = Some key ->
  GitLogForPathOptions.limit options = Some n ->
  n <> 0 ->
  key <> "log".
Proof.
  intros Hkey Hlimit Hn ->.
  pose proof (logCacheKey_longer _ _ _ _ Hkey Hlimit Hn) as Hlen.
  simpl in Hlen. lia.
Qed.

Section CacheFacts.

Context (P : Collaborators).

Lemma effectiveOptions_uncacheable o :
  uncacheable o -> uncacheable (effectiveOptions P (Some o)).
Proof. by destruct o. Qed.

Lemma resolveFolder_fields repoPath relativePath rev options w path' options' :
  (resolveFolder P repoPath relativePath rev options w).1
    = Returns (path', options') ->
  exists b, options' = GitLogForPathOptions.with_isFolder options b
            /\ (GitLogForPathOptions.isFolder options = Some true -> b = Some true).
Proof.
  unfold resolveFolder. destruct (isFolderGlob P relativePath).
  { intros [= <- <-]. by exists (Some true). }
  destruct (GitLogForPathOptions.isFolder options) as [b|] eqn:Hf.
  - intros [= <- <-]. exists (Some b). split; [by destruct options; simpl in *; subst|].
    done.
  - unfold bind, await, ret.
    destruct (getTreeEntryForRevision P repoPath _ relativePath); [|done].
    intros [= <- <-]. by eexists.
Qed.

Lemma resolveFolder_uncacheable repoPath relativePath rev options w path' options' :
  uncacheable options ->
  (resolveFolder P repoPath relativePath rev options w).1
    = Returns (path', options') ->
  uncacheable options'.
Proof.
  intros Hun Hres.
  destruct (resolveFolder_fields _ _ _ _ _ _ _ Hres) as (b & -> & Hb).
  destruct Hun as [Hf|Hrest].
  - left. simpl. by apply Hb.
  - right. exact Hrest.
Qed.

Lemma resolveFolder_limit repoPath relativePath rev options w path' options' :
  (resolveFolder P repoPath relativePath rev options w).1
    = Returns (path', options') ->
  GitLogForPathOptions.limit options' = GitLogForPathOptions.limit options
  /\ GitLogForPathOptions.renames options' = GitLogForPathOptions.renames options.
Proof.
  intros Hres. by destruct (resolveFolder_fields _ _ _ _ _ _ _ Hres) as (b & -> & _).
Qed.

Lemma resolveFolder_pure repoPath relativePath rev options w :
  resolveFolder P repoPath relativePath rev options w
  = ((resolveFolder P repoPath relativePath rev options emptyWorld).1, w).
Proof.
  apply injective_projections; simpl.
  - apply resolveFolder_outcome.
  - apply resolveFolder_world.
Qed.

Lemma resolveFolder_throws repoPath relativePath rev options w ex :
  (resolveFolder P repoPath relativePath rev options w).1 = Throws ex
  <-> isFolderGlob P relativePath = false
      /\ GitLogForPathOptions.isFolder options = None
      /\ getTreeEntryForRevision P repoPath
           (if truthyOpt rev then default "HEAD" rev else "HEAD") relativePath
         = Throws ex.
Proof.
  unfold resolveFolder. destruct (isFolderGlob P relativePath).
  { split; [done|]. by intros [[=] _]. }
  destruct (GitLogForPathOptions.isFolder options) as [b|].
  { split; [done|]. by intros (_ & [=] & _). }
  unfold bind, await, ret.
  destruct (getTreeEntryForRevision P repoPath _ relativePath) as [tree|ex0].
  - split; [done|]. by intros (_ & _ & [=]).
  - split.
    + by intros [= ->].
    + by intros (_ & _ & [= ->]).
Qed.

Lemma getLogForPath_resolved repo pathOrUri rev options w :
  repo <> getRelativePath P pathOrUri repo ->
  match (resolveFolder P repo (getRelativePath P pathOrUri repo) rev
           (effectiveOptions P options) emptyWorld).1 with
  | Returns _ =>
      exists r w',
        getLogForPath P (Some repo) pathOrUri rev options w = (Returns r, w')
  | Throws ex =>
      getLogForPath P (Some repo) pathOrUri rev options w = (Throws ex, w)
  end.
Proof.
  intros Hne. unfold getLogForPath. rewrite decide_False by done.
  unfold bind. rewrite (resolveFolder_pure _ _ _ _ w).
  destruct (resolveFolder P repo _ rev _ emptyWorld).1
    as [[path' options']|ex]; [|reflexivity].
  cbv beta iota zeta.
  destruct (logCacheKey rev options') as [key|];
    [|apply fetchLogForPath_returns].
  destruct (match documents w !! _ with Some _ => _ | None => _ end);
    [by eexists _, _|].
  unfold ensureState.
  destruct (documents w !! (repo, path')); apply fetchLogForPath_returns.
Qed.

(** X6. [getLogForPath] throws in two cases only, and in both before
    anything is sent or cached: the path is the repository itself, or
    the lookup of the tree entry that settles [isFolder] is refused
    (which happens only for a path that is no folder glob when the
    caller left [isFolder] out). A failure of the fetch is never
    thrown. *)
Theorem getLogForPath_throws_iff repoPath pathOrUri rev options w ex w' :
  getLogForPath P repoPath pathOrUri rev options w = (Throws ex, w')
  <-> w' = w
      /\ exists repo,
           let relativePath := getRelativePath P pathOrUri repo in
           repoPath = Some repo
           /\ (repo = relativePath
               /\ ex = "Path cannot match the repository path; path="
                       +:+ relativePath
               \/ repo <> relativePath
                  /\ isFolderGlob P relativePath = false
                  /\ (options ≫= GitLogForPathOptions.isFolder) = None
                  /\ getTreeEntryForRevision P repo
                       (if truthyOpt rev then default "HEAD" rev else "HEAD")
                       relativePath = Throws ex).
Proof.
  destruct repoPath as [repo|].
  2:{ split; [done|]. by intros (_ & repo & [=] & _). }
  assert (GitLogForPathOptions.isFolder (effectiveOptions P options)
          = options ≫= GitLogForPathOptions.isFolder) as Hfolder.
  { by destruct options. }
  destruct (decide (repo = getRelativePath P pathOrUri repo)) as [Heq|Hne].
  { unfold getLogForPath. rewrite decide_True by done. split.
    - intros [= <- <-]. split; [done|]. exists repo. split; [done|]. by left.
    - intros (-> & repo' & [= <-] & [[_ ->]|[Hne _]]); done. }
  pose proof (getLogForPath_resolved repo pathOrUri rev options w Hne) as Hrun.
  pose proof (resolveFolder_throws repo (getRelativePath P pathOrUri repo) rev
                (effectiveOptions P options) emptyWorld) as Hthrows.
  rewrite Hfolder in Hthrows.
  destruct (resolveFolder P repo _ rev _ emptyWorld).1 as [resolved|ex0].
  - destruct Hrun as (r & w1 & ->). split; [done|].
    intros (_ & repo' & [= <-] & [[Heq _]|(_ & Hrest)]); [done|].
    by apply Hthrows in Hrest.
  - rewrite Hrun. split.
    + intros [= <- <-]. split; [done|]. exists repo. split; [done|]. right.
      split; [done|]. by apply Hthrows.
    + intros (-> & repo' & [= <-] & [[Heq _]|(_ & Hrest)]); [done|].
      apply Hthrows in Hrest. by injection Hrest as ->.
Qed.

Lemma fetchLogForPath_uncached repoPath relativePath rev options w :
  documents (fetchLogForPath P repoPath relativePath rev options None w).2
  = documents w
  /\ forall docs,
       fetchLogForPath P repoPath relativePath rev options None
         (mkWorld docs (requests w))
       = ((fetchLogForPath P repoPath relativePath rev options None w).1,
          mkWorld docs
            (requests (fetchLogForPath P repoPath relativePath rev options None w).2)).
Proof.
  unfold fetchLogForPath.
  pose proof (getLogForPathCore_world P (Some repoPath) relativePath rev options w)
    as [Hdocs _].
  split.
  - by destruct (getLogForPathCore P (Some repoPath) relativePath rev options w)
      as [[log|ex] w0].
  - intros docs.
    pose proof (getLogForPathCore_documents P (Some repoPath) relativePath rev
                  options w docs) as [Hout Hreq].
    pose proof (getLogForPathCore_world P (Some repoPath) relativePath rev options
                  (mkWorld docs (requests w))) as [Hdocs' _].
    destruct (getLogForPathCore P (Some repoPath) relativePath rev options w)
      as [o w0].
    destruct (getLogForPathCore P (Some repoPath) relativePath rev options
                (mkWorld docs (requests w))) as [o' w0'].
    simpl in *. subst o'. destruct w0' as [d' r']. simpl in *. subst d' r'.
    by destruct o.
Qed.

Lemma getLogForPath_uncached repo pathOrUri rev options w :
  uncacheable options ->
  repo <> getRelativePath P pathOrUri repo ->
  getLogForPath P (Some repo) pathOrUri rev (Some options) w
  = match (resolveFolder P repo (getRelativePath P pathOrUri repo) rev
             (effectiveOptions P (Some options)) emptyWorld).1 with
    | Returns resolved =>
        fetchLogForPath P repo resolved.1 rev resolved.2 None w
    | Throws ex => (Throws ex, w)
    end.
Proof.
  intros Hun Hne. unfold getLogForPath. rewrite decide_False by done.
  unfold bind at 1. rewrite resolveFolder_pure.
  destruct (resolveFolder P repo _ rev _ emptyWorld).1
    as [[path' options']|ex] eqn:Hout; [|done].
  assert (logCacheKey rev options' = None) as ->; [|done].
  apply logCacheKey_None. eapply resolveFolder_uncacheable; [|exact Hout].
  by apply effectiveOptions_uncacheable.
Qed.

Lemma getLogForPath_uncacheable repoPath pathOrUri rev options w r w' :
  uncacheable options ->
  getLogForPath P repoPath pathOrUri rev (Some options) w = (r, w') ->
  documents w' = documents w
  /\ forall docs,
       getLogForPath P repoPath pathOrUri rev (Some options)
         (mkWorld docs (requests w))
       = (r, mkWorld docs (requests w')).
Proof.
  intros Hun. destruct repoPath as [repo|].
  2:{ intros [= <- <-]. done. }
  destruct (decide (repo = getRelativePath P pathOrUri repo)) as [Heq|Hne].
  { unfold getLogForPath. rewrite !decide_True by done. by intros [= <- <-]. }
  rewrite getLogForPath_uncached by done. intros Hrun. split.
  - destruct (resolveFolder P repo _ rev _ emptyWorld).1 as [resolved|ex].
    + destruct (fetchLogForPath_uncached repo resolved.1 rev resolved.2 w)
        as [Hdocs _]. by rewrite Hrun in Hdocs.
    + by injection Hrun as <- <-.
  - intros docs. rewrite getLogForPath_uncached by done.
    destruct (resolveFolder P repo _ rev _ emptyWorld).1 as [resolved|ex].
    + destruct (fetchLogForPath_uncached repo resolved.1 rev resolved.2 w)
        as [_ Hf]. rewrite Hf. by rewrite Hrun.
    + by injection Hrun as <- <-.
Qed.

Lemma getLogForPath_folder_glob repo pathOrUri rev options w :
  isFolderGlob P (getRelativePath P pathOrUri repo) = true ->
  documents (getLogForPath P (Some repo) pathOrUri rev options w).2 = documents w.
Proof.
  intros Hglob. unfold getLogForPath. destruct (decide _); [done|].
  unfold bind, resolveFolder. rewrite Hglob. unfold ret.
  assert (logCacheKey rev
            (GitLogForPathOptions.with_isFolder (effectiveOptions P options)
               (Some true)) = None) as ->.
  { apply logCacheKey_None. by left. }
  apply fetchLogForPath_uncached.
Qed.

(** X7. Which queries stay out of the cache. [getLogForPath] has a
    cache key for every query but those for a folder and those with
    authors, a cursor, filters, a range, [since] or [until]. A query of
    the latter kind never touches the documents: they are as before, and
    in any other cache the call answers the same and sends the same.
    Nor does a query for a folder glob touch them. *)
Theorem getLogForPath_bypasses_cache :
  (forall rev options, logCacheKey rev options = None <-> uncacheable options)
  /\ (forall repoPath pathOrUri rev options w r w',
        uncacheable options ->
        getLogForPath P repoPath pathOrUri rev (Some options) w = (r, w') ->
        documents w' = documents w
        /\ forall docs,
             getLogForPath P repoPath pathOrUri rev (Some options)
               (mkWorld docs (requests w))
             = (r, mkWorld docs (requests w')))
  /\ (forall repo pathOrUri rev options w,
        isFolderGlob P (getRelativePath P pathOrUri repo) = true ->
        documents (getLogForPath P (Some repo) pathOrUri rev options w).2
        = documents w).
Proof.
  split; [apply logCacheKey_None|].
  split; [apply getLogForPath_uncacheable|apply getLogForPath_folder_glob].
Qed.

Lemma fetchLogForPath_stores repoPath relativePath rev options key w state r w1 :
  documents w !! (repoPath, relativePath) = Some state ->
  fetchLogForPath P repoPath relativePath rev options (Some key) w = (Returns r, w1) ->
  exists msg,
    documents w1
    = <[(repoPath, relativePath) := <[key := CachedLog.mk r msg]> state]>
        (documents w).
Proof.
  intros Hdoc. unfold fetchLogForPath.
  pose proof (getLogForPathCore_world P (Some repoPath) relativePath rev options w)
    as [Hdocs _].
  destruct (getLogForPathCore P (Some repoPath) relativePath rev options w)
    as [[log|ex] w0]; simpl in Hdocs; unfold bind, ret, setLogEntry.
  - rewrite Hdocs, Hdoc. intros [= <- <-]. by exists None.
  - rewrite Hdocs, Hdoc. simpl. rewrite lookup_insert_eq.
    intros [= <- <-]. exists (Some ex). simpl.
    rewrite insert_insert_eq. by rewrite insert_insert_eq.
Qed.

(** X8. A cached query is fetched once. When the query has a cache key
    and [getLogForPath] returns, the same call made again returns the
    same answer (a log, or undefined after a failure) without sending
    anything or changing the documents. *)
Theorem getLogForPath_fetches_once
    w repoPath pathOrUri rev options path' options' key r w1 :
  (resolveFolder P repoPath (getRelativePath P pathOrUri repoPath) rev
     (effectiveOptions P options) w).1 = Returns (path', options') ->
  logCacheKey rev options' = Some key ->
  getLogForPath P (Some repoPath) pathOrUri rev options w = (Returns r, w1) ->
  getLogForPath P (Some repoPath) pathOrUri rev options w1 = (Returns r, w1).
Proof.
  intros Hres Hkey.
  assert (forall w0, resolveFolder P repoPath (getRelativePath P pathOrUri repoPath)
                       rev (effectiveOptions P options) w0
                     = (Returns (path', options'), w0)) as Hres'.
  { intros w0. rewrite resolveFolder_pure. f_equal.
    rewrite <- Hres. apply resolveFolder_outcome. }
  unfold getLogForPath. destruct (decide _); [done|].
  unfold bind at 1 3. rewrite !Hres', Hkey.
  destruct (documents w !! (repoPath, path')) as [state|] eqn:Hdoc.
  - destruct (lookupLogForPath state key repoPath pathOrUri rev options')
      as [cached|] eqn:Hlookup.
    + intros [= <- <-]. by rewrite Hdoc, Hlookup.
    + unfold bind, ensureState. rewrite Hdoc. intros Hfetch.
      destruct (fetchLogForPath_stores _ _ _ _ _ _ _ _ _ Hdoc Hfetch)
        as (msg & Hdocs1).
      rewrite Hdocs1, lookup_insert_eq. unfold lookupLogForPath.
      by rewrite lookup_insert_eq.
  - unfold bind, ensureState. rewrite Hdoc. intros Hfetch.
    assert (documents (mkWorld (<[(repoPath, path') := ∅]> (documents w))
                         (requests w)) !! (repoPath, path') = Some ∅) as Hdoc0.
    { simpl. apply lookup_insert_eq. }
    destruct (fetchLogForPath_stores _ _ _ _ _ _ _ _ _ Hdoc0 Hfetch)
      as (msg & Hdocs1).
    rewrite Hdocs1, lookup_insert_eq. unfold lookupLogForPath.
    by rewrite lookup_insert_eq.
Qed.

Lemma noWholeFileLog_documents w w' :
  documents w' = documents w -> noWholeFileLog w -> noWholeFileLog w'.
Proof. intros H Hw doc state. rewrite H. apply Hw. Qed.

Lemma noWholeFileLog_ensureState doc w :
  noWholeFileLog w -> noWholeFileLog (ensureState doc w).2.
Proof.
  intros Hw. unfold ensureState. destruct (documents w !! doc) eqn:Hd; [done|].
  intros doc' state. simpl. destruct (decide (doc = doc')) as [<-|Hne].
  - rewrite lookup_insert_eq. by intros [= <-].
  - rewrite lookup_insert_ne by done. apply Hw.
Qed.

Lemma noWholeFileLog_setLogEntry doc key value w :
  key <> "log" -> noWholeFileLog w -> noWholeFileLog (setLogEntry doc key value w).2.
Proof.
  intros Hkey Hw. unfold setLogEntry.
  destruct (documents w !! doc) as [state0|] eqn:Hd; [|done].
  intros doc' state. simpl. destruct (decide (doc = doc')) as [<-|Hne].
  - rewrite lookup_insert_eq. intros [= <-].
    rewrite lookup_insert_ne by done. by eapply Hw.
  - rewrite lookup_insert_ne by done. apply Hw.
Qed.

Lemma fetchLogForPath_noWholeFileLog repoPath relativePath rev options cacheKey w :
  (forall key, cacheKey = Some key -> key <> "log") ->
  noWholeFileLog w ->
  noWholeFileLog (fetchLogForPath P repoPath relativePath rev options cacheKey w).2.
Proof.
  intros Hkey Hw. unfold fetchLogForPath.
  pose proof (getLogForPathCore_world P (Some repoPath) relativePath rev options w)
    as [Hdocs _].
  destruct (getLogForPathCore P (Some repoPath) relativePath rev options w)
    as [[log|ex] w0]; simpl in Hdocs;
    (assert (noWholeFileLog w0) as Hw0 by (by eapply noWholeFileLog_documents));
    destruct cacheKey as [key|]; try done; unfold bind, ret.
  - pose proof (noWholeFileLog_setLogEntry (repoPath, relativePath) key
                  (CachedLog.mk log None) w0 (Hkey _ eq_refl) Hw0) as Hset.
    by destruct (setLogEntry _ key _ w0) as [[[]|ex] w1].
  - pose proof (noWholeFileLog_setLogEntry (repoPath, relativePath) key
                  (CachedLog.mk emptyPromise None) w0 (Hkey _ eq_refl) Hw0) as Hset.
    destruct (setLogEntry _ key (CachedLog.mk emptyPromise None) w0)
      as [[[]|ex1] w1]; simpl in Hset; [|done].
    pose proof (noWholeFileLog_setLogEntry (repoPath, relativePath) key
                  (CachedLog.mk emptyPromise (Some ex)) w1 (Hkey _ eq_refl) Hset)
      as Hset'.
    by destruct (setLogEntry _ key (CachedLog.mk emptyPromise (Some ex)) w1)
      as [[[]|ex2] w2].
Qed.

Lemma getLogForPath_noWholeFileLog repoPath pathOrUri rev options w :
  (forall limit, getPagingLimit P limit <> 0) ->
  noWholeFileLog w ->
  noWholeFileLog (getLogForPath P repoPath pathOrUri rev options w).2.
Proof.
  intros Hpolicy Hw. unfold getLogForPath.
  destruct repoPath as [repo|]; [|done].
  destruct (decide _); [done|]. unfold bind at 1.
  rewrite resolveFolder_pure.
  destruct (resolveFolder P repo _ rev _ emptyWorld).1
    as [[path' options']|ex] eqn:Hout; [|done].
  destruct (resolveFolder_limit _ _ _ _ _ _ _ Hout) as [Hlimit _].
  assert (forall key, logCacheKey rev options' = Some key -> key <> "log") as Hkey.
  { intros key Hk. eapply logCacheKey_not_whole; [exact Hk|exact Hlimit|].
    apply Hpolicy. }
  destruct (logCacheKey rev options') as [key|] eqn:Hk.
  - destruct (match documents w !! _ with Some _ => _ | None => _ end); [done|].
    unfold bind.
    pose proof (noWholeFileLog_ensureState (repo, path') w Hw) as Hens.
    destruct (ensureState (repo, path') w) as [[[]|ex] w0]; [|done].
    by apply fetchLogForPath_noWholeFileLog.
  - by apply fetchLogForPath_noWholeFileLog.
Qed.

(** X9. The key of the whole file is never written. When the paging
    policy never grants 0, [getLogForPath] and [more] keep every
    document free of an entry under the key "log"; and in a document
    without that entry the cache answers a query only with the entry
    under the query's own key. *)
Theorem whole_file_key_never_written :
  (forall limit, getPagingLimit P limit <> 0) ->
  (forall repoPath pathOrUri rev options w,
     noWholeFileLog w ->
     noWholeFileLog (getLogForPath P repoPath pathOrUri rev options w).2)
  /\ (forall fn limit w,
        noWholeFileLog w -> noWholeFileLog (callMore P fn limit w).2)
  /\ (forall state key repoPath pathOrUri rev options,
        state !! "log" = None ->
        GitLogForPathOptions.renames options = Some false ->
        lookupLogForPath state key repoPath pathOrUri rev options
        = CachedLog.item <$> state !! key).
Proof.
  intros Hpolicy. split; [|split].
  - intros repoPath pathOrUri rev options w.
    by apply getLogForPath_noWholeFileLog.
  - intros fn limit w Hw.
    destruct fn as [l rev options|l path rev options|l search source options];
      simpl.
    + unfold getLogMoreFn. destruct (untilReached l _); [done|]. unfold bind.
      match goal with |- context [getLog P ?a ?b ?c w] =>
        pose proof (getLog_world P a b c w) as Hdocs;
        destruct (getLog P a b c w) as [[[moreLog|]|ex] w0] end;
        simpl in *; by eapply noWholeFileLog_documents.
    + unfold getLogForPathMoreFn. destruct (untilReached l _); [done|].
      unfold bind.
      match goal with |- context [getLogForPath P ?a ?b ?c ?d w] =>
        pose proof (getLogForPath_noWholeFileLog a b c d w Hpolicy Hw) as Hok;
        destruct (getLogForPath P a b c d w) as [[[moreLog|]|ex] w0] end;
        done.
    + unfold searchCommitsCore, bind.
      match goal with |- context [searchCommits P ?a ?b ?c ?d w] =>
        pose proof (searchCommits_sound P a b c d w) as Hsound;
        destruct (searchCommits P a b c d w) as [[[search' [moreLog|]]|ex] w0] end;
        destruct (Hsound _ _ eq_refl) as [Hdocs _]; simpl;
        by eapply noWholeFileLog_documents.
  - intros state key repoPath pathOrUri rev options Hstate Hrenames.
    unfold lookupLogForPath, wholeFileKey. rewrite Hrenames. simpl.
    destruct (state !! key); [done|]. simpl.
    change ("log" +:+ "") with "log". rewrite Hstate.
    by destruct (_ || _).
Qed.

End CacheFacts.

(** ** [delete] and the page without the duplicates *)

Lemma filter_id {A} (Q : A -> Prop) `{!forall x, Decision (Q x)} (l : list A) :
  (forall x, x ∈ l -> Q x) -> filter Q l = l.
Proof.
  induction l as [|a l IH]; intros Hall; [done|].
  rewrite filter_cons_True by (apply Hall; left).
  rewrite IH; [done|]. intros x Hx. apply Hall. by right.
Qed.

Lemma keys_delete {V} k (m : JsMap.t V) :
  NoDup (JsMap.keys m) ->
  JsMap.keys (JsMap.delete k m) = filter (fun x => x <> k) (JsMap.keys m).
Proof.
  unfold JsMap.keys. induction m as [|[k0 v0] m IH]; [done|]. simpl.
  intros [Hk0 Hm]%NoDup_cons. destruct (decide (k = k0)) as [->|Hne].
  - rewrite filter_cons_False by (intros H; by apply H).
    symmetry. apply filter_id. intros x Hx ->. done.
  - rewrite filter_cons_True by done. simpl. f_equal. by apply IH.
Qed.

Lemma get_delete {V} k' k (m : JsMap.t V) :
  NoDup (JsMap.keys m) ->
  JsMap.get k' (JsMap.delete k m)
  = if decide (k' = k) then None else JsMap.get k' m.
Proof.
  unfold JsMap.keys. induction m as [|[k0 v0] m IH]; simpl.
  { intros _. by destruct (decide (k' = k)). }
  intros [Hk0 Hm]%NoDup_cons. destruct (decide (k = k0)) as [->|Hne].
  - destruct (decide (k' = k0)) as [->|Hne'].
    + apply JsMapFacts.get_None. exact Hk0.
    + done.
  - simpl. destruct (decide (k' = k0)) as [->|Hne'].
    + by rewrite decide_False by done.
    + by apply IH.
Qed.

Lemma NoDup_delete {V} k (m : JsMap.t V) :
  NoDup (JsMap.keys m) -> NoDup (JsMap.keys (JsMap.delete k m)).
Proof. intros H. rewrite keys_delete by done. by apply NoDup_filter. Qed.

Lemma keys_foldl_delete {V} (ks : list string) (m : JsMap.t V) :
  NoDup (JsMap.keys m) ->
  NoDup (JsMap.keys (foldl (fun page sha => JsMap.delete sha page) m ks))
  /\ JsMap.keys (foldl (fun page sha => JsMap.delete sha page) m ks)
     = filter (fun k => k ∉ ks) (JsMap.keys m)
  /\ forall k, JsMap.get k (foldl (fun page sha => JsMap.delete sha page) m ks)
               = if decide (k ∈ ks) then None else JsMap.get k m.
Proof.
  revert m. induction ks as [|k0 ks IH]; intros m Hm; simpl.
  { split; [done|]. split.
    - symmetry. apply filter_id. intros x _. apply not_elem_of_nil.
    - intros k. by destruct (decide (k ∈ [])) as [H%not_elem_of_nil|_]. }
  destruct (IH (JsMap.delete k0 m) (NoDup_delete k0 m Hm)) as (Hnd & Hkeys & Hget).
  split; [done|]. split.
  - rewrite Hkeys, keys_delete by done. rewrite list_filter_filter.
    apply filter_agree. intros x _. rewrite not_elem_of_cons. tauto.
  - intros k. rewrite Hget, get_delete by done.
    destruct (decide (k ∈ ks)) as [Hin|Hout].
    + rewrite decide_True; [done|by right].
    + destruct (decide (k = k0)) as [->|Hne].
      * rewrite decide_True; [done|by left].
      * rewrite decide_False; [done|]. rewrite not_elem_of_cons. tauto.
Qed.

Lemma pagedCommitsOf_spec (log moreLog : JsMap.t GitCommit.t) :
  NoDup (JsMap.keys log) ->
  NoDup (JsMap.keys moreLog) ->
  JsMap.keys (mergeCommits log moreLog)
  = JsMap.keys log ++ JsMap.keys (pagedCommitsOf log moreLog)
  /\ (forall k c,
        JsMap.get k (pagedCommitsOf log moreLog) = Some c ->
        JsMap.get k (mergeCommits log moreLog) = Some c)
  /\ (forall k, k ∈ JsMap.keys (pagedCommitsOf log moreLog) ->
                (k ∉ JsMap.keys log) /\ (k ∈ JsMap.keys moreLog))
  /\ JsMap.size (mergeCommits log moreLog)
     = JsMap.size log + JsMap.size (pagedCommitsOf log moreLog).
Proof.
  intros Hlog Hmore. unfold pagedCommitsOf.
  destruct (keys_foldl_delete (JsMap.keys log) moreLog Hmore)
    as (Hnd & Hkeys & Hget).
  assert (JsMap.keys (mergeCommits log moreLog)
          = JsMap.keys log
            ++ JsMap.keys (foldl (fun page sha => JsMap.delete sha page)
                             moreLog (JsMap.keys log))) as Hmerged.
  { rewrite Hkeys. by apply mergeCommits_keys. }
  split; [exact Hmerged|]. split; [|split].
  - intros k c. rewrite Hget, mergeCommits_get by done.
    destruct (decide (k ∈ JsMap.keys log)); [done|]. by intros ->.
  - intros k. rewrite Hkeys, list_elem_of_filter. tauto.
  - rewrite !JsMapFacts.size_keys, Hmerged, length_app. lia.
Qed.

Section MoreFacts.

Context (P : Collaborators).

(** X10. The continuation of [getLog], when it goes for another page:
    the log is given up as exhausted, or the new log is the prior one
    followed by the page without its duplicates, which is what
    [pagedCommits] holds. The new ids keep the order of the page, none
    of them is an id of the prior log, each reads as the page has it,
    [count] is the sum of both, and [startingCursor] is the last id of
    the prior log. *)
Theorem more_appends_paged_commits (log : GitLog.core) rev options limit w log' w' :
  NoDup (JsMap.keys (GitLog.commits log)) ->
  untilReached log (moreUntilOf limit) = false ->
  getLogMoreFn P log rev options limit w = (Returns log', w') ->
  log' = exhausted log
  \/ exists paged,
       GitLog.pagedCommits log' = Some paged
       /\ JsMap.keys (GitLog.commits log')
          = JsMap.keys (GitLog.commits log) ++ JsMap.keys paged
       /\ (forall k c, JsMap.get k paged = Some c ->
                       JsMap.get k (GitLog.commits log') = Some c)
       /\ (forall k, k ∈ JsMap.keys paged -> k ∉ JsMap.keys (GitLog.commits log))
       /\ GitLog.count log' = JsMap.size (GitLog.commits log) + JsMap.size paged
       /\ GitLog.startingCursor log' = last (JsMap.keys (GitLog.commits log)).
Proof.
  intros Hnd Huntil. unfold getLogMoreFn. rewrite Huntil. unfold bind.
  match goal with |- context [getLog P ?a ?b ?c w] =>
    pose proof (getLog_ok P a b c w) as Hok;
    destruct (getLog P a b c w) as [[[moreLog|]|ex] w0] end; [| |done].
  2:{ intros [= <- <-]. by left. }
  intros [= <- <-]. right.
  destruct (Hok _ _ eq_refl) as [Hnd' _ _ _].
  destruct (pagedCommitsOf_spec (GitLog.commits log) (GitLog.commits moreLog)
              Hnd Hnd') as (Hkeys & Hget & Hnew & Hsize).
  eexists. unfold attachMore. simpl. split; [reflexivity|].
  split; [exact Hkeys|]. split; [exact Hget|]. split.
  { intros k Hk. by apply Hnew. }
  split; [exact Hsize|].
  unfold last_entry, JsMap.entries, JsMap.keys. by rewrite fmap_last.
Qed.

(** X11. [more] only appends. For every continuation, on a well-formed
    log and cache, the ids of the log it was made for are the first ids
    of the log it returns, in the same order. *)
Theorem more_only_appends fn limit w log' w' :
  log_ok (GitLog.captured fn) ->
  cache_ok w ->
  callMore P fn limit w = (Returns log', w') ->
  JsMap.keys (GitLog.commits (GitLog.captured fn))
    `prefix_of` JsMap.keys (GitLog.commits log')
  /\ GitLog.count (GitLog.captured fn) <= GitLog.count log'.
Proof.
  intros Hfn Hw.
  assert (forall (l : GitLog.core) moreLog,
            NoDup (JsMap.keys (GitLog.commits l)) ->
            NoDup (JsMap.keys moreLog) ->
            GitLog.count l = JsMap.size (GitLog.commits l) ->
            JsMap.keys (GitLog.commits l)
              `prefix_of` JsMap.keys (mergeCommits (GitLog.commits l) moreLog)
            /\ GitLog.count l
               <= JsMap.size (mergeCommits (GitLog.commits l) moreLog)) as Hmerge.
  { intros l moreLog Hl Hm Hcount.
    rewrite Hcount, !JsMapFacts.size_keys, mergeCommits_keys by done.
    split; [by eexists|]. rewrite length_app. lia. }
  destruct Hfn as [Hnd Hcount _ _].
  destruct fn as [l rev options|l path rev options|l search source options];
    simpl in Hnd, Hcount; simpl.
  - unfold getLogMoreFn. destruct (untilReached l _).
    { by intros [= <- <-]. }
    unfold bind.
    match goal with |- context [getLog P ?a ?b ?c w] =>
      pose proof (getLog_ok P a b c w) as Hok;
      destruct (getLog P a b c w) as [[[moreLog|]|ex] w0] end; [| |done].
    + intros [= <- <-]. destruct (Hok _ _ eq_refl) as [Hnd' _ _ _].
      by apply Hmerge.
    + by intros [= <- <-].
  - unfold getLogForPathMoreFn. destruct (untilReached l _).
    { by intros [= <- <-]. }
    unfold bind.
    match goal with |- context [getLogForPath P ?a ?b ?c ?d w] =>
      pose proof (getLogForPath_ok P a b c d w) as Hok;
      destruct (getLogForPath P a b c d w) as [[[moreLog|]|ex] w0] end; [| |done].
    + intros [= <- <-]. destruct (Hok _ _ Hw eq_refl) as [Hmore _].
      destruct (Hmore _ eq_refl) as [Hnd' _ _ _]. by apply Hmerge.
    + by intros [= <- <-].
  - unfold searchCommitsCore, bind.
    match goal with |- context [searchCommits P ?a ?b ?c ?d w] =>
      pose proof (searchCommits_sound P a b c d w) as Hsound;
      destruct (searchCommits P a b c d w) as [[[search' [moreLog|]]|ex] w0] end;
      [| |done]; destruct (Hsound _ _ eq_refl) as [_ Hok]; simpl.
    + intros [= <- <-]. destruct (Hok _ _ eq_refl) as [Hnd' _ _ _].
      by apply Hmerge.
    + by intros [= <- <-].
Qed.

(** X12. Paging up to a commit keeps the paging open. When [more] is
    called with [{ until }] on a log of [getLog] or of [getLogForPath]
    and goes for another page, the log it returns is either given up
    as exhausted, or has [hasMore] set and carries a continuation made
    for itself, whatever the page says about more to come. *)
Theorem more_until_keeps_paging fn u w log' w' :
  (forall l search source options, fn <> GitLog.SearchMoreFn l search source options) ->
  untilReached (GitLog.captured fn) (Some u) = false ->
  callMore P fn (Some (MoreUntil u)) w = (Returns log', w') ->
  log' = exhausted (GitLog.captured fn)
  \/ GitLog.hasMore log' = true
     /\ (exists fn', GitLog.more log' = Some fn' /\ GitLog.captured fn' = log')
     /\ GitLog.limit log' = None.
Proof.
  intros Hfn.
  destruct fn as [l rev options|l path rev options|l search source options];
    [| |by destruct (Hfn l search source options)]; intros Huntil;
    change (untilReached l (Some u) = false) in Huntil; unfold callMore.
  - unfold getLogMoreFn.
    change (moreUntilOf (Some (MoreUntil u))) with (Some u). rewrite Huntil. unfold bind.
    match goal with |- context [getLog P ?a ?b ?c w] =>
      destruct (getLog P a b c w) as [[[moreLog|]|ex] w0] end; [| |done].
    + intros [= <- <-]. right. unfold attachMore. simpl.
      split; [done|]. split; [|done]. by eexists.
    + intros [= <- <-]. by left.
  - unfold getLogForPathMoreFn.
    change (moreUntilOf (Some (MoreUntil u))) with (Some u). rewrite Huntil. unfold bind.
    match goal with |- context [getLogForPath P ?a ?b ?c ?d w] =>
      destruct (getLogForPath P a b c d w) as [[[moreLog|]|ex] w0] end; [| |done].
    + intros [= <- <-]. right. unfold attachMore. simpl.
      split; [done|]. split; [|done]. by eexists.
    + intros [= <- <-]. by left.
Qed.

End MoreFacts.

Section RequestFacts.

Context (P : Collaborators).

Lemma getLog_request repoPath rev options w :
  requests (getLog P repoPath rev options w).2 = requests w
  \/ exists request,
       requests (getLog P repoPath rev options w).2
         = requests w ++ [CallGetCommits request]
       /\ CommitsRequest.after request = options ≫= GitLogOptions.cursor
       /\ CommitsRequest.limit request
          = Some (getPagingLimit P (options ≫= GitLogOptions.limit))
       /\ CommitsRequest.path request = None
       /\ CommitsRequest.authors request = options ≫= GitLogOptions.authors.
Proof.
  unfold getLog. destruct repoPath as [repoPath|]; [|by left].
  unfold tryCatch, bind, await.
  destruct (ensureRepositoryContext P repoPath) as [ctx|]; [|by left].
  unfold resolveRevision, remote, ret, await.
  destruct rev as [r|]; [destruct (truthy r && negb (bool_decide (r = "HEAD")))|];
    try (destruct (RepositoryContext.getRevision ctx); [|by left]); simpl;
    match goal with
    | |- context [github_getCommits P (requests w) ?req] =>
        right; exists req; by destruct (github_getCommits P (requests w) req)
    end.
Qed.

Lemma getLogForPathCore_request repoPath path rev options w :
  requests (getLogForPathCore P repoPath path rev options w).2 = requests w
  \/ exists request,
       requests (getLogForPathCore P repoPath path rev options w).2
         = requests w ++ [CallGetCommits request]
       /\ CommitsRequest.after request = GitLogForPathOptions.cursor options
       /\ CommitsRequest.limit request
          = Some (getPagingLimit P (GitLogForPathOptions.limit options))
       /\ CommitsRequest.path request <> None
       /\ CommitsRequest.authors request = None.
Proof.
  unfold getLogForPathCore. destruct repoPath as [repoPath|]; [|by left].
  unfold bind, await.
  destruct (ensureRepositoryContext P repoPath) as [ctx|]; [|by left].
  unfold resolveRevision, remote, ret, await.
  destruct rev as [r|]; [destruct (truthy r && negb (bool_decide (r = "HEAD")))|];
    try (destruct (RepositoryContext.getRevision ctx); [|by left]); simpl;
    match goal with
    | |- context [github_getCommits P (requests w) ?req] =>
        right; exists req; by destruct (github_getCommits P (requests w) req)
    end.
Qed.

Lemma getLogForPath_request repoPath pathOrUri rev options w r w' :
  getLogForPath P repoPath pathOrUri rev options w = (r, w') ->
  requests w' = requests w
  \/ exists request,
       requests w' = requests w ++ [CallGetCommits request]
       /\ CommitsRequest.after request = options ≫= GitLogForPathOptions.cursor
       /\ CommitsRequest.limit request
          = Some (getPagingLimit P
                    (Some (getPagingLimit P (options ≫= GitLogForPathOptions.limit))))
       /\ CommitsRequest.path request <> None
       /\ CommitsRequest.authors request = None.
Proof.
  unfold getLogForPath. destruct repoPath as [repo|]; [|intros [= <- <-]; by left].
  destruct (decide _); [intros [= <- <-]; by left|]. unfold bind at 1.
  rewrite resolveFolder_pure.
  destruct (resolveFolder P repo _ rev _ emptyWorld).1
    as [[path' options']|ex] eqn:Hout; [|intros [= <- <-]; by left].
  destruct (resolveFolder_fields _ _ _ _ _ _ _ _ Hout) as (b & -> & _).
  assert (forall key w0 r0 w1,
            requests w0 = requests w ->
            fetchLogForPath P repo path' rev
              (GitLogForPathOptions.with_isFolder (effectiveOptions P options) b)
              key w0 = (r0, w1) ->
            requests w1 = requests w
            \/ exists request,
                 requests w1 = requests w ++ [CallGetCommits request]
                 /\ CommitsRequest.after request
                    = options ≫= GitLogForPathOptions.cursor
                 /\ CommitsRequest.limit request
                    = Some (getPagingLimit P
                              (Some (getPagingLimit P
                                       (options ≫= GitLogForPathOptions.limit))))
                 /\ CommitsRequest.path request <> None
                 /\ CommitsRequest.authors request = None) as Hfetch.
  { intros key w0 r0 w1 Hw0 Hrun.
    pose proof (fetchLogForPath_requests P repo path' rev
                  (GitLogForPathOptions.with_isFolder (effectiveOptions P options) b)
                  key w0) as Hreqs.
    rewrite Hrun in Hreqs. change ((r0, w1).2) with w1 in Hreqs. rewrite Hreqs.
    destruct (getLogForPathCore_request (Some repo) path' rev
                (GitLogForPathOptions.with_isFolder (effectiveOptions P options) b)
                w0) as [Hsame|(request & Hreq & Hafter & Hlimit & Hpath & Hauthors)].
    - left. by rewrite Hsame.
    - right. exists request. rewrite Hreq, Hw0. split; [done|].
      split; [|split; [|done]].
      + rewrite Hafter. by destruct options.
      + rewrite Hlimit. by destruct options. }
  cbv beta iota zeta.
  destruct (logCacheKey rev _) as [key|]; [|by apply Hfetch].
  destruct (match documents w !! _ with Some _ => _ | None => _ end);
    [intros [= <- <-]; by left|].
  unfold bind. unfold ensureState.
  destruct (documents w !! (repo, path')); by apply Hfetch.
Qed.

Lemma getCommit_request repoPath rev w :
  requests (getCommit P repoPath rev w).2 = requests w
  \/ exists token owner name ref,
       requests (getCommit P repoPath rev w).2
       = requests w ++ [CallGetCommit token owner name ref].
Proof.
  destruct (getCommit_returns P repoPath rev w)
    as (r & w' & -> & _ & [Hsame|(_ & token & owner & name & Hreq)]).
  - by left.
  - right. by eexists _, _, _, _.
Qed.

Lemma searchCommits_request repoPath search source options w r w' :
  searchCommits P repoPath search source options w = (r, w') ->
  requests w' = requests w
  \/ (exists token owner name ref,
        requests w' = requests w ++ [CallGetCommit token owner name ref])
  \/ exists request,
       requests w' = requests w ++ [CallSearchCommits request]
       /\ SearchRequest.cursor request = options ≫= GitSearchCommitsOptions.cursor
       /\ SearchRequest.limit request
          = Some (getPagingLimit P (options ≫= GitSearchCommitsOptions.limit)).
Proof.
  unfold searchCommits.
  destruct repoPath as [repoPath|]; [|intros [= <- <-]; by left].
  unfold bind at 1.
  assert (exists o, (if needsProcessing (withSearchDefaults search)
                     then await (processNaturalLanguageToSearchQuery P
                                   (withSearchDefaults search) source)
                     else ret (withSearchDefaults search)) w = (o, w)) as [o ->].
  { destruct (needsProcessing _); by eexists. }
  destruct o as [search1|ex]; [|intros [= <- <-]; by left].
  destruct (JsMap.get "commit:" (parseSearchQuery P search1))
    as [[|value values]|] eqn:Hop.
  2:{ unfold bind.
      destruct (getCommit_request (Some repoPath) value w) as [Hsame|Hreq];
        destruct (getCommit P (Some repoPath) value w) as [[[commit|]|ex] w0];
        simpl in *; intros [= <- <-]; by auto. }
  all: unfold bind, await;
    (destruct (getQueryArgsFromSearchQuery P search1 _ repoPath) as [[|arg args]|ex];
     [intros [= <- <-]; by left| |intros [= <- <-]; by left]);
    unfold tryCatch, bind, await, remote, ret;
    (destruct (ensureRepositoryContext P repoPath) as [ctx|];
     [|intros [= <- <-]; by left]); simpl;
    match goal with
    | |- context [github_searchCommits P ?h ?req] =>
        destruct (github_searchCommits P h req) as [[result|]|];
        intros [= <- <-]; right; right; by exists req
    end.
Qed.

(** X13. [more] sends one request at most, and a request for a page
    takes up where the log ended: its cursor is the [endingCursor] of
    the log the continuation was made for. (The continuation of a
    search can instead ask for the one commit the query names.) *)
Theorem more_resumes_at_ending_cursor fn limit w :
  let w' := (callMore P fn limit w).2 in
  requests w' = requests w
  \/ exists call,
       requests w' = requests w ++ [call]
       /\ match call with
          | CallGetCommits request =>
              CommitsRequest.after request
              = GitLog.endingCursor (GitLog.captured fn)
          | CallSearchCommits request =>
              SearchRequest.cursor request
              = GitLog.endingCursor (GitLog.captured fn)
          | CallGetCommit _ _ _ _ =>
              exists l search source options,
                fn = GitLog.SearchMoreFn l search source options
          | CallGetComparison _ _ _ _ => False
          end.
Proof.
  destruct fn as [l rev options|l path rev options|l search source options];
    simpl.
  - unfold getLogMoreFn. destruct (untilReached l _); [by left|]. unfold bind.
    match goal with |- context [getLog P ?a ?b ?c w] =>
      destruct (getLog_request a b c w)
        as [Hsame|(request & Hreq & Hafter & _)];
      destruct (getLog P a b c w) as [[[moreLog|]|ex] w0] end;
      simpl in *; try (by left);
      right; exists (CallGetCommits request); by destruct options.
  - unfold getLogForPathMoreFn. destruct (untilReached l _); [by left|].
    unfold bind.
    match goal with |- context [getLogForPath P ?a ?b ?c ?d w] =>
      pose proof (getLogForPath_request a b c d w) as Hrequest;
      destruct (getLogForPath P a b c d w) as [[[moreLog|]|ex] w0] end;
      destruct (Hrequest _ _ eq_refl) as [Hsame|(request & Hreq & Hafter & _)];
      simpl in *; try (by left);
      right; by exists (CallGetCommits request).
  - unfold searchCommitsCore, bind.
    match goal with |- context [searchCommits P ?a ?b ?c ?d w] =>
      pose proof (searchCommits_request a b c d w) as Hrequest;
      destruct (searchCommits P a b c d w) as [[[search' [moreLog|]]|ex] w0] end;
      destruct (Hrequest _ _ eq_refl)
        as [Hsame|[(token & owner & name & ref & Hreq)
                  |(request & Hreq & Hcursor & _)]];
      simpl in *; try (by left); right.
    all: try (exists (CallGetCommit token owner name ref); split; [done|];
              by eexists _, _, _, _).
    all: exists (CallSearchCommits request); by destruct options.
Qed.

End RequestFacts.

(** ** [reconcileFile] *)

Lemma reconcileFile_found repoPath relativePath commit files index f :
  list_find (fun f => GitFileChange.path f = relativePath) files = Some (index, f) ->
  exists f',
    reconcileFile repoPath relativePath commit files = <[index := f']> files
    /\ GitFileChange.path f' = relativePath
    /\ GitFileChange.status f' = Modified
    /\ files !! index = Some f
    /\ GitFileChange.path f = relativePath
    /\ forall j g, files !! j = Some g -> (j < index)%nat ->
                   GitFileChange.path g <> relativePath.
Proof.
  intros Hfind. unfold reconcileFile. rewrite Hfind.
  apply list_find_Some in Hfind as (Hlookup & Hpath & Hbefore).
  eexists. split; [reflexivity|]. by repeat split.
Qed.

(** X14. [reconcileFile] swaps one entry for a change of the same
    path: the list keeps its length and the paths of its files, in
    order; every file whose path is not the one asked for stays as it
    is; a list without the path is returned unchanged; and doing it
    twice is doing it once. *)
Theorem reconcileFile_keeps_paths repoPath relativePath commit files :
  let files' := reconcileFile repoPath relativePath commit files in
  GitFileChange.path <$> files' = GitFileChange.path <$> files
  /\ length files' = length files
  /\ (forall i f, files !! i = Some f ->
                  GitFileChange.path f <> relativePath ->
                  files' !! i = Some f)
  /\ (relativePath ∉ GitFileChange.path <$> files -> files' = files)
  /\ reconcileFile repoPath relativePath commit files' = files'.
Proof.
  simpl.
  destruct (list_find (fun f => GitFileChange.path f = relativePath) files)
    as [[index f]|] eqn:Hfind.
  - destruct (reconcileFile_found repoPath relativePath commit files index f Hfind)
      as (f' & Hrec & Hpath' & _ & Hlookup & Hpath & Hbefore).
    assert (GitFileChange.path <$> <[index := f']> files
            = GitFileChange.path <$> files) as Hpaths.
    { rewrite list_fmap_insert. apply list_insert_id.
      rewrite list_lookup_fmap, Hlookup. simpl. by rewrite Hpath, Hpath'. }
    rewrite Hrec. split; [exact Hpaths|]. split; [apply length_insert|].
    split; [|split].
    + intros i g Hi Hg. rewrite list_lookup_insert_ne; [done|].
      intros <-. rewrite Hlookup in Hi. injection Hi as <-. done.
    + intros Hnot. exfalso. apply Hnot. apply list_elem_of_fmap.
      exists f. split; [done|]. by eapply list_elem_of_lookup_2.
    + assert (list_find (fun f => GitFileChange.path f = relativePath)
                (<[index := f']> files) = Some (index, f')) as Hfind'.
      { apply list_find_Some. split; [|split; [done|]].
        - apply list_lookup_insert_eq. by eapply lookup_lt_Some.
        - intros j g Hj Hlt. rewrite list_lookup_insert_ne in Hj by lia.
          by eapply Hbefore. }
      unfold reconcileFile at 1. rewrite Hfind'.
      rewrite list_insert_insert_eq.
      unfold reconcileFile in Hrec. rewrite Hfind in Hrec. exact Hrec.
  - assert (reconcileFile repoPath relativePath commit files = files) as Hrec.
    { unfold reconcileFile. by rewrite Hfind. }
    rewrite !Hrec. by repeat split.
Qed.

Section FilesFacts.

Context (P : Collaborators).
Context (deletedOrMissing : string).

(** X15. [getCommitFiles] never throws and leaves the documents alone.
    For the revision that stands for a deleted or missing file, and for
    an uncommitted one, it returns no files and sends nothing; for any
    other it returns the files of the commit [getCommit] finds, and no
    files when there is no commit or the commit has no file set. *)
Theorem getCommitFiles_outcomes repoPath rev w :
  (rev = deletedOrMissing \/ isUncommitted P rev false = true ->
   getCommitFiles P deletedOrMissing repoPath rev w = (Returns [], w))
  /\ (rev <> deletedOrMissing -> isUncommitted P rev false = false ->
      exists commit w',
        getCommit P repoPath rev w = (Returns commit, w')
        /\ documents w' = documents w
        /\ getCommitFiles P deletedOrMissing repoPath rev w
           = (Returns
                match commit with
                | Some c =>
                    match GitCommit.fileset c with
                    | Some fileset => default [] (GitCommitFileset.files fileset)
                    | None => []
                    end
                | None => []
                end, w')).
Proof.
  unfold getCommitFiles. split.
  - intros [->|Hun].
    + by rewrite bool_decide_eq_true_2.
    + rewrite Hun. by rewrite orb_true_r.
  - intros Hrev Hun. rewrite bool_decide_eq_false_2, Hun by done. simpl.
    destruct (getCommit_returns P repoPath rev w) as (commit & w' & Hrun & Hdocs & _).
    exists commit, w'. split; [done|]. split; [done|].
    unfold bind. rewrite Hrun. unfold ret.
    destruct commit as [c|]; [|done]. simpl.
    by destruct (GitCommit.fileset c).
Qed.

(** X16. [getLogShas] gives the ids of the log it fetches: on a
    well-formed cache whose logs hold their commits under their shas,
    what it returns has no id twice; it is the list of the ids of the
    log of [getLogForPath], when a path is given, or of [getLog], in
    the order of that log, and it is empty when there is no log. *)
Theorem getLogShas_are_the_ids repoPath rev options w shas w' :
  cache_ok w ->
  cache_keyed w ->
  getLogShas P repoPath rev options w = (Returns shas, w') ->
  NoDup shas
  /\ exists log,
       match options ≫= GitLogShasOptions.pathOrUri with
       | Some pathOrUri =>
           getLogForPath P repoPath pathOrUri rev
             (GitLogShasOptions.pathOptions <$> options) w
       | None =>
           getLog P repoPath rev (GitLogShasOptions.logOptions <$> options) w
       end = (Returns log, w')
       /\ shas = match log with
                 | Some log => JsMap.keys (GitLog.commits log)
                 | None => []
                 end.
Proof.
  intros Hok Hkeyed. unfold getLogShas, bind, ret.
  destruct (options ≫= GitLogShasOptions.pathOrUri) as [pathOrUri|].
  - pose proof (getLogForPath_ok P repoPath pathOrUri rev
                  (GitLogShasOptions.pathOptions <$> options) w) as Hlog.
    pose proof (getLogForPath_keyed P repoPath pathOrUri rev
                  (GitLogShasOptions.pathOptions <$> options) w) as Hkey.
    destruct (getLogForPath P repoPath pathOrUri rev _ w) as [[[log|]|ex] w0];
      [| |done].
    + intros [= <- <-].
      destruct (Hlog _ _ Hok eq_refl) as [Hlog' _].
      destruct (Hkey _ _ Hkeyed eq_refl) as [Hkey' _].
      rewrite (keyed_values_refs _ (Hkey' _ eq_refl)).
      split; [by destruct (Hlog' _ eq_refl)|]. by exists (Some log).
    + intros [= <- <-]. split; [apply NoDup_nil_2|]. by exists None.
  - pose proof (getLog_ok P repoPath rev
                  (GitLogShasOptions.logOptions <$> options) w) as Hlog.
    pose proof (getLog_keyed P repoPath rev
                  (GitLogShasOptions.logOptions <$> options) w) as Hkey.
    destruct (getLog P repoPath rev _ w) as [[[log|]|ex] w0]; [| |done].
    + intros [= <- <-].
      rewrite (keyed_values_refs _ (Hkey _ _ eq_refl)).
      split; [by destruct (Hlog _ _ eq_refl)|]. by exists (Some log).
    + intros [= <- <-]. split; [apply NoDup_nil_2|]. by exists None.
Qed.

(** X17. The file sets follow the query. Every commit of a log of
    [getLog] has a complete file set or none, and belongs to the
    repository of the log. Every commit of a log of [getLogForPathCore]
    has only a filtered file set, whose pathspec is the path the remote
    was asked for. *)
Theorem file_sets_follow_the_query :
  (forall repoPath rev options w log w',
     getLog P repoPath rev options w = (Returns (Some log), w') ->
     Forall (fun e => completeFiles e.2
                      /\ GitCommit.repoPath e.2 = GitLog.repoPath log)
       (GitLog.commits log))
  /\ (forall repo path rev options w log w',
        getLogForPathCore P (Some repo) path rev options w
          = (Returns (Some log), w') ->
        let uri := getAbsoluteUri P path repo in
        Forall (fun e => filteredFor
                           (getRelativePath P uri (getProviderRootUri P uri)) e.2
                         /\ GitCommit.repoPath e.2 = GitLog.repoPath log)
          (GitLog.commits log)).
Proof.
  split.
  - intros repoPath rev options w log w'.
    unfold getLog. destruct repoPath as [repoPath|]; [|done].
    unfold tryCatch, bind, await.
    destruct (ensureRepositoryContext P repoPath) as [ctx|]; [|done].
    unfold resolveRevision, remote, ret, await.
    destruct rev as [r|]; [destruct (truthy r && negb (bool_decide (r = "HEAD")))|];
      try destruct (RepositoryContext.getRevision ctx); simpl;
      try destruct (github_getCommits P (requests w) _); try done;
      intros [= <- <-]; simpl; rewrite collectCommits_collectWith;
      (apply Forall_collectWith; [|apply Forall_nil_2]);
      intros commit; (split; [|done]); unfold completeFiles; simpl;
      by destruct (GitHubCommit.files commit).
  - intros repo path rev options w log w'.
    unfold getLogForPathCore. unfold bind, await.
    destruct (ensureRepositoryContext P repo) as [ctx|]; [|done].
    unfold resolveRevision, remote, ret, await.
    destruct rev as [r|]; [destruct (truthy r && negb (bool_decide (r = "HEAD")))|];
      try destruct (RepositoryContext.getRevision ctx); simpl;
      try destruct (github_getCommits P (requests w) _); try done;
      intros [= <- <-]; simpl; rewrite collectPathCommits_collectWith;
      (apply Forall_collectWith; [|apply Forall_nil_2]);
      intros commit; (split; [|done]); unfold filteredFor; simpl;
      by eexists.
Qed.

(** X18. [searchCommits] throws only before anything is sent: when the
    natural-language query cannot be processed, or when the arguments
    of a query that names no commit cannot be built. A refused
    repository context and a failed search are not thrown. *)
Theorem searchCommits_throws_iff repoPath search source options w ex w' :
  let search0 := withSearchDefaults search in
  let settled :=
    if needsProcessing search0
    then processNaturalLanguageToSearchQuery P search0 source
    else Returns search0 in
  searchCommits P repoPath search source options w = (Throws ex, w')
  <-> w' = w
      /\ exists repo,
           repoPath = Some repo
           /\ (settled = Throws ex
               \/ exists search1,
                    settled = Returns search1
                    /\ (forall value values,
                          JsMap.get "commit:" (parseSearchQuery P search1)
                          <> Some (value :: values))
                    /\ getQueryArgsFromSearchQuery P search1
                         (parseSearchQuery P search1) repo = Throws ex).
Proof.
  simpl. unfold searchCommits. destruct repoPath as [repo|].
  2:{ split; [done|]. by intros (_ & repo & [=] & _). }
  unfold bind at 1.
  assert ((if needsProcessing (withSearchDefaults search)
           then await (processNaturalLanguageToSearchQuery P
                         (withSearchDefaults search) source)
           else ret (withSearchDefaults search)) w
          = ((if needsProcessing (withSearchDefaults search)
              then processNaturalLanguageToSearchQuery P
                     (withSearchDefaults search) source
              else Returns (withSearchDefaults search)), w)) as ->.
  { by destruct (needsProcessing _). }
  destruct (if needsProcessing (withSearchDefaults search) then _ else _)
    as [search1|ex0].
  2:{ split.
      - intros [= <- <-]. split; [done|]. exists repo. split; [done|]. by left.
      - intros (-> & repo' & _ & [[= ->]|(search1 & [=] & _)]). done. }
  destruct (JsMap.get "commit:" (parseSearchQuery P search1))
    as [[|value values]|] eqn:Hop.
  2:{ split.
      - unfold bind.
        destruct (getCommit_returns P (Some repo) value w)
          as (commit & w0 & -> & _). by destruct commit.
      - intros (_ & repo' & _ & [[=]|(search1' & [= <-] & Hnone & _)]).
        by destruct (Hnone value values). }
  all: unfold bind, await;
    destruct (getQueryArgsFromSearchQuery P search1 _ repo)
      as [[|arg args]|ex1] eqn:Hargs;
    [split; [done|];
     intros (_ & repo' & [= <-] & [[=]|(search1' & [= <-] & _ & Hthrows)]);
     by rewrite Hargs in Hthrows
    |split;
     [unfold tryCatch, bind, await, remote, ret;
      destruct (ensureRepositoryContext P repo) as [ctx|]; [|done]; simpl;
      by destruct (github_searchCommits P _ _) as [[result|]|]
     |intros (_ & repo' & [= <-] & [[=]|(search1' & [= <-] & _ & Hthrows)]);
      by rewrite Hargs in Hthrows]
    |split;
     [intros [= <- <-]; split; [done|]; exists repo; split; [done|]; right;
      exists search1; split; [done|]; split; [|done];
      intros value values; by rewrite ?Hop
     |intros (-> & repo' & [= <-] & [[=]|(search1' & [= <-] & _ & Hthrows)]);
      rewrite Hargs in Hthrows; by injection Hthrows as ->]].
Qed.

End FilesFacts.

Lemma append_empty_r (s : string) : s +:+ "" = s.
Proof.
  induction s as [|c s IH]; [done|].
  change (String c s +:+ "") with (String c (s +:+ "")). by rewrite IH.
Qed.

(** X19. The markdown a contributor's node puts on the clipboard links
    the plain text to the url of the node. Without an email there is no
    url, and both texts are the contributor's name. *)
Theorem toClipboard_links_to_getUrl node :
  let email := GitContributor.email (ContributorNode.contributor node) in
  let name := GitContributor.name (ContributorNode.contributor node) in
  (truthyOpt email = true ->
   ContributorNode.toClipboard node (Some "markdown")
   = "[" +:+ ContributorNode.toClipboard node None +:+ "]("
     +:+ ContributorNode.getUrl node +:+ ")"
   /\ ContributorNode.getUrl node <> "")
  /\ (truthyOpt email = false ->
      ContributorNode.toClipboard node (Some "markdown") = name
      /\ ContributorNode.toClipboard node None = name
      /\ ContributorNode.getUrl node = "")
  /\ (forall type, type <> "markdown" ->
        ContributorNode.toClipboard node (Some type)
        = ContributorNode.toClipboard node None).
Proof.
  unfold ContributorNode.toClipboard, ContributorNode.getUrl. cbv zeta.
  split; [|split].
  - intros ->. by destruct (decide ("markdown" = "markdown")).
  - intros ->. rewrite append_empty_r.
    by destruct (decide ("markdown" = "markdown")).
  - intros type Htype. by destruct (decide (type = "markdown")).
Qed.

Section NodeFacts.

Context (P : Collaborators).
Context (gitUser : string -> option string -> option string -> option string
                   -> string).

Lemma pathLogOptions_uncacheable node s isFolder :
  uncacheable (ContributorNode.pathLogOptions gitUser node s isFolder).
Proof. right. left. done. Qed.

(** X20. The log of a contributor's node. A log the node holds is
    handed out as it is, with nothing sent. Otherwise one request at
    most is sent, for the page size the policy grants for the node's
    limit (the view's default when the node has none), and the
    documents are left alone: a log for a pathspec goes past the cache,
    since it names an author. Without a pathspec the request names the
    contributor as the one author and no path; with a pathspec it names
    a path and no author. *)
Theorem contributor_log_request node s w r w' :
  ContributorNode.getLog P gitUser node s w = (r, w') ->
  let size := default (ContributorNode.defaultItemLimit node)
                (ContributorNode.limit s) in
  documents w' = documents w
  /\ (ContributorNode._log s <> None ->
      w' = w /\ r = Returns (ContributorNode._log s, s))
  /\ (requests w' = requests w
      \/ exists request,
           requests w' = requests w ++ [CallGetCommits request]
           /\ CommitsRequest.after request = None
           /\ match ContributorNode.nodeOptions node ≫= ContributorNode.pathspec with
              | Some _ =>
                  CommitsRequest.path request <> None
                  /\ CommitsRequest.authors request = None
                  /\ CommitsRequest.limit request
                     = Some (getPagingLimit P (Some (getPagingLimit P (Some size))))
              | None =>
                  CommitsRequest.path request = None
                  /\ CommitsRequest.authors request
                     = Some [ContributorNode.author gitUser node]
                  /\ CommitsRequest.limit request
                     = Some (getPagingLimit P (Some size))
              end).
Proof.
  unfold ContributorNode.getLog.
  destruct (ContributorNode._log s) as [log|] eqn:Hlog.
  { intros [= <- <-]. simpl. split; [done|]. split; [done|]. by left. }
  unfold bind, ret.
  destruct (ContributorNode.nodeOptions node ≫= ContributorNode.pathspec)
    as [[pathUri isFolder]|].
  - match goal with |- context [getLogForPath P ?a ?b ?c (Some ?d) w] =>
      pose proof (getLogForPath_uncacheable P a b c d w) as Hdocs;
      pose proof (getLogForPath_request P a b c (Some d) w) as Hreq;
      destruct (getLogForPath P a b c (Some d) w) as [[log|ex] w0] end;
      destruct (Hdocs _ _ (pathLogOptions_uncacheable node s isFolder) eq_refl)
        as [Hd _];
      destruct (Hreq _ _ eq_refl)
        as [Hsame|(request & Hr & Hafter & Hlimit & Hpath & Hauthors)];
      intros [= <- <-]; simpl; (split; [done|]); (split; [done|]);
      try (by left); right; by exists request.
  - match goal with |- context [getLog P ?a ?b ?c w] =>
      pose proof (getLog_world P a b c w) as Hd;
      destruct (getLog_request P a b c w)
        as [Hsame|(request & Hr & Hafter & Hlimit & Hpath & Hauthors)];
      destruct (getLog P a b c w) as [[log|ex] w0] end;
      intros [= <- <-]; simpl in *; (split; [done|]); (split; [done|]);
      try (by left); right; by exists request.
Qed.

(** X21. [loadMore] on a contributor's node. With a log that has no
    more, nothing happens: no request, no change, the same state.
    Whenever it does fire a change, it has returned, it fires one, and
    the node's limit is then the count of the log it holds (none with
    no log); so after a [refresh] that resets the node, the next fetch
    asks for as many commits as the log held. When it fires none, the
    limit is as before, and a log the node held is still held. *)
Theorem loadMore_limit_follows_count node limit s w r s' w' :
  ContributorNode.loadMore P gitUser node limit s w = (r, s', w') ->
  (ContributorNode.hasMore s = false -> r = Returns tt /\ s' = s /\ w' = w)
  /\ (ContributorNode.changes s' = ContributorNode.changes s
      /\ ContributorNode.limit s' = ContributorNode.limit s
      /\ (ContributorNode._log s <> None ->
          ContributorNode._log s' = ContributorNode._log s)
      \/ ContributorNode.changes s' = S (ContributorNode.changes s)
         /\ r = Returns tt
         /\ ContributorNode.limit s'
            = match ContributorNode._log s' with
              | Some log => Some (GitLog.count log)
              | None => None
              end
         /\ forall log,
              ContributorNode._log s' = Some log ->
              let reset := ContributorNode.refresh (Some true) s' in
              ContributorNode._log reset = None
              /\ GitLogOptions.limit (ContributorNode.logOptions gitUser node reset)
                 = Some (GitLog.count log)).
Proof.
  intros Hrun. split.
  { unfold ContributorNode.hasMore. intros Hno. revert Hrun.
    unfold ContributorNode.loadMore, ContributorNode.getLog.
    destruct (ContributorNode._log s) as [l|]; [|done].
    unfold ret. rewrite Hno. by intros [= <- <- <-]. }
  revert Hrun. unfold ContributorNode.loadMore.
  assert (forall log s1 w1,
            ContributorNode.getLog P gitUser node s w = (Returns (log, s1), w1) ->
            ContributorNode._log s1 = log
            /\ ContributorNode.limit s1 = ContributorNode.limit s
            /\ ContributorNode.changes s1 = ContributorNode.changes s
            /\ (ContributorNode._log s <> None -> s1 = s)) as Hget.
  { intros log s1 w1. unfold ContributorNode.getLog.
    destruct (ContributorNode._log s) as [l|] eqn:Hl.
    - by intros [= <- <- <-].
    - unfold bind, ret.
      destruct (ContributorNode.nodeOptions node ≫= ContributorNode.pathspec)
        as [[pathUri isFolder]|].
      + match goal with |- context [getLogForPath P ?a ?b ?c ?d w] =>
          destruct (getLogForPath P a b c d w) as [[l|ex] w0] end; [|done].
        by intros [= <- <- <-].
      + match goal with |- context [getLog P ?a ?b ?c w] =>
          destruct (getLog P a b c w) as [[l|ex] w0] end; [|done].
        by intros [= <- <- <-]. }
  destruct (ContributorNode.getLog P gitUser node s w) as [[[log s1]|ex] w1].
  2:{ intros [= <- <- <-]. by left. }
  destruct (Hget _ _ _ eq_refl) as (Hlog & Hlimit & Hchanges & Hheld).
  assert (ContributorNode._log s <> None ->
          ContributorNode._log s1 = ContributorNode._log s) as Hheld'.
  { intros Hl. by rewrite (Hheld Hl). }
  destruct log as [log|]; [|intros [= <- <- <-]; by left].
  destruct (GitLog.hasMore log); simpl; [|intros [= <- <- <-]; by left].
  destruct (GitLog.more log) as [fn|].
  2:{ intros [= <- <- <-]. right. simpl. by rewrite Hchanges. }
  destruct (callMore P fn _ w1) as [[log'|ex] w2];
    [|intros [= <- <- <-]; by left].
  destruct (ContributorNode.returnsCaptured fn _);
    intros [= <- <- <-]; [by left|].
  right. simpl. rewrite Hchanges.
  split; [done|]. split; [done|]. split; [done|].
  intros log0 [= <-]. by split.
Qed.

End NodeFacts.

(** X22. The searches of the Repositories view stay in the repository.
    Whatever node a guard of [findBranch], [findCommit],
    [findContributor], [findRemote], [findStash], [findTag],
    [findWorktree] or of the reveals of a section lets the search enter
    is the root of the view or a node of the repository searched. A
    remote is entered by [findBranch] only under the name of the
    branch's remote, and by [findCommit] only under the first segment
    of the name of a branch that holds the commit; a branch is entered
    by [findCommit] only when it holds the commit, and it is then paged
    up to that commit. *)
Theorem searches_stay_in_the_repository
    (getRemoteNameFromBranchName : string -> string) repoPath (n : ViewNode.t) :
  let inside :=
    ViewNode.nodeClass n = ViewNode.RepositoriesNode
    \/ ViewNode.repoPath n = repoPath in
  (forall branchName remote,
     RepositoriesView.findBranch_canTraverse getRemoteNameFromBranchName
       repoPath branchName remote n = true ->
     inside
     /\ forall remoteName,
          ViewNode.nodeClass n = ViewNode.RemoteNode remoteName ->
          remote = true
          /\ remoteName = getRemoteNameFromBranchName branchName)
  /\ (forall ref branches,
        let answer :=
          RepositoriesView.findCommit_canTraverse repoPath ref branches n in
        (answer.1 = true -> inside)
        /\ (forall branchName,
              ViewNode.nodeClass n = ViewNode.BranchNode branchName ->
              answer.1 = true ->
              branchName ∈ branches /\ answer.2 = Some ref)
        /\ (forall until, answer.2 = Some until ->
                          until = ref /\ answer.1 = true))
  /\ (forall branches,
        RepositoriesView.findCommit_canTraverseRemotes repoPath branches n = true ->
        inside
        /\ (forall remoteName,
              ViewNode.nodeClass n = ViewNode.RemoteNode remoteName ->
              exists branch, branch ∈ branches
                             /\ remoteName = firstSegment branch)
        /\ (forall branchName,
              ViewNode.nodeClass n = ViewNode.BranchNode branchName ->
              branchName ∈ branches))
  /\ (RepositoriesView.findContributor_canTraverse repoPath n = true -> inside)
  /\ (RepositoriesView.findRemote_canTraverse repoPath n = true -> inside)
  /\ (RepositoriesView.findStash_canTraverse repoPath n = true -> inside)
  /\ (RepositoriesView.findTag_canTraverse repoPath n = true -> inside)
  /\ (RepositoriesView.findWorktree_canTraverse repoPath n = true -> inside)
  /\ (RepositoriesView.revealSection_canTraverse repoPath n = true -> inside).
Proof.
  simpl. split; [|split; [|split]].
  - intros branchName remote.
    unfold RepositoriesView.findBranch_canTraverse.
    destruct n as [[] repo], remote; simpl; try done;
      try (intros ->%bool_decide_eq_true; split; [by right|done]);
      try (intros _; split; [by left|done]).
    case_bool_decide as Hrepo; [done|].
    intros ->%bool_decide_eq_true. split.
    + right. by destruct (decide (repo = repoPath)).
    + by intros ? [= <-].
  - intros ref branches.
    unfold RepositoriesView.findCommit_canTraverse.
    destruct n as [[] repo]; simpl; try done;
      try (split; [intros ->%bool_decide_eq_true; by right|done]);
      try (split; [by left|done]).
    destruct (bool_decide (repo = repoPath) && bool_decide (branchName ∈ branches))
      eqn:Hguard; simpl.
    + apply andb_true_iff in Hguard as [->%bool_decide_eq_true Hin%bool_decide_eq_true].
      split; [by right|]. split.
      * by intros ? [= <-] _.
      * by intros ? [= <-].
    + done.
  - intros branches.
    unfold RepositoriesView.findCommit_canTraverseRemotes.
    destruct n as [[] repo]; simpl; try done;
      try (intros ->%bool_decide_eq_true; split; [by right|done]);
      try (intros _; split; [by left|done]).
    + intros [->%bool_decide_eq_true Hin%bool_decide_eq_true]%andb_true_iff.
      split; [by right|]. split; [done|]. by intros ? [= <-].
    + intros [->%bool_decide_eq_true Hin%bool_decide_eq_true]%andb_true_iff.
      split; [by right|]. split; [|done]. intros ? [= <-].
      apply list_elem_of_fmap in Hin as (branch & -> & Hin). by exists branch.
  - unfold RepositoriesView.findContributor_canTraverse,
      RepositoriesView.findRemote_canTraverse,
      RepositoriesView.findStash_canTraverse,
      RepositoriesView.findTag_canTraverse,
      RepositoriesView.findWorktree_canTraverse,
      RepositoriesView.revealSection_canTraverse.
    repeat split;
      destruct n as [[] repo]; simpl; try done;
      try (intros ->%bool_decide_eq_true; by right); intros _; by left.
Qed.

(** X23. The context key follows [autoRefresh]. After [setAutoRefresh]
    is called with the configured value, as every caller does, the
    context key holds what [autoRefresh] then answers, and the event
    has fired once. Turned off in the configuration, the call leaves
    the stored workspace value alone, whatever it is given; turned on,
    it stores the value it is given, which is then the answer, and
    stores nothing when given none. *)
Theorem setAutoRefresh_context_follows_getter workspaceEnabled s :
  let s' :=
    RepositoriesView.setAutoRefresh (RepositoriesView.configured s)
      workspaceEnabled s in
  RepositoriesView.context s' = Some (RepositoriesView.autoRefresh s')
  /\ RepositoriesView.fired s' = S (RepositoriesView.fired s)
  /\ RepositoriesView.configured s' = RepositoriesView.configured s
  /\ (RepositoriesView.configured s = false ->
      RepositoriesView.workspace s' = RepositoriesView.workspace s
      /\ RepositoriesView.autoRefresh s' = false)
  /\ (forall b,
        RepositoriesView.configured s = true ->
        workspaceEnabled = Some b ->
        RepositoriesView.workspace s' = Some b
        /\ RepositoriesView.autoRefresh s' = b)
  /\ (RepositoriesView.configured s = true ->
      workspaceEnabled = None ->
      RepositoriesView.workspace s' = RepositoriesView.workspace s
      /\ RepositoriesView.autoRefresh s' = RepositoriesView.autoRefresh s).
Proof.
  destruct s as [configured workspace context fired].
  unfold RepositoriesView.setAutoRefresh, RepositoriesView.autoRefresh. simpl.
  destruct configured, workspaceEnabled as [b|]; simpl; repeat split;
    try done; intros; congruence.
Qed.

Lemma logCacheKey_rev_length r options k1 k2 :
  logCacheKey (Some r) options = Some k1 ->
  logCacheKey None options = Some k2 ->
  String.length k1 = (String.length k2 + 1 + String.length r)%nat.
Proof.
  unfold logCacheKey. destruct (_ && _); [|done].
  intros [= <-] [= <-].
  destruct (default false (GitLogForPathOptions.all options));
    destruct (GitLogForPathOptions.limit options) as [n|];
    try destruct (bool_decide (n = 0));
    destruct (GitLogForPathOptions.merges options) as [[[|]|]|];
    destruct (GitLogForPathOptions.ordering options) as [o|];
    try destruct (truthy o);
    destruct (default false (GitLogForPathOptions.renames options));
    rewrite ?length_append; simpl; lia.
Qed.

Section RevisionFacts.

Context (P : Collaborators).

(** X25. "HEAD" and the empty revision stand for no revision: [getLog]
    and [getLogForPathCore] do for them exactly what they do when no
    revision is given. The cache of [getLogForPath] nevertheless keeps
    such a query apart from the query without a revision: their keys
    are never the same. *)
Theorem head_is_the_default_revision rev :
  rev = Some "HEAD" \/ rev = Some "" ->
  (forall repoPath options w,
     getLog P repoPath rev options w = getLog P repoPath None options w)
  /\ (forall repoPath path options w,
        getLogForPathCore P repoPath path rev options w
        = getLogForPathCore P repoPath path None options w)
  /\ (forall options key,
        logCacheKey None options = Some key ->
        logCacheKey rev options <> Some key).
Proof.
  intros Hrev. split; [|split].
  - intros repoPath options w. by destruct Hrev as [-> | ->].
  - intros repoPath path options w. by destruct Hrev as [-> | ->].
  - intros options key Hnone Hrev'.
    destruct Hrev as [-> | ->];
      pose proof (logCacheKey_rev_length _ _ _ _ Hrev' Hnone) as Hlen; lia.
Qed.

End RevisionFacts.

(** * More examples *)

(** X1 at the page [c, d, e] of the remote *)
Lemma getLog_reflects_page_witness :
  exists log w',
    getLog secondPageProvider (Some "repo") (Some "a") None emptyWorld
    = (Returns (Some log), w')
    /\ JsMap.keys (GitLog.commits log) = ["c"; "d"; "e"]
    /\ GitLog.count log = 3
    /\ GitLog.hasMore log = false
    /\ GitLog.endingCursor log = Some "cursor2".
Proof.
  eexists _, _. split; [vm_compute; reflexivity|].
  destruct (getLog_reflects_page secondPageProvider (Some "repo") (Some "a") None
              emptyWorld _ _ eq_refl)
    as (repo & ctx & request & result & _ & _ & Hresult & _ & _ & _ & _
        & Hkeys & _ & Hcount & Hmore & Hcursor & _).
  injection Hresult as <-.
  split; [exact Hkeys|]. split; [exact Hcount|]. split; [exact Hmore|exact Hcursor].
Defined.

(** X2 at the page [c, d, e] of the remote, asked for "file" *)
Lemma getLogForPathCore_reflects_page_witness :
  exists log w',
    getLogForPathCore secondPageProvider (Some "repo") "file" None
      GitLogForPathOptions.none emptyWorld
    = (Returns (Some log), w')
    /\ JsMap.keys (GitLog.commits log) = ["c"; "d"; "e"]
    /\ GitLog.count log = 3
    /\ GitLog.limit log = Some 50.
Proof.
  eexists _, _. split; [vm_compute; reflexivity|].
  destruct (getLogForPathCore_reflects_page secondPageProvider (Some "repo") "file"
              None GitLogForPathOptions.none emptyWorld _ _ eq_refl)
    as (repo & ctx & request & result & _ & _ & Hresult & _ & _ & _ & _ & _
        & Hkeys & _ & Hcount & _ & _ & Hlimit).
  injection Hresult as <-.
  split; [exact Hkeys|]. split; [exact Hcount|exact Hlimit].
Defined.

(** X3 at the pages [a, b, c] and [c, d, e]: the merged log holds its
    commits under their shas, and "d" is reached. *)
Lemma returned_logs_keyed_witness :
  exists log' w',
    callMore secondPageProvider (GitLog.LogMoreFn firstPage (Some "a") None) None
      emptyWorld
    = (Returns log', w')
    /\ keyed (GitLog.commits log')
    /\ cache_keyed w'
    /\ untilReached log' (Some "d") = true.
Proof.
  eexists _, _. split; [vm_compute; reflexivity|].
  destruct (returned_logs_keyed secondPageProvider)
    as (_ & _ & _ & Hmore & Huntil).
  assert (keyed (GitLog.commits
                   (GitLog.captured (GitLog.LogMoreFn firstPage (Some "a") None))))
    as Hfirst.
  { apply (bool_decide_unpack _). vm_compute. exact I. }
  destruct (Hmore (GitLog.LogMoreFn firstPage (Some "a") None) None emptyWorld
              _ _ Hfirst cache_keyed_emptyWorld eq_refl) as [Hlog Hw'].
  split; [exact Hlog|]. split; [exact Hw'|].
  etrans; [apply (Huntil _ "d" Hlog)|]. vm_compute. reflexivity.
Defined.

(** X5 at a repository context that is refused, and at a comparison
    that answers two behind and none ahead *)
Lemma getLeftRightCommitCount_outcomes_witness :
  getLeftRightCommitCount (withoutContext behindProvider) (Some "repo") "a...b"
    emptyWorld
  = (Throws "Error: no repository", emptyWorld)
  /\ exists w',
       getLeftRightCommitCount behindProvider (Some "repo") "a...b" emptyWorld
       = (Returns (Some (LeftRightCommitCountResult.mk 2 0)), w').
Proof.
  split.
  - apply (proj1 (proj2 (getLeftRightCommitCount_outcomes
                           (withoutContext behindProvider) "repo" "a...b"
                           emptyWorld))).
    reflexivity.
  - eexists.
    apply (proj1 (proj2 (proj2 (getLeftRightCommitCount_outcomes
                                  behindProvider "repo" "a...b" emptyWorld)))
             exampleContext).
    reflexivity.
Defined.

(** X6 at a tree lookup that is refused *)
Lemma getLogForPath_throws_iff_witness :
  getLogForPath (withoutTree failingProvider) (Some "repo") "file" None None
    emptyWorld
  = (Throws "Error: no tree", emptyWorld).
Proof.
  apply (proj2 (getLogForPath_throws_iff (withoutTree failingProvider)
                  (Some "repo") "file" None None emptyWorld "Error: no tree"
                  emptyWorld)).
  split; [reflexivity|]. exists "repo". split; [reflexivity|]. right.
  split; [vm_compute; discriminate|]. split; [reflexivity|].
  split; reflexivity.
Defined.

(** X7 at a query with an author, over a cache that holds the log of
    the whole file *)
Lemma getLogForPath_bypasses_cache_witness :
  exists r w',
    getLogForPath secondPageProvider (Some "repo") "file" None
      (Some (authorOption "ann")) wholeFileWorld
    = (r, w')
    /\ logCacheKey None (authorOption "ann") = None
    /\ documents w' = documents wholeFileWorld.
Proof.
  eexists _, _. split; [vm_compute; reflexivity|].
  destruct (getLogForPath_bypasses_cache secondPageProvider) as (Hkey & Hrun & _).
  assert (uncacheable (authorOption "ann")) as Hun.
  { right. left. discriminate. }
  split; [by apply Hkey|].
  apply (proj1 (Hrun (Some "repo") "file" None (authorOption "ann") wholeFileWorld
                  _ _ Hun eq_refl)).
Defined.

(** X8 at the first query for "file" *)
Lemma getLogForPath_fetches_once_witness :
  exists r w1,
    getLogForPath secondPageProvider (Some "repo") "file" None None emptyWorld
    = (Returns r, w1)
    /\ getLogForPath secondPageProvider (Some "repo") "file" None None w1
       = (Returns r, w1).
Proof.
  eexists _, _. split; [vm_compute; reflexivity|].
  apply (getLogForPath_fetches_once secondPageProvider emptyWorld "repo" "file"
           None None "file"
           (GitLogForPathOptions.with_isFolder
              (effectiveOptions secondPageProvider None) (Some false))
           "log:n50").
  - reflexivity.
  - vm_compute. reflexivity.
  - vm_compute. reflexivity.
Defined.

(** X9 under a policy that never grants 0 *)
Lemma whole_file_key_never_written_witness :
  noWholeFileLog emptyWorld
  /\ noWholeFileLog
       (getLogForPath nonZeroProvider (Some "repo") "file" None None emptyWorld).2.
Proof.
  assert (forall limit, getPagingLimit nonZeroProvider limit <> 0) as Hpolicy.
  { intros limit. simpl. unfold nonZeroPolicy. case_bool_decide; [discriminate|done]. }
  assert (noWholeFileLog emptyWorld) as Hempty.
  { intros doc state H. simpl in H. by rewrite lookup_empty in H. }
  split; [exact Hempty|].
  apply (proj1 (whole_file_key_never_written nonZeroProvider Hpolicy)).
  exact Hempty.
Defined.

(** X10 at the pages [a, b, c] and [c, d, e] *)
Lemma more_appends_paged_commits_witness :
  exists log' w',
    getLogMoreFn secondPageProvider firstPage (Some "a") None None emptyWorld
    = (Returns log', w')
    /\ exists paged,
         GitLog.pagedCommits log' = Some paged
         /\ JsMap.keys paged = ["d"; "e"]
         /\ JsMap.keys (GitLog.commits log')
            = JsMap.keys (GitLog.commits firstPage) ++ JsMap.keys paged
         /\ GitLog.startingCursor log' = Some "c".
Proof.
  eexists _, _. split; [vm_compute; reflexivity|].
  destruct (more_appends_paged_commits secondPageProvider firstPage (Some "a")
              None None emptyWorld _ _
              ltac:(apply (bool_decide_unpack _); vm_compute; exact I)
              eq_refl eq_refl)
    as [Hexhausted|(paged & Hpaged & Hkeys & _ & _ & _ & Hstart)].
  { vm_compute in Hexhausted. discriminate. }
  exists paged. split; [exact Hpaged|]. split; [|split; [exact Hkeys|exact Hstart]].
  vm_compute in Hpaged. injection Hpaged as <-. reflexivity.
Defined.

(** X11 at the pages [a, b, c] and [c, d, e] *)
Lemma more_only_appends_witness :
  exists log' w',
    callMore secondPageProvider (GitLog.LogMoreFn firstPage (Some "a") None) None
      emptyWorld
    = (Returns log', w')
    /\ ["a"; "b"; "c"] `prefix_of` JsMap.keys (GitLog.commits log')
    /\ 3 <= GitLog.count log'.
Proof.
  eexists _, _. split; [vm_compute; reflexivity|].
  assert (log_ok (GitLog.captured (GitLog.LogMoreFn firstPage (Some "a") None)))
    as Hfirst.
  { split; simpl; try done.
    - apply (bool_decide_unpack _). vm_compute. exact I.
    - by intros fn [= <-]. }
  apply (more_only_appends secondPageProvider
           (GitLog.LogMoreFn firstPage (Some "a") None) None emptyWorld _ _
           Hfirst cache_ok_emptyWorld eq_refl).
Defined.

(** X12 at [until = "z"], which the page [a, b, c] does not hold, and a
    last page of the remote *)
Lemma more_until_keeps_paging_witness :
  exists log' w',
    callMore secondPageProvider (GitLog.LogMoreFn firstPage (Some "a") None)
      (Some (MoreUntil "z")) emptyWorld
    = (Returns log', w')
    /\ GitLog.hasMore log' = true
    /\ GitLog.limit log' = None.
Proof.
  eexists _, _. split; [vm_compute; reflexivity|].
  destruct (more_until_keeps_paging secondPageProvider
              (GitLog.LogMoreFn firstPage (Some "a") None) "z" emptyWorld _ _
              ltac:(intros; discriminate) eq_refl eq_refl)
    as [Hexhausted|(Hmore & _ & Hlimit)].
  { vm_compute in Hexhausted. discriminate. }
  split; [exact Hmore|exact Hlimit].
Defined.

(** X14 at a commit of one file, "file", among the files "other" and
    "file" *)
Lemma reconcileFile_keeps_paths_witness :
  let files :=
    [GitFileChange.mk "repo" "other" Added None None None;
     GitFileChange.mk "repo" "file" Renamed (Some "old") None None] in
  let commit :=
    GitHubCommit.mk "c1" (exampleIdentity "ann") (exampleIdentity "ann") "c1" []
      None (Some 1) (Some 4) (Some 2) ViewerUndefined in
  GitFileChange.path <$> reconcileFile "repo" "file" commit files
  = ["other"; "file"]
  /\ reconcileFile "repo" "file" commit files !! 0%nat
     = Some (GitFileChange.mk "repo" "other" Added None None None)
  /\ reconcileFile "repo" "absent" commit files = files.
Proof.
  pose (files :=
    [GitFileChange.mk "repo" "other" Added None None None;
     GitFileChange.mk "repo" "file" Renamed (Some "old") None None]).
  pose (commit :=
    GitHubCommit.mk "c1" (exampleIdentity "ann") (exampleIdentity "ann") "c1" []
      None (Some 1) (Some 4) (Some 2) ViewerUndefined).
  destruct (reconcileFile_keeps_paths "repo" "file" commit files)
    as (Hpaths & _ & Hother & _ & _).
  destruct (reconcileFile_keeps_paths "repo" "absent" commit files)
    as (_ & _ & _ & Habsent & _).
  split; [exact Hpaths|]. split.
  - apply Hother; [reflexivity|vm_compute; discriminate].
  - apply Habsent. apply (bool_decide_unpack _). vm_compute. exact I.
Defined.

(** X15 at the revision that stands for a missing file, and at a
    commit the remote does not have *)
Lemma getCommitFiles_outcomes_witness :
  getCommitFiles failingProvider "0000000000000000000000000000000000000000-"
    (Some "repo") "0000000000000000000000000000000000000000-" emptyWorld
  = (Returns [], emptyWorld)
  /\ exists commit w',
       getCommit failingProvider (Some "repo") "c1" emptyWorld
       = (Returns commit, w')
       /\ documents w' = documents emptyWorld
       /\ getCommitFiles failingProvider
            "0000000000000000000000000000000000000000-" (Some "repo") "c1"
            emptyWorld
          = (Returns
               match commit with
               | Some c =>
                   match GitCommit.fileset c with
                   | Some fileset => default [] (GitCommitFileset.files fileset)
                   | None => []
                   end
               | None => []
               end, w').
Proof.
  split.
  - apply (proj1 (getCommitFiles_outcomes failingProvider
                    "0000000000000000000000000000000000000000-" (Some "repo")
                    "0000000000000000000000000000000000000000-" emptyWorld)).
    left. reflexivity.
  - apply (proj2 (getCommitFiles_outcomes failingProvider
                    "0000000000000000000000000000000000000000-" (Some "repo")
                    "c1" emptyWorld)).
    + vm_compute. discriminate.
    + reflexivity.
Defined.

(** X16 at the page [c, d, e] of the remote *)
Lemma getLogShas_are_the_ids_witness :
  exists shas w',
    getLogShas secondPageProvider (Some "repo") None None emptyWorld
    = (Returns shas, w')
    /\ shas = ["c"; "d"; "e"]
    /\ NoDup shas.
Proof.
  eexists _, _. split; [vm_compute; reflexivity|]. split; [reflexivity|].
  apply (proj1 (getLogShas_are_the_ids secondPageProvider (Some "repo") None None
                  emptyWorld _ _ cache_ok_emptyWorld cache_keyed_emptyWorld
                  eq_refl)).
Defined.

(** X17 at the page [c, d, e] of the remote, asked for "file" *)
Lemma file_sets_follow_the_query_witness :
  exists log w',
    getLogForPathCore secondPageProvider (Some "repo") "file" None
      GitLogForPathOptions.none emptyWorld
    = (Returns (Some log), w')
    /\ Forall (fun e => filteredFor "file" e.2
                        /\ GitCommit.repoPath e.2 = GitLog.repoPath log)
         (GitLog.commits log).
Proof.
  eexists _, _. split; [vm_compute; reflexivity|].
  apply (proj2 (file_sets_follow_the_query secondPageProvider) "repo" "file" None
           GitLogForPathOptions.none emptyWorld _ _ eq_refl).
Defined.

(** X18 at a query whose arguments cannot be built *)
Lemma searchCommits_throws_iff_witness :
  searchCommits (withoutQueryArgs failingProvider) (Some "repo")
    (SearchQuery.mk "fix" Absent Absent Absent Absent Absent) "view" None emptyWorld
  = (Throws "Error: no query", emptyWorld).
Proof.
  apply (proj2 (searchCommits_throws_iff (withoutQueryArgs failingProvider)
                  (Some "repo") (SearchQuery.mk "fix" Absent Absent Absent Absent Absent)
                  "view" None emptyWorld "Error: no query" emptyWorld)).
  split; [reflexivity|]. exists "repo". split; [reflexivity|]. right.
  eexists. split; [reflexivity|]. split; [|reflexivity].
  intros value values. vm_compute. discriminate.
Defined.

(** X19 at the contributor "ann" with an email *)
Lemma toClipboard_links_to_getUrl_witness :
  ContributorNode.toClipboard (exampleNode None) (Some "markdown")
  = "[ann <ann@example.com>](mailto:ann@example.com)"
  /\ ContributorNode.getUrl (exampleNode None) = "mailto:ann@example.com".
Proof.
  destruct (proj1 (toClipboard_links_to_getUrl (exampleNode None)) eq_refl)
    as [Hmarkdown _].
  split; [|reflexivity]. rewrite Hmarkdown. vm_compute. reflexivity.
Defined.

(** X20 at a node with a pathspec, over a cache that holds the log of
    the whole file: the cache is neither read nor written, and the
    request names no author. *)
Lemma contributor_log_request_witness :
  exists r w',
    ContributorNode.getLog openPageProvider exampleGitUser
      (exampleNode (Some ("file", false))) newNodeState wholeFileWorld
    = (r, w')
    /\ documents w' = documents wholeFileWorld
    /\ exists request,
         requests w' = requests wholeFileWorld ++ [CallGetCommits request]
         /\ CommitsRequest.authors request = None
         /\ CommitsRequest.limit request = Some 10.
Proof.
  eexists _, _. split; [vm_compute; reflexivity|].
  destruct (contributor_log_request openPageProvider exampleGitUser
              (exampleNode (Some ("file", false))) newNodeState wholeFileWorld
              _ _ eq_refl)
    as (Hdocs & _ & [Hsame|(request & Hreq & _ & _ & Hauthors & Hlimit)]).
  { vm_compute in Hsame. discriminate. }
  split; [exact Hdocs|]. exists request. split; [exact Hreq|].
  split; [exact Hauthors|exact Hlimit].
Defined.

(** X21 at a new node without a pathspec and a remote with more to
    come: one change is fired, and the limit is the count of the log
    held. *)
Lemma loadMore_limit_follows_count_witness :
  exists s' w',
    ContributorNode.loadMore openPageProvider exampleGitUser (exampleNode None)
      None newNodeState emptyWorld
    = (Returns tt, s', w')
    /\ ContributorNode.changes s' = 1%nat
    /\ ContributorNode.limit s' = Some 3.
Proof.
  eexists _, _. split; [vm_compute; reflexivity|].
  destruct (proj2 (loadMore_limit_follows_count openPageProvider exampleGitUser
                     (exampleNode None) None newNodeState emptyWorld _ _ _
                     eq_refl))
    as [(Hchanges & _)|(Hchanges & _ & Hlimit & _)].
  { vm_compute in Hchanges. discriminate. }
  split; [exact Hchanges|]. etrans; [exact Hlimit|]. reflexivity.
Defined.

(** X22 at a remote "origin" of the repository searched *)
Lemma searches_stay_in_the_repository_witness :
  RepositoriesView.findCommit_canTraverseRemotes "repo" ["origin/main"]
    (ViewNode.mk (ViewNode.RemoteNode "origin") "repo") = true
  /\ exists branch, branch ∈ ["origin/main"] /\ "origin" = firstSegment branch.
Proof.
  split; [reflexivity|].
  apply (proj1 (proj2 (proj1 (proj2 (proj2 (searches_stay_in_the_repository
                                              (fun name => firstSegment name)
                                              "repo"
                                              (ViewNode.mk
                                                 (ViewNode.RemoteNode "origin")
                                                 "repo"))))
                         ["origin/main"] eq_refl))
           "origin" eq_refl).
Defined.

(** X23 at the command that turns the workspace value off *)
Lemma setAutoRefresh_context_follows_getter_witness :
  let s := RepositoriesView.mkState true None None 0 in
  let s' := RepositoriesView.setAutoRefresh true (Some false) s in
  RepositoriesView.workspace s' = Some false
  /\ RepositoriesView.autoRefresh s' = false.
Proof.
  apply (proj1 (proj2 (proj2 (proj2 (proj2
           (setAutoRefresh_context_follows_getter (Some false)
              (RepositoriesView.mkState true None None 0))))))
           false eq_refl eq_refl).
Defined.

(** X24 at a message of two lines *)
Lemma firstLine_is_first_line_witness :
  firstLine "one" = "one"
  /\ firstLine ("one" +:+ String newline "two") = "one".
Proof.
  split; [|reflexivity].
  apply (proj2 (proj2 (firstLine_is_first_line "one"))).
  vm_compute. intros H. decompose [or] H; try discriminate; done.
Defined.

(** X25 at "HEAD" *)
Lemma head_is_the_default_revision_witness :
  getLog secondPageProvider (Some "repo") (Some "HEAD") None emptyWorld
  = getLog secondPageProvider (Some "repo") None None emptyWorld
  /\ logCacheKey (Some "HEAD") GitLogForPathOptions.none = Some "log:HEAD"
  /\ logCacheKey None GitLogForPathOptions.none = Some "log".
Proof.
  split; [|split; reflexivity].
  apply (proj1 (head_is_the_default_revision secondPageProvider (Some "HEAD")
                  (or_introl eq_refl))).
Defined.

(** ** Null and undefined, absent and present *)

(** The [viewer] of a page, for an author named as the account is. Left
    out, the account's label stands in and the author is shown as
    "You"; null, nobody is renamed; a name, only the author of that
    name is. *)
Example getLog_viewer_null_renames_nobody :
  let page viewer : list RemoteCall -> CommitsRequest.t -> Outcome CommitsResult.t :=
    fun _ _ =>
      Returns (CommitsResult.mk
                 [GitHubCommit.mk "c" (exampleIdentity "me") (exampleIdentity "ann")
                    "c" [] None None None None ViewerUndefined]
                 None viewer) in
  let names viewer :=
    match (getLog (exampleCollaborators examplePolicy (page viewer) (Returns None))
             (Some "repo") None None emptyWorld).1 with
    | Returns (Some log) =>
        (fun c => (GitCommitIdentity.name (GitCommit.author c),
                   GitCommitIdentity.name (GitCommit.committer c)))
          <$> JsMap.values (GitLog.commits log)
    | _ => []
    end in
  names ViewerUndefined = [("You", "ann")]
  /\ names ViewerNull = [("me", "ann")]
  /\ names (ViewerName "ann") = [("me", "You")].
Proof. cbv zeta. split; [|split]; vm_compute; reflexivity. Qed.

(** The same for the [viewer] of the one commit [getCommit] fetches *)
Example viewerOr_null_stays_null :
  displayName (viewerOr ViewerUndefined (Some "me")) "me" = "You"
  /\ displayName (viewerOr ViewerNull (Some "me")) "me" = "me"
  /\ displayName (viewerOr (ViewerName "ann") (Some "me")) "me" = "me".
Proof. split; [|split]; reflexivity. Qed.

(** A key of the query that is there with the value undefined overwrites
    the default; only a key that is left out gets it. *)
Example withSearchDefaults_present_undefined :
  withSearchDefaults
    (SearchQuery.mk "fix" Absent (Present None) (Present None)
       (Present (Some true)) Absent)
  = SearchQuery.mk "fix" (Present (Some false)) (Present None) (Present None)
      (Present (Some true)) Absent.
Proof. reflexivity. Qed.
